(** * CHIP-8 emulator (chip8.py): shallow embedding and verified properties

    The development follows the [Emulator] class of [chip8.py].  Python
    integers are unbounded, so every number is a [Z] and each masking
    ([& 0x00FF], [& 0x0FFF], [% len(self.stack)]) is written where the
    source writes it.  Python lists and the [bytearray] display are
    [list Z] with Python's indexing rules: a negative index counts from
    the end and an index outside [-len, len) raises [IndexError].
    Mutations made before an exception is raised persist, so a raised
    exception carries the emulator as it was at that moment. *)

From Stdlib Require Import ZArith List Lia Bool.
From stdpp Require Import base list.

Local Open Scope Z_scope.

(** ** Data model *)

(** The [QUIRK_*] attributes read by [tick] and [set_pixel]. *)
Record Quirks : Type := mkQuirks {
  QUIRK_vF_reset : bool;
  QUIRK_memory : bool;
  QUIRK_disp_wait : bool;
  QUIRK_disp_wait_faker : bool;
  QUIRK_clipping : bool;
  QUIRK_shifting : bool;
  QUIRK_jumping : bool
}.

(** The defaults of [quirk_config.get(..., default)] in [__init__]. *)
Definition default_quirks : Quirks :=
  {| QUIRK_vF_reset := true;
     QUIRK_memory := true;
     QUIRK_disp_wait := true;
     QUIRK_disp_wait_faker := false;
     QUIRK_clipping := true;
     QUIRK_shifting := false;
     QUIRK_jumping := false |}.

(** The attributes of [Emulator] that belong to the virtual machine
    (the pygame window, clock and font are left out). *)
Record Emulator : Type := mkEmulator {
  quirks : Quirks;
  resolution : Z * Z;
  mem : list Z;
  regs : list Z;
  i_reg : Z;
  pc : Z;
  stack : list Z;
  sp : Z;
  kb : list Z;
  sound_timer : Z;
  delay_timer : Z;
  kb_interrupt : option Z;
  interrupted : bool;
  disp : list Z
}.

Definition with_mem (v : list Z) (e : Emulator) : Emulator :=
  mkEmulator (quirks e) (resolution e) v (regs e) (i_reg e) (pc e) (stack e)
    (sp e) (kb e) (sound_timer e) (delay_timer e) (kb_interrupt e)
    (interrupted e) (disp e).

Definition with_regs (v : list Z) (e : Emulator) : Emulator :=
  mkEmulator (quirks e) (resolution e) (mem e) v (i_reg e) (pc e) (stack e)
    (sp e) (kb e) (sound_timer e) (delay_timer e) (kb_interrupt e)
    (interrupted e) (disp e).

Definition with_i_reg (v : Z) (e : Emulator) : Emulator :=
  mkEmulator (quirks e) (resolution e) (mem e) (regs e) v (pc e) (stack e)
    (sp e) (kb e) (sound_timer e) (delay_timer e) (kb_interrupt e)
    (interrupted e) (disp e).

Definition with_pc (v : Z) (e : Emulator) : Emulator :=
  mkEmulator (quirks e) (resolution e) (mem e) (regs e) (i_reg e) v (stack e)
    (sp e) (kb e) (sound_timer e) (delay_timer e) (kb_interrupt e)
    (interrupted e) (disp e).

Definition with_stack (v : list Z) (e : Emulator) : Emulator :=
  mkEmulator (quirks e) (resolution e) (mem e) (regs e) (i_reg e) (pc e) v
    (sp e) (kb e) (sound_timer e) (delay_timer e) (kb_interrupt e)
    (interrupted e) (disp e).

Definition with_sp (v : Z) (e : Emulator) : Emulator :=
  mkEmulator (quirks e) (resolution e) (mem e) (regs e) (i_reg e) (pc e)
    (stack e) v (kb e) (sound_timer e) (delay_timer e) (kb_interrupt e)
    (interrupted e) (disp e).

Definition with_kb (v : list Z) (e : Emulator) : Emulator :=
  mkEmulator (quirks e) (resolution e) (mem e) (regs e) (i_reg e) (pc e)
    (stack e) (sp e) v (sound_timer e) (delay_timer e) (kb_interrupt e)
    (interrupted e) (disp e).

Definition with_sound_timer (v : Z) (e : Emulator) : Emulator :=
  mkEmulator (quirks e) (resolution e) (mem e) (regs e) (i_reg e) (pc e)
    (stack e) (sp e) (kb e) v (delay_timer e) (kb_interrupt e)
    (interrupted e) (disp e).

Definition with_delay_timer (v : Z) (e : Emulator) : Emulator :=
  mkEmulator (quirks e) (resolution e) (mem e) (regs e) (i_reg e) (pc e)
    (stack e) (sp e) (kb e) (sound_timer e) v (kb_interrupt e)
    (interrupted e) (disp e).

Definition with_kb_interrupt (v : option Z) (e : Emulator) : Emulator :=
  mkEmulator (quirks e) (resolution e) (mem e) (regs e) (i_reg e) (pc e)
    (stack e) (sp e) (kb e) (sound_timer e) (delay_timer e) v
    (interrupted e) (disp e).

Definition with_interrupted (v : bool) (e : Emulator) : Emulator :=
  mkEmulator (quirks e) (resolution e) (mem e) (regs e) (i_reg e) (pc e)
    (stack e) (sp e) (kb e) (sound_timer e) (delay_timer e) (kb_interrupt e)
    v (disp e).

Definition with_disp (v : list Z) (e : Emulator) : Emulator :=
  mkEmulator (quirks e) (resolution e) (mem e) (regs e) (i_reg e) (pc e)
    (stack e) (sp e) (kb e) (sound_timer e) (delay_timer e) (kb_interrupt e)
    (interrupted e) v.

(** ** Python sequences *)

Module Py.

(** Position designated by index [i] in a sequence of [n] items. *)
Definition index (n : nat) (i : Z) : option nat :=
  if (0 <=? i) && (i <? Z.of_nat n) then Some (Z.to_nat i)
  else if (- Z.of_nat n <=? i) && (i <? 0) then Some (Z.to_nat (Z.of_nat n + i))
  else None.

(** [l[i]]; [None] stands for [IndexError]. *)
Definition getitem (l : list Z) (i : Z) : option Z :=
  match index (length l) i with
  | Some k => l !! k
  | None => None
  end.

(** [l[i] = v]; [None] stands for [IndexError]. *)
Definition setitem (l : list Z) (i : Z) (v : Z) : option (list Z) :=
  match index (length l) i with
  | Some k => Some (<[k := v]> l)
  | None => None
  end.

(** [range(n)]. *)
Definition range (n : Z) : list Z := map Z.of_nat (seq 0 (Z.to_nat n)).

(** [int(not v)] for an integer [v]. *)
Definition int_not (v : Z) : Z := if v =? 0 then 1 else 0.

(** Truth value of an integer. *)
Definition truthy (v : Z) : bool := negb (v =? 0).

End Py.

(** ** Exceptions and the emulator monad *)

Inductive exn : Type := IndexError | ZeroDivisionError.

(** Outcome of running a method: a value, or a raised exception, each
    with the emulator as the method left it. *)
Inductive result (A : Type) : Type :=
| Val (a : A) (e : Emulator)
| Exc (x : exn) (e : Emulator).

Arguments Val {A} a e.
Arguments Exc {A} x e.

Definition M (A : Type) : Type := Emulator -> result A.

Definition ret {A : Type} (a : A) : M A := fun e => Val a e.

Definition bind {A B : Type} (m : M A) (k : A -> M B) : M B :=
  fun e => match m e with
           | Val a e' => k a e'
           | Exc x e' => Exc x e'
           end.

Definition raise {A : Type} (x : exn) : M A := fun e => Exc x e.

Definition gets {A : Type} (f : Emulator -> A) : M A := fun e => Val (f e) e.

Definition modify (f : Emulator -> Emulator) : M unit := fun e => Val tt (f e).

Definition lift_index {A : Type} (o : option A) : M A :=
  match o with
  | Some a => ret a
  | None => raise IndexError
  end.

Declare Scope emu_scope.
Delimit Scope emu_scope with emu.
Notation "x <- m ;; k" := (bind m (fun x => k))
  (at level 100, m at next level, right associativity) : emu_scope.
Notation "m ;;; k" := (bind m (fun _ => k))
  (at level 100, right associativity) : emu_scope.
Local Open Scope emu_scope.

(** [for i in l: body(i)]. *)
Fixpoint for_in (l : list Z) (body : Z -> M unit) : M unit :=
  match l with
  | [] => ret tt
  | i :: l' => body i ;;; for_in l' body
  end.

(** A loop that carries a local variable from one iteration to the next. *)
Fixpoint for_in_acc {A : Type} (l : list Z) (body : Z -> A -> M A) (a : A) : M A :=
  match l with
  | [] => ret a
  | i :: l' => a' <- body i a ;; for_in_acc l' body a'
  end.

(** Reads and writes of the emulator's sequences. *)
Definition mem_get (a : Z) : M Z :=
  m <- gets mem ;; lift_index (Py.getitem m a).
Definition mem_set (a v : Z) : M unit :=
  m <- gets mem ;; m' <- lift_index (Py.setitem m a v) ;; modify (with_mem m').
Definition reg_get (i : Z) : M Z :=
  r <- gets regs ;; lift_index (Py.getitem r i).
Definition reg_set (i v : Z) : M unit :=
  r <- gets regs ;; r' <- lift_index (Py.setitem r i v) ;; modify (with_regs r').
Definition stack_get (i : Z) : M Z :=
  s <- gets stack ;; lift_index (Py.getitem s i).
Definition stack_set (i v : Z) : M unit :=
  s <- gets stack ;; s' <- lift_index (Py.setitem s i v) ;; modify (with_stack s').
Definition kb_get (i : Z) : M Z :=
  k <- gets kb ;; lift_index (Py.getitem k i).
Definition disp_get (i : Z) : M Z :=
  d <- gets disp ;; lift_index (Py.getitem d i).
Definition disp_set (i v : Z) : M unit :=
  d <- gets disp ;; d' <- lift_index (Py.setitem d i v) ;; modify (with_disp d').

(** [a % b]. *)
Definition py_mod (a b : Z) : M Z :=
  if b =? 0 then raise ZeroDivisionError else ret (a mod b).

(** ** Methods of [Emulator] *)

(** The font written by [load_sprites]. *)
Definition sprites : list Z :=
  [ 0xF0; 0x90; 0x90; 0x90; 0xF0;
    0x20; 0x60; 0x20; 0x20; 0x70;
    0xF0; 0x10; 0xF0; 0x80; 0xF0;
    0xF0; 0x10; 0xF0; 0x10; 0xF0;
    0x90; 0x90; 0xF0; 0x10; 0x10;
    0xF0; 0x80; 0xF0; 0x10; 0xF0;
    0xF0; 0x80; 0xF0; 0x90; 0xF0;
    0xF0; 0x10; 0x20; 0x40; 0x40;
    0xF0; 0x90; 0xF0; 0x90; 0xF0;
    0xF0; 0x90; 0xF0; 0x10; 0xF0;
    0xF0; 0x90; 0xF0; 0x90; 0x90;
    0xE0; 0x90; 0xE0; 0x90; 0xE0;
    0xF0; 0x80; 0x80; 0x80; 0xF0;
    0xE0; 0x90; 0x90; 0x90; 0xE0;
    0xF0; 0x80; 0xF0; 0x80; 0xF0;
    0xF0; 0x80; 0xF0; 0x80; 0x80 ].

(** [for i, byte in enumerate(data): self.mem[base + i] = byte], with
    [i] counted from [start]. *)
Fixpoint store_from (base start : Z) (data : list Z) : M unit :=
  match data with
  | [] => ret tt
  | byte :: rest =>
      mem_set (base + start) byte ;;; store_from base (start + 1) rest
  end.

Definition load_sprites : M unit := store_from 0 0 sprites.

(** [load_rom], given the bytes [f.read()] returned. *)
Definition load_rom (data : list Z) : M unit := store_from 0x200 0 data.

(** [bytearray([0] * w * h)]. *)
Definition blank_display (res : Z * Z) : list Z :=
  repeat 0 (Z.to_nat (fst res) * Z.to_nat (snd res)).

(** The emulator as [__init__] leaves it before [load_sprites]. *)
Definition fresh (q : Quirks) (res : Z * Z) : Emulator :=
  {| quirks := q;
     resolution := res;
     mem := repeat 0 4096;
     regs := repeat 0 16;
     i_reg := 0;
     pc := 0x200;
     stack := repeat 0 48;
     sp := 0;
     kb := repeat 0 16;
     sound_timer := 0;
     delay_timer := 0;
     kb_interrupt := None;
     interrupted := false;
     disp := blank_display res |}.

(** The emulator a run starts from: [Emulator(config)] then
    [load_rom]. *)
Definition boot (q : Quirks) (res : Z * Z) (rom : list Z) : result unit :=
  (load_sprites ;;; load_rom rom) (fresh q res).

Definition set_pixel (x y : Z) : M Z :=
  clip <- gets (fun e => QUIRK_clipping (quirks e)) ;;
  res <- gets resolution ;;
  if clip && ((x >=? fst res) || (y >=? snd res)) then ret 1
  else if clip && ((x <? 0) || (y <? 0)) then ret 1
  else
    xm <- py_mod x (fst res) ;;
    ym <- py_mod y (snd res) ;;
    let pos := xm + ym * 64 in
    old <- disp_get pos ;;
    disp_set pos (Py.int_not old) ;;;
    new <- disp_get pos ;;
    ret (Py.int_not new).

Definition update_timers : M unit :=
  d <- gets delay_timer ;;
  (if d >? 0 then modify (with_delay_timer (d - 1)) else ret tt) ;;;
  s <- gets sound_timer ;;
  (if s >? 0 then modify (with_sound_timer (s - 1)) else ret tt).

(** What [handle_input] does to the machine for a mapped key: [key] is
    [self.key_map[ev.key]]. *)
Definition key_down (key : Z) : M unit :=
  k <- gets kb ;;
  k' <- lift_index (Py.setitem k key 1) ;;
  modify (with_kb k') ;;;
  modify (with_kb_interrupt (Some key)).

Definition key_up (key : Z) : M unit :=
  k <- gets kb ;;
  k' <- lift_index (Py.setitem k key 0) ;;
  modify (with_kb k').

(** How a [case] body of [tick] ends: it falls out of the [match], or
    it executes [return]. *)
Inductive exit : Type := FallThrough | Return.

Definition next : M exit := ret FallThrough.

(** [self.regs[x] = f(self.regs[x])], for the augmented assignments. *)
Definition reg_upd (x : Z) (f : Z -> Z) : M unit :=
  v <- reg_get x ;; reg_set x (f v).

(** [self.sp += d; self.sp %= len(self.stack)]. *)
Definition sp_move (d : Z) : M unit :=
  s <- gets sp ;;
  modify (with_sp (s + d)) ;;;
  s1 <- gets sp ;;
  n <- gets (fun e => Z.of_nat (length (stack e))) ;;
  s2 <- py_mod s1 n ;;
  modify (with_sp s2).

(** [self.pc += d]. *)
Definition pc_add (d : Z) : M unit :=
  p <- gets pc ;; modify (with_pc (p + d)).

(** [if quirk: self.i_reg += x + 1; self.i_reg &= 0x0FFF]. *)
Definition advance_i (x : Z) : M unit :=
  q <- gets (fun e => QUIRK_memory (quirks e)) ;;
  if q then
    i <- gets i_reg ;;
    modify (with_i_reg (i + (x + 1))) ;;;
    i1 <- gets i_reg ;;
    modify (with_i_reg (Z.land i1 0x0FFF))
  else ret tt.

(** The body of [for col in range(width)]: the local [sprite] is the
    carried variable. *)
Definition draw_col (x y row col sprite : Z) : M Z :=
  (if Z.land sprite 0x80 >? 0 then
     vx <- reg_get x ;;
     vy <- reg_get y ;;
     hit <- set_pixel (vx mod 64 + col) (vy mod 32 + row) ;;
     if Py.truthy hit then reg_set 0xF 1 else ret tt
   else ret tt) ;;;
  ret (Z.land (Z.shiftl sprite 1) 0x00FF).

(** The body of [for row in range(height)]. *)
Definition draw_row (x y width row : Z) : M unit :=
  i <- gets i_reg ;;
  sprite <- mem_get (i + row) ;;
  _ <- for_in_acc (Py.range width) (draw_col x y row) sprite ;;
  ret tt.

(** [case 0xD000] after the display-wait test. *)
Definition draw (x y opcode : Z) : M unit :=
  let width := 8 in
  let height := Z.land opcode 0x000F in
  reg_set 0xF 0 ;;;
  for_in (Py.range height) (draw_row x y width).

(** [case 0x0000]. *)
Definition op_0 (opcode : Z) : M exit :=
  match Z.land opcode 0x00FF with
  | 0xE0 =>
      res <- gets resolution ;;
      modify (with_disp (blank_display res)) ;;; next
  | 0xEE =>
      s <- gets sp ;;
      hi <- stack_get s ;;
      modify (with_pc hi) ;;;
      sp_move (-1) ;;;
      p <- gets pc ;;
      modify (with_pc (Z.shiftl p 8)) ;;;
      s' <- gets sp ;;
      lo <- stack_get s' ;;
      p' <- gets pc ;;
      modify (with_pc (Z.lor p' lo)) ;;;
      sp_move (-1) ;;; next
  | _ => next
  end.

(** [case 0x2000]. *)
Definition op_2 (opcode : Z) : M exit :=
  sp_move 1 ;;;
  s <- gets sp ;;
  p <- gets pc ;;
  stack_set s (Z.land p 0x00FF) ;;;
  sp_move 1 ;;;
  s' <- gets sp ;;
  p' <- gets pc ;;
  stack_set s' (Z.shiftr p' 8) ;;;
  modify (with_pc (Z.land opcode 0x0FFF)) ;;; next.

(** [if self.QUIRK_vF_reset: self.regs[0xF] = 0]. *)
Definition vf_reset : M unit :=
  q <- gets (fun e => QUIRK_vF_reset (quirks e)) ;;
  if q then reg_set 0xF 0 else ret tt.

(** [if not self.QUIRK_shifting: self.regs[x] = self.regs[y]]. *)
Definition shift_source (x y : Z) : M unit :=
  q <- gets (fun e => QUIRK_shifting (quirks e)) ;;
  if negb q then vy <- reg_get y ;; reg_set x vy else ret tt.

(** [case 0x8000]. *)
Definition op_8 (x y opcode : Z) : M exit :=
  match Z.land opcode 0x000F with
  | 0x0 =>
      vy <- reg_get y ;; reg_set x vy ;;; next
  | 0x1 =>
      vx <- reg_get x ;; vy <- reg_get y ;; reg_set x (Z.lor vx vy) ;;;
      vf_reset ;;; next
  | 0x2 =>
      vx <- reg_get x ;; vy <- reg_get y ;; reg_set x (Z.land vx vy) ;;;
      vf_reset ;;; next
  | 0x3 =>
      vx <- reg_get x ;; vy <- reg_get y ;; reg_set x (Z.lxor vx vy) ;;;
      vf_reset ;;; next
  | 0x4 =>
      vx <- reg_get x ;; vy <- reg_get y ;; reg_set x (vx + vy) ;;;
      r <- reg_get x ;;
      reg_set 0xF (if r >? 0xFF then 1 else 0) ;;;
      reg_upd x (fun v => Z.land v 0x00FF) ;;; next
  | 0x5 =>
      vx <- reg_get x ;; vy <- reg_get y ;; reg_set x (vx - vy) ;;;
      r <- reg_get x ;;
      reg_set 0xF (if r <? 0 then 0 else 1) ;;;
      reg_upd x (fun v => Z.land v 0x00FF) ;;; next
  | 0x6 =>
      shift_source x y ;;;
      Rx <- reg_get x ;;
      reg_upd x (fun v => Z.shiftr v 1) ;;;
      reg_set 0xF (Z.land Rx 0x0001) ;;;
      reg_upd x (fun v => Z.land v 0x00FF) ;;; next
  | 0x7 =>
      vy <- reg_get y ;; vx <- reg_get x ;; reg_set x (vy - vx) ;;;
      r <- reg_get x ;;
      reg_set 0xF (if r <? 0 then 0 else 1) ;;;
      reg_upd x (fun v => Z.land v 0x00FF) ;;; next
  | 0xE =>
      shift_source x y ;;;
      Rx <- reg_get x ;;
      reg_upd x (fun v => Z.shiftl v 1) ;;;
      reg_set 0xF (Z.shiftr (Z.land Rx 0x0080) 7) ;;;
      reg_upd x (fun v => Z.land v 0x00FF) ;;; next
  | _ => next
  end.

(** [case 0xD000]. *)
Definition op_D (x y opcode : Z) : M exit :=
  wait <- gets (fun e => QUIRK_disp_wait (quirks e)) ;;
  if wait then
    faker <- gets (fun e => QUIRK_disp_wait_faker (quirks e)) ;;
    if faker then
      update_timers ;;; draw x y opcode ;;; next
    else
      intr <- gets interrupted ;;
      if intr then
        modify (with_interrupted false) ;;; draw x y opcode ;;; next
      else
        pc_add (-2) ;;; ret Return
  else
    draw x y opcode ;;; next.

(** [case 0xE000]. *)
Definition op_E (x opcode : Z) : M exit :=
  match Z.land opcode 0x00FF with
  | 0x9E =>
      vx <- reg_get x ;; k <- kb_get vx ;;
      (if Py.truthy k then pc_add 2 else ret tt) ;;; next
  | 0xA1 =>
      vx <- reg_get x ;; k <- kb_get vx ;;
      (if negb (Py.truthy k) then pc_add 2 else ret tt) ;;; next
  | _ => next
  end.

(** [for i in range(x + 1): self.mem[self.i_reg + i] = self.regs[i]]. *)
Definition store_regs (x : Z) : M unit :=
  for_in (Py.range (x + 1))
    (fun i => v <- reg_get i ;; a <- gets i_reg ;; mem_set (a + i) v).

(** [for i in range(x + 1): self.regs[i] = self.mem[self.i_reg + i]]. *)
Definition load_regs (x : Z) : M unit :=
  for_in (Py.range (x + 1))
    (fun i => a <- gets i_reg ;; v <- mem_get (a + i) ;; reg_set i v).

(** [case 0xF000]. *)
Definition op_F (x opcode : Z) : M exit :=
  match Z.land opcode 0x00FF with
  | 0x07 =>
      d <- gets delay_timer ;; reg_set x d ;;; next
  | 0x0A =>
      k <- gets kb_interrupt ;;
      match k with
      | Some key =>
          reg_set x key ;;; modify (with_kb_interrupt None) ;;; next
      | None =>
          pc_add (-2) ;;; ret Return
      end
  | 0x15 =>
      vx <- reg_get x ;; modify (with_delay_timer vx) ;;; next
  | 0x18 =>
      vx <- reg_get x ;; modify (with_sound_timer vx) ;;; next
  | 0x1E =>
      i <- gets i_reg ;; vx <- reg_get x ;;
      modify (with_i_reg (i + vx)) ;;;
      i1 <- gets i_reg ;;
      modify (with_i_reg (Z.land i1 0x0FFF)) ;;; next
  | 0x29 =>
      vx <- reg_get x ;;
      modify (with_i_reg (vx * 5)) ;;;
      i1 <- gets i_reg ;;
      modify (with_i_reg (Z.land i1 0x0FFF)) ;;; next
  | 0x33 =>
      v0 <- reg_get x ;; i0 <- gets i_reg ;; mem_set (i0 + 0) (v0 / 100) ;;;
      v1 <- reg_get x ;; i1 <- gets i_reg ;;
      mem_set (i1 + 1) ((v1 mod 100) / 10) ;;;
      v2 <- reg_get x ;; i2 <- gets i_reg ;; mem_set (i2 + 2) (v2 mod 10) ;;;
      next
  | 0x55 =>
      store_regs x ;;; advance_i x ;;; next
  | 0x65 =>
      load_regs x ;;; advance_i x ;;; next
  | _ => next
  end.

(** The [match opcode & 0xF000] of [tick]. *)
Definition dispatch (rnd x y opcode : Z) : M exit :=
  match Z.land opcode 0xF000 with
  | 0x0000 => op_0 opcode
  | 0x1000 => modify (with_pc (Z.land opcode 0x0FFF)) ;;; next
  | 0x2000 => op_2 opcode
  | 0x3000 =>
      vx <- reg_get x ;;
      (if vx =? Z.land opcode 0x00FF then pc_add 2 else ret tt) ;;; next
  | 0x4000 =>
      vx <- reg_get x ;;
      (if negb (vx =? Z.land opcode 0x00FF) then pc_add 2 else ret tt) ;;; next
  | 0x5000 =>
      vx <- reg_get x ;; vy <- reg_get y ;;
      (if vx =? vy then pc_add 2 else ret tt) ;;; next
  | 0x6000 => reg_set x (Z.land opcode 0x00FF) ;;; next
  | 0x7000 =>
      reg_upd x (fun v => v + Z.land opcode 0x00FF) ;;;
      reg_upd x (fun v => Z.land v 0x00FF) ;;; next
  | 0x8000 => op_8 x y opcode
  | 0x9000 =>
      vx <- reg_get x ;; vy <- reg_get y ;;
      (if negb (vx =? vy) then pc_add 2 else ret tt) ;;; next
  | 0xA000 => modify (with_i_reg (Z.land opcode 0x0FFF)) ;;; next
  | 0xB000 =>
      q <- gets (fun e => QUIRK_jumping (quirks e)) ;;
      v <- (if q then reg_get x else reg_get 0) ;;
      modify (with_pc (Z.land opcode 0x0FFF + v)) ;;; next
  | 0xC000 => reg_set x (Z.land rnd (Z.land opcode 0x00FF)) ;;; next
  | 0xD000 => op_D x y opcode
  | 0xE000 => op_E x opcode
  | 0xF000 => op_F x opcode
  | _ => next
  end.

(** The instruction word [tick] reads at [self.pc]. *)
Definition fetch : M Z :=
  p <- gets pc ;;
  hi <- mem_get p ;;
  p' <- gets pc ;;
  lo <- mem_get (p' + 1) ;;
  ret (Z.lor (Z.shiftl hi 8) lo).

(** [tick]; [rnd] is the value [random.randint(0, 255)] yields when the
    step asks for it. *)
Definition tick (rnd : Z) : M unit :=
  opcode <- fetch ;;
  let x := Z.shiftr (Z.land opcode 0x0F00) 8 in
  let y := Z.shiftr (Z.land opcode 0x00F0) 4 in
  pc_add 2 ;;;
  how <- dispatch rnd x y opcode ;;
  match how with
  | FallThrough => modify (with_kb_interrupt None)
  | Return => ret tt
  end.

(** What [render] does to the machine. *)
Definition render : M unit := modify (with_interrupted true).

(** ** Reading outcomes *)

(** The emulator an outcome carries. *)
Definition final {A : Type} (r : result A) : Emulator :=
  match r with
  | Val _ e => e
  | Exc _ e => e
  end.

(** The exception an outcome raised, if any. *)
Definition raised {A : Type} (r : result A) : option exn :=
  match r with
  | Val _ _ => None
  | Exc x _ => Some x
  end.

(** The machine with the default configuration and [rom] loaded. *)
Definition booted (rom : list Z) : Emulator :=
  final (boot default_quirks (64, 32) rom).

(** [n] steps of [tick], each drawing [rnd] if it asks for a random
    byte; the run stops at the first exception. *)
Fixpoint ticks (n : nat) (rnd : Z) : M unit :=
  match n with
  | O => ret tt
  | S n' => tick rnd ;;; ticks n' rnd
  end.

(** ** Example machines *)

(** [8124] with V1 = 200 and V2 = 100. *)
Definition demo_add : Emulator :=
  with_regs [0; 200; 100; 0; 0; 0; 0; 0; 0; 0; 0; 0; 0; 0; 0; 0]
    (booted [0x81; 0x24]).

(** [8F04] with VF = 1 and V0 = 1. *)
Definition demo_add_vf : Emulator :=
  with_regs [1; 0; 0; 0; 0; 0; 0; 0; 0; 0; 0; 0; 0; 0; 0; 1]
    (booted [0x8F; 0x04]).

(** [C1AA] with all registers clear: V1 := random byte AND 0xAA. *)
Definition demo_random : Emulator := booted [0xC1; 0xAA].

(** [D001] at 0x200, a key pressed ([handle_input] latched key 5), no
    frame rendered yet. *)
Definition demo_latch : Emulator :=
  final (key_down 5 (booted [0xD0; 0x01])).

(** I := 0x20A; V0 := 60; V1 := 0; then D011 draws the one-row sprite
    0xFF stored at 0x20A.  The machine is taken after the three loads
    and a [render]. *)
Definition rom_edge : list Z :=
  [0xA2; 0x0A; 0x60; 0x3C; 0x61; 0x00; 0xD0; 0x11; 0x00; 0x00; 0xFF].

Definition demo_edge : Emulator :=
  final ((ticks 3 0 ;;; render) (booted rom_edge)).

(** ** Nested calls *)

(** A program of [d] nested subroutines: subroutine [k] sits at
    [0x200 + 4k], calls subroutine [k + 1] and returns; the innermost
    one only returns. *)
Definition rom_nested (d : nat) : list Z :=
  flat_map (fun k => [0x22; 4 * (Z.of_nat k + 1); 0x00; 0xEE]) (seq 0 d)
  ++ [0x00; 0xEE].

(** A return as the first instruction: the stack is empty. *)
Definition demo_return : Emulator := booted [0x00; 0xEE].

(** 24 nested calls made: the stack holds 24 return addresses and the
    25th call is next. *)
Definition demo_full : Emulator := final (ticks 24 0 (booted (rom_nested 25))).

(** The machine [Emulator()] constructs, before any ROM is loaded. *)
Definition constructed : Emulator :=
  final (load_sprites (fresh default_quirks (64, 32))).

(** A ROM one byte longer than the room above 0x200. *)
Definition rom_3585 : list Z := repeat 1 3585.

(** ** Words no [case] takes *)

(** Whether [w] runs through the [match] statements of [tick] without
    entering a [case] body that does something: its family has an
    inner [match] and no inner [case] fits. *)
Definition unmapped (w : Z) : bool :=
  match Z.land w 0xF000 with
  | 0x0000 => negb (existsb (Z.eqb (Z.land w 0x00FF)) [0xE0; 0xEE])
  | 0x8000 =>
      negb (existsb (Z.eqb (Z.land w 0x000F))
              [0x0; 0x1; 0x2; 0x3; 0x4; 0x5; 0x6; 0x7; 0xE])
  | 0xE000 => negb (existsb (Z.eqb (Z.land w 0x00FF)) [0x9E; 0xA1])
  | 0xF000 =>
      negb (existsb (Z.eqb (Z.land w 0x00FF))
              [0x07; 0x0A; 0x15; 0x18; 0x1E; 0x29; 0x33; 0x55; 0x65])
  | 0x1000 | 0x2000 | 0x3000 | 0x4000 | 0x5000 | 0x6000 | 0x7000
  | 0x9000 | 0xA000 | 0xB000 | 0xC000 | 0xD000 => false
  | _ => true
  end.

(** [F0FF] at 0x200, and [5011] at 0x200 with V0 = V1 = 0. *)
Definition demo_unknown : Emulator := booted [0xF0; 0xFF].
Definition demo_5xy1 : Emulator := booted [0x50; 0x11].

(** ** What a draw does to the display *)

(** Whether a sprite bit aimed at ([X], [Y]) lands on pixel ([px],
    [py]) of the 64x32 display: with clipping only when that is the
    very coordinate, without it when the coordinate wraps there. *)
Definition lands (clip : bool) (X Y px py : Z) : bool :=
  if clip then (X =? px) && (Y =? py)
  else (X mod 64 =? px) && (Y mod 32 =? py).

(** Bit [col], counted from the left, of a sprite row. *)
Definition sprite_bit (byte col : Z) : bool := Z.testbit byte (7 - col).

(** Whether row [row] of the sprite, the byte at [i + row] of [m],
    drawn from the origin ([ox], [oy]), has a set bit that lands on
    ([px], [py]). *)
Definition row_covers (clip : bool) (ox oy : Z) (m : list Z) (i : Z)
    (px py row : Z) : bool :=
  match Py.getitem m (i + row) with
  | Some byte =>
      existsb (fun col => sprite_bit byte col
                          && lands clip (ox + col) (oy + row) px py)
        (Py.range 8)
  | None => false
  end.

(** Whether the sprite of [n] rows stored at [i] has a set bit that
    lands on ([px], [py]). *)
Definition covers (clip : bool) (ox oy : Z) (m : list Z) (i n : Z)
    (px py : Z) : bool :=
  existsb (row_covers clip ox oy m i px py) (Py.range n).

(** A pixel value, toggled when [h] holds. *)
Definition flip (h : bool) (v : option Z) : option Z :=
  if h then Py.int_not <$> v else v.

(** The machine fit for a draw with Vx = [a] and Vy = [b]: the default
    64x32 display, and registers [x] and [y] other than VF. *)
Definition drawing (clip : bool) (x y a b : Z) (e : Emulator) : Prop :=
  resolution e = (64, 32) /\
  QUIRK_clipping (quirks e) = clip /\
  length (disp e) = 2048%nat /\
  length (regs e) = 16%nat /\
  (0 <= x < 15 /\ 0 <= y < 15) /\
  Py.getitem (regs e) x = Some a /\
  Py.getitem (regs e) y = Some b.

(** [e'] is [e] after the pixels [h] selects were toggled, memory and
    I being as before. *)
Definition painted (h : Z -> Z -> bool) (e e' : Emulator) : Prop :=
  mem e' = mem e /\
  i_reg e' = i_reg e /\
  forall px py, 0 <= px < 64 -> 0 <= py < 32 ->
    Py.getitem (disp e') (px + py * 64)
    = flip (h px py) (Py.getitem (disp e) (px + py * 64)).

(** Whether a draw instruction draws in this step rather than wait for
    the display. *)
Definition draws_now (e : Emulator) : bool :=
  negb (QUIRK_disp_wait (quirks e))
  || QUIRK_disp_wait_faker (quirks e)
  || interrupted e.

(** I := 0x20A; V0 := 124; V1 := 33; then D011 draws the one-row sprite
    0xFF: the origin (124, 33) lies outside the display.  The machine
    is taken after the three loads and a [render]. *)
Definition rom_far : list Z :=
  [0xA2; 0x0A; 0x60; 0x7C; 0x61; 0x21; 0xD0; 0x11; 0x00; 0x00; 0xFF].

Definition demo_far : Emulator :=
  final ((ticks 3 0 ;;; render) (booted rom_far)).

(** I := 0x20A; VF := 70; V1 := 0; then DF11 draws the one-pixel sprite
    0x80 with VF as its x register. *)
Definition rom_vf_origin : list Z :=
  [0xA2; 0x0A; 0x6F; 0x46; 0x61; 0x00; 0xDF; 0x11; 0x00; 0x00; 0x80].

Definition demo_vf_origin : Emulator :=
  final ((ticks 3 0 ;;; render) (booted rom_vf_origin)).

(** V0 := 255; I := 0xFFF; then F033 stores the digits of V0 at I,
    I + 1 and I + 2.  The machine is taken after the two loads. *)
Definition rom_bcd_edge : list Z := [0x60; 0xFF; 0xAF; 0xFF; 0xF0; 0x33].

Definition demo_bcd_edge : Emulator :=
  final (ticks 2 0 (booted rom_bcd_edge)).

(** ** How a case body ends *)

(** The body never ends in [return]. *)
Definition falls_through (m : M exit) : Prop :=
  forall e how e', m e = Val how e' -> how = FallThrough.

(** ** What a draw does to VF *)

(** Whether the pixel the coordinate ([X], [Y]) wraps to is set in the
    display [d]. *)
Definition pixel_set (d : list Z) (X Y : Z) : bool :=
  match Py.getitem d (X mod 64 + Y mod 32 * 64) with
  | Some v => negb (v =? 0)
  | None => false
  end.

(** Whether the coordinate is one the clipping quirk leaves out. *)
Definition clipped (clip : bool) (X Y : Z) : bool :=
  clip && ((X >=? 64) || (Y >=? 32)).

(** Whether row [row] of the sprite has a set bit that makes
    [set_pixel] answer 1 on the display [d]: the bit is clipped, or it
    falls on a set pixel. *)
Definition row_flags (clip : bool) (ox oy : Z) (m : list Z) (i : Z)
    (d : list Z) (row : Z) : bool :=
  match Py.getitem m (i + row) with
  | Some byte =>
      existsb (fun col => sprite_bit byte col
                          && (clipped clip (ox + col) (oy + row)
                              || pixel_set d (ox + col) (oy + row)))
        (Py.range 8)
  | None => false
  end.

Definition flags (clip : bool) (ox oy : Z) (m : list Z) (i n : Z)
    (d : list Z) : bool :=
  existsb (row_flags clip ox oy m i d) (Py.range n).

(** VF is 1 in [e'] when [f] holds, and as in [e] otherwise. *)
Definition flagged (f : bool) (e e' : Emulator) : Prop :=
  Py.getitem (regs e') 0xF = if f then Some 1 else Py.getitem (regs e) 0xF.

(** ** What a method leaves alone *)

(** The method never changes what [f] reads off the machine, whether
    it returns or raises. *)
Definition keeps {A B : Type} (f : Emulator -> A) (m : M B) : Prop :=
  forall e, f (final (m e)) = f e.

(** Words whose step may write to memory, to the display, to the
    stack: the bodies of the other cases have no such assignment. *)
Definition writes_mem (w : Z) : bool :=
  (Z.land w 0xF000 =? 0xF000)
  && ((Z.land w 0x00FF =? 0x33) || (Z.land w 0x00FF =? 0x55)).

Definition writes_disp (w : Z) : bool :=
  ((Z.land w 0xF000 =? 0x0000) && (Z.land w 0x00FF =? 0xE0))
  || (Z.land w 0xF000 =? 0xD000).

Definition writes_stack (w : Z) : bool := Z.land w 0xF000 =? 0x2000.

(** ** The shape of a running machine *)

Definition is_byte (v : Z) : Prop := 0 <= v <= 255.

Definition is_bit (v : Z) : Prop := v = 0 \/ v = 1.

(** What [__init__] establishes and the program relies on: the sizes of
    the four arrays, 8-bit registers, memory cells and timers, a 12-bit
    I, a stack pointer within the stack, a program counter and stack
    bytes that are not negative, a latched key that is one of the 16
    keys, and a display of zeros and ones. *)
Record machine_ok (e : Emulator) : Prop := MachineOk {
  ok_regs_len : length (regs e) = 16%nat;
  ok_regs : Forall is_byte (regs e);
  ok_mem_len : length (mem e) = 4096%nat;
  ok_mem : Forall is_byte (mem e);
  ok_stack_len : length (stack e) = 48%nat;
  ok_stack : Forall (fun v => 0 <= v) (stack e);
  ok_sp : 0 <= sp e < 48;
  ok_i_reg : 0 <= i_reg e <= 0x0FFF;
  ok_pc : 0 <= pc e;
  ok_delay : is_byte (delay_timer e);
  ok_sound : is_byte (sound_timer e);
  ok_latch : forall k, kb_interrupt e = Some k -> 0 <= k < 16;
  ok_kb_len : length (kb e) = 16%nat;
  ok_disp : Forall is_bit (disp e)
}.

(** [Q] holds of the value and the machine whenever [m] returns. *)
Definition wp {A : Type} (m : M A) (Q : A -> Emulator -> Prop)
    (e : Emulator) : Prop :=
  match m e with
  | Val a e' => Q a e'
  | Exc _ _ => True
  end.

(** The method keeps the shape of the machine. *)
Definition preserves {A : Type} (m : M A) : Prop :=
  forall e, machine_ok e -> wp m (fun _ e' => machine_ok e') e.

(** A machine as [tick] has it once the instruction is read and [pc] has
    moved past it. *)
Definition stepped (e : Emulator) : Prop := machine_ok e /\ 2 <= pc e.

(** [m] takes a machine past its fetch to a machine of the right shape,
    when it returns. *)
Definition completes {A : Type} (m : M A) : Prop :=
  forall e, stepped e -> wp m (fun _ e' => machine_ok e') e.

(** The shape of a machine, as a test that can be run. *)
Definition machine_okb (e : Emulator) : bool :=
  let byte v := (0 <=? v) && (v <=? 255) in
  (length (regs e) =? 16)%nat && forallb byte (regs e) &&
  (length (mem e) =? 4096)%nat && forallb byte (mem e) &&
  (length (stack e) =? 48)%nat && forallb (fun v => 0 <=? v) (stack e) &&
  (0 <=? sp e) && (sp e <? 48) &&
  (0 <=? i_reg e) && (i_reg e <=? 0x0FFF) && (0 <=? pc e) &&
  byte (delay_timer e) && byte (sound_timer e) &&
  match kb_interrupt e with
  | Some k => (0 <=? k) && (k <? 16)
  | None => true
  end &&
  (length (kb e) =? 16)%nat &&
  forallb (fun v => (v =? 0) || (v =? 1)) (disp e).

(** ** Input and frames *)

(** The keys [handle_input] tells apart: the sixteen of [key_map] and
    any other key.  The key m, on which [handle_input] saves a picture
    of memory to a file, is left out. *)
Inductive pykey : Type :=
  | K_1 | K_2 | K_3 | K_4
  | K_q | K_w | K_e | K_r
  | K_a | K_s | K_d | K_f
  | K_z | K_x | K_c | K_v
  | K_other.

(** [self.key_map]; [None] where [ev.key in self.key_map] is false. *)
Definition key_map (k : pykey) : option Z :=
  match k with
  | K_1 => Some 0x1 | K_2 => Some 0x2 | K_3 => Some 0x3 | K_4 => Some 0xc
  | K_q => Some 0x4 | K_w => Some 0x5 | K_e => Some 0x6 | K_r => Some 0xd
  | K_a => Some 0x7 | K_s => Some 0x8 | K_d => Some 0x9 | K_f => Some 0xe
  | K_z => Some 0xa | K_x => Some 0x0 | K_c => Some 0xb | K_v => Some 0xf
  | K_other => None
  end.

(** The events of [pygame.event.get()] after which [handle_input] goes
    on (QUIT ends the process); [VIDEORESIZE] sets the size of the
    window, which is no part of the machine. *)
Inductive event : Type :=
  | KEYDOWN (k : pykey)
  | KEYUP (k : pykey)
  | VIDEORESIZE.

(** The body of the loop of [handle_input] for one event. *)
Definition handle_event (ev : event) : M unit :=
  match ev with
  | KEYDOWN k =>
      match key_map k with
      | Some key => key_down key
      | None => ret tt
      end
  | KEYUP k =>
      match key_map k with
      | Some key => key_up key
      | None => ret tt
      end
  | VIDEORESIZE => ret tt
  end.

(** [handle_input], given the events [pygame.event.get()] returned. *)
Fixpoint handle_input (evs : list event) : M unit :=
  match evs with
  | [] => ret tt
  | ev :: rest => handle_event ev ;;; handle_input rest
  end.

(** [cycle] with [self.ipf > 0]: [rnds] holds, for each of the
    [self.ipf] steps, the value [random.randint] yields if asked. *)
Definition cycle (evs : list event) (rnds : list Z) : M unit :=
  handle_input evs ;;;
  for_in rnds tick ;;;
  update_timers ;;;
  render.

(** ** Methods that return *)

(** [m] returns, and [Q] holds of the value and the machine it
    leaves. *)
Definition runs {A : Type} (m : M A) (Q : A -> Emulator -> Prop)
    (e : Emulator) : Prop :=
  match m e with
  | Val a e' => Q a e'
  | Exc _ _ => False
  end.

(** The machine a step leaves when the body of its [case] ended as
    [how]. *)
Definition after (how : exit) (e : Emulator) : Emulator :=
  match how with
  | FallThrough => with_kb_interrupt None e
  | Return => e
  end.

(** ** The memory and stack views *)

(** The pixels [stack_to_surf] hands to [pygame.image.frombuffer]:
    a buffer of zeros, 128 wide, in which the loops write the bits of
    each stack cell; [None] stands for an IndexError. *)
Definition stack_dump_height (st : list Z) : Z :=
  let stack_dump_size := Z.of_nat (length st) * 8 in
  let stack_dump_width := 128 in
  if stack_dump_size mod stack_dump_width =? 0
  then stack_dump_size / stack_dump_width
  else stack_dump_size / stack_dump_width + 1.

(** [for j in range(8): stack_copy[i*8 + j] = (byte >> j) & 1]. *)
Fixpoint put_bits (byte i : Z) (js : list Z) (copy : list Z)
    : option (list Z) :=
  match js with
  | [] => Some copy
  | j :: rest =>
      match Py.setitem copy (i * 8 + j) (Z.land (Z.shiftr byte j) 1) with
      | Some copy' => put_bits byte i rest copy'
      | None => None
      end
  end.

(** [for i, byte in enumerate(self.stack)], with [i] counted from the
    given start. *)
Fixpoint put_bytes (i : Z) (st : list Z) (copy : list Z)
    : option (list Z) :=
  match st with
  | [] => Some copy
  | byte :: rest =>
      match put_bits byte i (Py.range 8) copy with
      | Some copy' => put_bytes (i + 1) rest copy'
      | None => None
      end
  end.

Definition stack_to_surf (st : list Z) : option (list Z) :=
  put_bytes 0 st (repeat 0 (Z.to_nat (128 * stack_dump_height st))).

(** The digits of [bin(p)[2:]] for a positive [p], most significant
    first. *)
Fixpoint pos_digits (p : positive) : list Z :=
  match p with
  | xH => [1]
  | xO q => pos_digits q ++ [0]
  | xI q => pos_digits q ++ [1]
  end.

(** [int(bit) for bit in bin(byte)[2:].zfill(8)]: for a negative
    [byte] the string starts with the letter b, on which [int] raises
    ValueError, here [None]. *)
Definition byte_pixels (byte : Z) : option (list Z) :=
  match byte with
  | Z0 => Some (repeat 0 8)
  | Zpos p => Some (repeat 0 (8 - length (pos_digits p)) ++ pos_digits p)
  | Zneg _ => None
  end.

(** The pixels [mem_to_surf] hands to [pygame.image.frombuffer] for a
    picture of 128 by 256. *)
Fixpoint mem_to_surf (m : list Z) : option (list Z) :=
  match m with
  | [] => Some []
  | byte :: rest =>
      match byte_pixels byte, mem_to_surf rest with
      | Some px, Some more => Some (px ++ more)
      | _, _ => None
      end
  end.

(** The eight pixels of a byte, most significant bit first. *)
Definition msb_first (byte : Z) : list Z :=
  map (fun j => Z.b2z (Z.testbit byte (7 - j))) (Py.range 8).

(** ** More example machines *)

(** Sixteen registers, the first ones as given. *)
Definition regs_from (vs : list Z) : list Z :=
  vs ++ repeat 0 (16 - length vs).

(** [6005] at 0x200, as booted. *)
Definition demo_plain : Emulator := booted [0x60; 0x05].

(** [8015] with V0 = 5 and V1 = 7. *)
Definition demo_sub : Emulator :=
  with_regs (regs_from [5; 7]) (booted [0x80; 0x15]).

(** [8016] with V0 = 5 and V1 = 0x81. *)
Definition demo_shift : Emulator :=
  with_regs (regs_from [5; 0x81]) (booted [0x80; 0x16]).

(** [7002] with V0 = 255. *)
Definition demo_add_imm : Emulator :=
  with_regs (regs_from [255]) (booted [0x70; 0x02]).

(** [F033] with V0 = 234 and I = 0x300. *)
Definition demo_bcd : Emulator :=
  with_i_reg 0x300 (with_regs (regs_from [234]) (booted [0xF0; 0x33])).

(** [F155] with V0 = 0x11, V1 = 0x22 and I = 0x300. *)
Definition demo_store : Emulator :=
  with_i_reg 0x300
    (with_regs (regs_from [0x11; 0x22]) (booted [0xF1; 0x55])).

(** [F165] with I = 0x202, where the ROM has the bytes 0xAB, 0xCD. *)
Definition demo_load : Emulator :=
  with_i_reg 0x202 (booted [0xF1; 0x65; 0xAB; 0xCD]).

(** [D001] as booted: no frame was rendered yet. *)
Definition demo_draw_wait : Emulator := booted [0xD0; 0x01].

(** [F00A] as booted: no key is latched. *)
Definition demo_key_wait : Emulator := booted [0xF0; 0x0A].

(** [F30A] with key 7 latched. *)
Definition demo_key_taken : Emulator :=
  with_kb_interrupt (Some 7) (booted [0xF3; 0x0A]).

(** [E09E] with V0 = 5 and no key down. *)
Definition demo_key_skip : Emulator :=
  with_regs (regs_from [5]) (booted [0xE0; 0x9E]).

(** A delay timer of 3 and a sound timer of 1. *)
Definition demo_timers : Emulator :=
  with_sound_timer 1 (with_delay_timer 3 (booted [])).

(** [F029] with V0 = 0x0A. *)
Definition demo_index : Emulator :=
  with_regs (regs_from [0x0A]) (booted [0xF0; 0x29]).

(** [8F11] with V1 = 0x0A and VF = 0x0C. *)
Definition demo_logic : Emulator :=
  with_regs [0; 0x0A; 0; 0; 0; 0; 0; 0; 0; 0; 0; 0; 0; 0; 0; 0x0C]
    (booted [0x8F; 0x11]).

(** [D015] with V0 = 3, V1 = 4 and I = 0, the glyph of the digit 0,
    after a [render]. *)
Definition demo_glyph : Emulator :=
  with_interrupted true
    (with_regs (regs_from [3; 4]) (booted [0xD0; 0x15])).

(** [4007] with V0 = 5. *)
Definition demo_skip : Emulator :=
  with_regs (regs_from [5]) (booted [0x40; 0x07]).

(** ** Steps that fail on an index only *)

(** [Q] holds of the value and the machine whenever [m] returns, and
    the exception is IndexError whenever it raises. *)
Definition wpi {A : Type} (m : M A) (Q : A -> Emulator -> Prop)
    (e : Emulator) : Prop :=
  match m e with
  | Val a e' => Q a e'
  | Exc x _ => x = IndexError
  end.

(** A display with a width and a height other than zero. *)
Definition sized (e : Emulator) : Prop :=
  fst (resolution e) <> 0 /\ snd (resolution e) <> 0.

(** ** Programs of nested calls *)

(** The instruction word at address [a] of memory [m], as [tick] reads
    it: [self.mem[a] << 8 | self.mem[a + 1]]. *)
Definition word_at (m : list Z) (a : Z) : option Z :=
  match Py.getitem m a, Py.getitem m (a + 1) with
  | Some hi, Some lo => Some (Z.lor (Z.shiftl hi 8) lo)
  | _, _ => None
  end.

(** Memory holds a chain of calls one inside the other: the 2nnn word
    [w] at [p], and at its target the rest of the chain. *)
Fixpoint calls_nested (m : list Z) (p : Z) (ws : list Z) : Prop :=
  match ws with
  | [] => True
  | w :: rest =>
      word_at m p = Some w /\ Z.land w 0xF000 = 0x2000 /\
      calls_nested m (Z.land w 0x0FFF) rest
  end.

(** The addresses of the call instructions of the chain. *)
Fixpoint call_sites (p : Z) (ws : list Z) : list Z :=
  match ws with
  | [] => []
  | w :: rest => p :: call_sites (Z.land w 0x0FFF) rest
  end.

(** Memory holds the 00EE that ends each subroutine of the chain: the
    innermost subroutine starts with it, every other one has it right
    after its call. *)
Fixpoint returns_nested (m : list Z) (ws : list Z) : Prop :=
  match ws with
  | [] => True
  | w :: rest =>
      match rest with
      | [] => word_at m (Z.land w 0x0FFF) = Some 0x00EE
      | _ :: _ =>
          word_at m (Z.land w 0x0FFF + 2) = Some 0x00EE /\
          returns_nested m rest
      end
  end.

(** The 24 call words of [rom_nested 24]. *)
Definition words_24 : list Z :=
  map (fun k => 0x2204 + 4 * Z.of_nat k) (seq 0 24).

(** ** Two machines that differ in the display only *)

(** [demo_glyph] with the pixel (3, 4) lit. *)
Definition demo_lit : Emulator :=
  with_disp (<[259%nat := 1]> (disp demo_glyph)) demo_glyph.
(** ** Python indexing *)

Section Indexing.

Implicit Types (l : list Z) (i j v : Z).

Lemma index_nonneg (n : nat) i :
  0 <= i < Z.of_nat n -> Py.index n i = Some (Z.to_nat i).
Proof.
  intros H. unfold Py.index.
  destruct (Z.leb_spec 0 i); [|lia].
  destruct (Z.ltb_spec i (Z.of_nat n)); [reflexivity|lia].
Qed.

Lemma index_wrap (n : nat) i :
  - Z.of_nat n <= i < 0 -> Py.index n i = Some (Z.to_nat (Z.of_nat n + i)).
Proof.
  intros H. unfold Py.index.
  destruct (Z.leb_spec 0 i); [lia|]. cbn [andb].
  destruct (Z.leb_spec (- Z.of_nat n) i); [|lia].
  destruct (Z.ltb_spec i 0); [reflexivity|lia].
Qed.

Lemma index_out (n : nat) i :
  Z.of_nat n <= i -> Py.index n i = None.
Proof.
  intros H. unfold Py.index.
  destruct (Z.leb_spec 0 i); destruct (Z.ltb_spec i (Z.of_nat n));
    cbn [andb]; try lia.
  destruct (Z.leb_spec (- Z.of_nat n) i); destruct (Z.ltb_spec i 0);
    cbn [andb]; try lia; reflexivity.
Qed.

Lemma index_lt (n : nat) i k : Py.index n i = Some k -> (k < n)%nat.
Proof.
  unfold Py.index.
  destruct (Z.leb_spec 0 i); destruct (Z.ltb_spec i (Z.of_nat n));
    cbn [andb]; try (intros [= <-]; lia);
    destruct (Z.leb_spec (- Z.of_nat n) i); destruct (Z.ltb_spec i 0);
    cbn [andb]; try discriminate; intros [= <-]; lia.
Qed.

Lemma getitem_nonneg l i :
  0 <= i < Z.of_nat (length l) -> Py.getitem l i = l !! Z.to_nat i.
Proof. intros H. unfold Py.getitem. now rewrite index_nonneg. Qed.

Lemma getitem_out l i :
  Z.of_nat (length l) <= i -> Py.getitem l i = None.
Proof. intros H. unfold Py.getitem. now rewrite index_out. Qed.

Lemma setitem_nonneg l i v :
  0 <= i < Z.of_nat (length l) ->
  Py.setitem l i v = Some (<[Z.to_nat i := v]> l).
Proof. intros H. unfold Py.setitem. now rewrite index_nonneg. Qed.

Lemma setitem_out l i v :
  Z.of_nat (length l) <= i -> Py.setitem l i v = None.
Proof. intros H. unfold Py.setitem. now rewrite index_out. Qed.

Lemma setitem_length l i v l' :
  Py.setitem l i v = Some l' -> length l' = length l.
Proof.
  unfold Py.setitem. destruct (Py.index (length l) i); [|discriminate].
  intros [= <-]. apply length_insert.
Qed.

Lemma getitem_is_Some l i :
  0 <= i < Z.of_nat (length l) -> exists v, Py.getitem l i = Some v.
Proof.
  intros H. rewrite getitem_nonneg by assumption.
  destruct (lookup_lt_is_Some_2 l (Z.to_nat i)) as [v Hv]; [lia|eauto].
Qed.

(** Reading back the item just written. *)
Lemma getitem_insert_eq l i v :
  0 <= i < Z.of_nat (length l) ->
  Py.getitem (<[Z.to_nat i := v]> l) i = Some v.
Proof.
  intros H. rewrite getitem_nonneg by (rewrite length_insert; lia).
  apply list_lookup_insert_eq. lia.
Qed.

(** Reading an item other than the one just written. *)
Lemma getitem_insert_ne l i j v :
  0 <= i -> 0 <= j < Z.of_nat (length l) -> i <> j ->
  Py.getitem (<[Z.to_nat i := v]> l) j = Py.getitem l j.
Proof.
  intros Hi Hj Hne.
  rewrite !getitem_nonneg by (rewrite ?length_insert; lia).
  apply list_lookup_insert_ne. lia.
Qed.

End Indexing.

(** ** Running the monad *)

Lemma bind_val {A B : Type} (m : M A) (k : A -> M B) e a e' :
  m e = Val a e' -> bind m k e = k a e'.
Proof. unfold bind. now intros ->. Qed.

Lemma bind_exc {A B : Type} (m : M A) (k : A -> M B) e x e' :
  m e = Exc x e' -> bind m k e = Exc x e'.
Proof. unfold bind. now intros ->. Qed.

Lemma bind_gets {A B : Type} (f : Emulator -> A) (k : A -> M B) e :
  bind (gets f) k e = k (f e) e.
Proof. reflexivity. Qed.

Lemma bind_modify {B : Type} (f : Emulator -> Emulator) (k : unit -> M B) e :
  bind (modify f) k e = k tt (f e).
Proof. reflexivity. Qed.

Lemma bind_ret {A B : Type} (a : A) (k : A -> M B) e :
  bind (ret a) k e = k a e.
Proof. reflexivity. Qed.

Lemma bind_assoc {A B C : Type} (m : M A) (k1 : A -> M B) (k2 : B -> M C) e :
  bind (bind m k1) k2 e = bind m (fun a => bind (k1 a) k2) e.
Proof. unfold bind. now destruct (m e). Qed.

(** One step of symbolic execution. *)
Ltac mstep :=
  first [ rewrite bind_assoc | rewrite bind_gets | rewrite bind_modify
        | rewrite bind_ret ]; cbv beta.

(** Arithmetic with [mod] and [/] by constants. *)
Ltac zmod := Z.div_mod_to_equations; lia.

Lemma reg_get_val e i v :
  Py.getitem (regs e) i = Some v -> reg_get i e = Val v e.
Proof. unfold reg_get, bind, gets. now intros ->. Qed.

Lemma reg_set_val e i v :
  0 <= i < Z.of_nat (length (regs e)) ->
  reg_set i v e = Val tt (with_regs (<[Z.to_nat i := v]> (regs e)) e).
Proof.
  intros H. unfold reg_set, bind, gets. now rewrite setitem_nonneg.
Qed.

Lemma mem_get_val e a v :
  Py.getitem (mem e) a = Some v -> mem_get a e = Val v e.
Proof. unfold mem_get, bind, gets. now intros ->. Qed.

Lemma mem_get_out e a :
  Z.of_nat (length (mem e)) <= a -> mem_get a e = Exc IndexError e.
Proof. intros H. unfold mem_get, bind, gets. now rewrite getitem_out. Qed.

Lemma mem_set_val e a v :
  0 <= a < Z.of_nat (length (mem e)) ->
  mem_set a v e = Val tt (with_mem (<[Z.to_nat a := v]> (mem e)) e).
Proof.
  intros H. unfold mem_set, bind, gets. now rewrite setitem_nonneg.
Qed.

Lemma mem_set_out e a v :
  Z.of_nat (length (mem e)) <= a -> mem_set a v e = Exc IndexError e.
Proof. intros H. unfold mem_set, bind, gets. now rewrite setitem_out. Qed.

Lemma stack_get_val e i v :
  Py.getitem (stack e) i = Some v -> stack_get i e = Val v e.
Proof. unfold stack_get, bind, gets. now intros ->. Qed.

Lemma stack_set_val e i v :
  0 <= i < Z.of_nat (length (stack e)) ->
  stack_set i v e = Val tt (with_stack (<[Z.to_nat i := v]> (stack e)) e).
Proof.
  intros H. unfold stack_set, bind, gets. now rewrite setitem_nonneg.
Qed.

(** The fields [x] and [y] of an instruction word are nibbles. *)
Lemma nibble_x_range w : 0 <= Z.shiftr (Z.land w 0x0F00) 8 < 16.
Proof.
  rewrite Z.shiftr_land. change (Z.shiftr 0x0F00 8) with (Z.ones 4).
  rewrite Z.land_ones by lia. apply Z.mod_pos_bound. lia.
Qed.

Lemma nibble_y_range w : 0 <= Z.shiftr (Z.land w 0x00F0) 4 < 16.
Proof.
  rewrite Z.shiftr_land. change (Z.shiftr 0x00F0 4) with (Z.ones 4).
  rewrite Z.land_ones by lia. apply Z.mod_pos_bound. lia.
Qed.

(** [tick] up to the [match]: the word is fetched and [pc] advanced. *)
Lemma tick_decode rnd e w :
  fetch e = Val w e ->
  tick rnd e =
    bind (dispatch rnd (Z.shiftr (Z.land w 0x0F00) 8)
            (Z.shiftr (Z.land w 0x00F0) 4) w)
      (fun how => match how with
                  | FallThrough => modify (with_kb_interrupt None)
                  | Return => ret tt
                  end)
      (with_pc (pc e + 2) e).
Proof.
  intros H. unfold tick. rewrite (bind_val _ _ _ _ _ H). reflexivity.
Qed.

(** [fetch] reads the machine and leaves it as it is. *)
Lemma fetch_pure e w e' : fetch e = Val w e' -> e' = e.
Proof.
  unfold fetch, mem_get, bind, gets, lift_index, ret, raise.
  destruct (Py.getitem (mem e) (pc e)); [|discriminate].
  destruct (Py.getitem (mem e) (pc e + 1)); [|discriminate].
  now intros [= _ <-].
Qed.

(** Moving [pc] on by two and back leaves the machine as it was. *)
Lemma with_pc_back e : with_pc (pc e + 2 + -2) (with_pc (pc e + 2) e) = e.
Proof.
  destruct e as [q r m rg i p st s k snd dl ki it d].
  unfold with_pc. cbn. f_equal. lia.
Qed.


(** ** What a method leaves alone *)

Section Keeps.

Context {A : Type} (f : Emulator -> A).

Lemma keeps_ret {B : Type} (b : B) : keeps f (ret b).
Proof. intros e. reflexivity. Qed.

Lemma keeps_raise {B : Type} (x : exn) : keeps f (raise (A := B) x).
Proof. intros e. reflexivity. Qed.

Lemma keeps_gets {B : Type} (g : Emulator -> B) : keeps f (gets g).
Proof. intros e. reflexivity. Qed.

Lemma keeps_lift_index {B : Type} (o : option B) : keeps f (lift_index o).
Proof. intros e. now destruct o. Qed.

Lemma keeps_py_mod a b : keeps f (py_mod a b).
Proof. intros e. unfold py_mod. now destruct (b =? 0). Qed.

Lemma keeps_modify (g : Emulator -> Emulator) :
  (forall e, f (g e) = f e) -> keeps f (modify g).
Proof. intros H e. apply H. Qed.

Lemma keeps_bind {B C : Type} (m : M B) (k : B -> M C) :
  keeps f m -> (forall b, keeps f (k b)) -> keeps f (bind m k).
Proof.
  intros Hm Hk e. unfold bind. specialize (Hm e).
  destruct (m e) as [b e1|x e1]; cbn [final] in *.
  - now rewrite Hk.
  - exact Hm.
Qed.

Lemma keeps_for_in (l : list Z) (body : Z -> M unit) :
  (forall i, keeps f (body i)) -> keeps f (for_in l body).
Proof.
  intros H. induction l as [|i l IH]; cbn [for_in].
  - apply keeps_ret.
  - apply keeps_bind; [apply H|intros _; exact IH].
Qed.

Lemma keeps_for_in_acc {B : Type} (l : list Z) (body : Z -> B -> M B) :
  (forall i b, keeps f (body i b)) -> forall b, keeps f (for_in_acc l body b).
Proof.
  intros H. induction l as [|i l IH]; intros b; cbn [for_in_acc].
  - apply keeps_ret.
  - apply keeps_bind; [apply H|intros b'; apply IH].
Qed.

End Keeps.

(** Decomposes a method into its primitive steps; what is left are the
    assignments that touch the field in question. *)
Ltac keeps_step :=
  first
    [ apply keeps_ret | apply keeps_raise | apply keeps_gets
    | apply keeps_lift_index | apply keeps_py_mod
    | apply keeps_modify; intros; solve [reflexivity | auto]
    | apply keeps_bind; [|intros]
    | apply keeps_for_in; intros
    | apply keeps_for_in_acc; intros
    | match goal with
      | |- keeps _ (if ?b then _ else _) => destruct b
      | |- keeps _ (match ?o with Some _ => _ | None => _ end) => destruct o
      end ].

Ltac keeps_unfold :=
  unfold next, mem_get, mem_set, reg_get, reg_set, reg_upd, stack_get,
    stack_set, kb_get, disp_get, disp_set, sp_move, pc_add, advance_i,
    vf_reset, shift_source, store_regs, load_regs, update_timers, draw,
    draw_row, draw_col, set_pixel, fetch.

Ltac frame := keeps_unfold; repeat keeps_step.

(** Case analysis on the number a [match] of [tick] looks at: [tac]
    closes every branch. *)
Ltac by_cases z tac :=
  generalize z; let b := fresh "b" in intros b;
  destruct b as [|?p|?p]; try (solve [tac]);
  repeat (match goal with p : positive |- _ => destruct p as [p|p|] end;
          try (solve [tac])).


(** ** The return stack *)

Lemma sp_move_run e d :
  length (stack e) = 48%nat ->
  sp_move d e = Val tt (with_sp ((sp e + d) mod 48) e).
Proof.
  intros L. unfold sp_move, bind, gets, modify, py_mod.
  cbn [sp stack with_sp]. rewrite L. reflexivity.
Qed.

(** What [case 0x2000] does to a machine with the 48-byte stack. *)
Lemma op_2_run e w :
  length (stack e) = 48%nat ->
  op_2 w e =
    Val FallThrough
      (with_pc (Z.land w 0x0FFF)
         (with_stack
            (<[Z.to_nat (((sp e + 1) mod 48 + 1) mod 48) := Z.shiftr (pc e) 8]>
               (<[Z.to_nat ((sp e + 1) mod 48) := Z.land (pc e) 0x00FF]>
                  (stack e)))
            (with_sp (((sp e + 1) mod 48 + 1) mod 48) e))).
Proof.
  intros L. unfold op_2.
  rewrite (bind_val _ _ _ _ _ (sp_move_run e 1 L)).
  repeat mstep. cbn [sp pc with_sp].
  erewrite bind_val; cycle 1.
  { apply stack_set_val. cbn [stack with_sp]. rewrite L. zmod. }
  cbn [stack with_sp].
  erewrite bind_val; cycle 1.
  { apply sp_move_run. cbn [stack with_stack]. now rewrite length_insert. }
  repeat mstep. cbn [sp pc with_sp with_stack].
  erewrite bind_val; cycle 1.
  { apply stack_set_val. cbn [stack with_sp with_stack].
    rewrite length_insert, L. zmod. }
  repeat mstep. reflexivity.
Qed.

(** What the [case 0xEE] does to a machine with the 48-byte stack. *)
Lemma op_0_return_run e w hi lo :
  length (stack e) = 48%nat ->
  Z.land w 0x00FF = 0xEE ->
  Py.getitem (stack e) (sp e) = Some hi ->
  Py.getitem (stack e) ((sp e - 1) mod 48) = Some lo ->
  op_0 w e =
    Val FallThrough
      (with_sp (((sp e - 1) mod 48 - 1) mod 48)
         (with_pc (Z.lor (Z.shiftl hi 8) lo) e)).
Proof.
  intros L Hw Hhi Hlo. unfold op_0. rewrite Hw. cbv iota beta.
  repeat mstep.
  rewrite (bind_val _ _ _ _ _ (stack_get_val _ _ _ Hhi)).
  repeat mstep.
  erewrite bind_val; cycle 1.
  { apply sp_move_run. exact L. }
  repeat mstep. cbn [sp pc stack with_sp with_pc].
  erewrite bind_val; cycle 1.
  { apply stack_get_val. cbn [stack with_sp with_pc]. exact Hlo. }
  repeat mstep. cbn [sp pc stack with_sp with_pc].
  erewrite bind_val; cycle 1.
  { apply sp_move_run. exact L. }
  reflexivity.
Qed.

(** The two bytes of a frame put together give the address back. *)
Lemma frame_bytes r :
  Z.lor (Z.shiftl (Z.shiftr r 8) 8) (Z.land r 0x00FF) = r.
Proof.
  apply Z.bits_inj'. intros n Hn.
  rewrite Z.lor_spec, Z.land_spec.
  change 0x00FF with (Z.ones 8).
  destruct (Z.lt_ge_cases n 8) as [Hlt|Hge].
  - rewrite Z.shiftl_spec_low by lia.
    rewrite Z.ones_spec_low by lia. cbn [orb]. apply andb_true_r.
  - rewrite Z.shiftl_spec_high by lia.
    rewrite Z.shiftr_spec by lia.
    rewrite Z.ones_spec_high by lia.
    rewrite andb_false_r, orb_false_r. f_equal. lia.
Qed.

(** ** Drawing a sprite *)

Lemma disp_get_val e i v :
  Py.getitem (disp e) i = Some v -> disp_get i e = Val v e.
Proof. unfold disp_get, bind, gets. now intros ->. Qed.

Lemma disp_set_val e i v :
  0 <= i < Z.of_nat (length (disp e)) ->
  disp_set i v e = Val tt (with_disp (<[Z.to_nat i := v]> (disp e)) e).
Proof.
  intros H. unfold disp_set, bind, gets. now rewrite setitem_nonneg.
Qed.

(** With the clipping quirk, [set_pixel] leaves the machine alone for a
    coordinate outside the display, and answers 1. *)
Lemma set_pixel_clipped e x y :
  QUIRK_clipping (quirks e) = true ->
  x >= fst (resolution e) \/ y >= snd (resolution e) \/ x < 0 \/ y < 0 ->
  set_pixel x y e = Val 1 e.
Proof.
  intros Hc H. unfold set_pixel, bind, gets. rewrite Hc. cbn [andb].
  destruct (Z.geb_spec x (fst (resolution e)));
    destruct (Z.geb_spec y (snd (resolution e))); cbn [orb]; try reflexivity.
  destruct (Z.ltb_spec x 0); destruct (Z.ltb_spec y 0); cbn [orb];
    try reflexivity.
  lia.
Qed.

Lemma painted_refl e : painted (fun _ _ => false) e e.
Proof. repeat split. Qed.

(** Two rounds of painting that touch no common pixel. *)
Lemma painted_trans h1 h2 e e1 e2 :
  painted h1 e e1 -> painted h2 e1 e2 ->
  (forall px py, 0 <= px < 64 -> 0 <= py < 32 ->
     h1 px py = true -> h2 px py = true -> False) ->
  painted (fun px py => h1 px py || h2 px py) e e2.
Proof.
  intros (M1 & I1 & P1) (M2 & I2 & P2) Hdis.
  split; [congruence|]. split; [congruence|].
  intros px py Hx Hy. rewrite P2, P1 by assumption.
  specialize (Hdis px py Hx Hy).
  destruct (h1 px py) eqn:E1, (h2 px py) eqn:E2; cbn [flip orb];
    try reflexivity.
  exfalso. auto.
Qed.

Lemma painted_ext h1 h2 e e' :
  painted h1 e e' ->
  (forall px py, 0 <= px < 64 -> 0 <= py < 32 -> h1 px py = h2 px py) ->
  painted h2 e e'.
Proof.
  intros (M & I & P) Hext. split; [exact M|]. split; [exact I|].
  intros px py Hx Hy. rewrite P by assumption. now rewrite Hext.
Qed.

(** [set_pixel] when it does not clip: the pixel the coordinate wraps
    to is toggled. *)
Lemma set_pixel_toggles e X Y :
  resolution e = (64, 32) ->
  length (disp e) = 2048%nat ->
  (QUIRK_clipping (quirks e) = true -> 0 <= X < 64 /\ 0 <= Y < 32) ->
  exists old,
    Py.getitem (disp e) (X mod 64 + Y mod 32 * 64) = Some old /\
    set_pixel X Y e
    = Val (Py.int_not (Py.int_not old))
        (with_disp (<[Z.to_nat (X mod 64 + Y mod 32 * 64)
                      := Py.int_not old]> (disp e)) e).
Proof.
  intros Hres Ld Hin.
  set (pos := X mod 64 + Y mod 32 * 64).
  assert (Hpos : 0 <= pos < 2048) by (subst pos; zmod).
  destruct (getitem_is_Some (disp e) pos) as [old Hold]; [rewrite Ld; lia|].
  exists old. split; [exact Hold|].
  unfold set_pixel. rewrite !bind_gets, Hres. cbn [fst snd].
  assert (Hguard1 : QUIRK_clipping (quirks e) && ((X >=? 64) || (Y >=? 32))
                    = false).
  { destruct (QUIRK_clipping (quirks e)); [|reflexivity].
    destruct (Hin eq_refl) as [HX HY]. cbn [andb].
    destruct (Z.geb_spec X 64); [lia|]. destruct (Z.geb_spec Y 32); [lia|].
    reflexivity. }
  assert (Hguard2 : QUIRK_clipping (quirks e) && ((X <? 0) || (Y <? 0))
                    = false).
  { destruct (QUIRK_clipping (quirks e)); [|reflexivity].
    destruct (Hin eq_refl) as [HX HY]. cbn [andb].
    destruct (Z.ltb_spec X 0); [lia|]. destruct (Z.ltb_spec Y 0); [lia|].
    reflexivity. }
  rewrite Hguard1, Hguard2.
  unfold py_mod. cbn [Z.eqb]. rewrite !bind_ret. fold pos.
  rewrite (bind_val _ _ _ _ _ (disp_get_val e pos old Hold)).
  rewrite (bind_val _ _ _ _ _
             (disp_set_val e pos (Py.int_not old) ltac:(rewrite Ld; lia))).
  erewrite bind_val; cycle 1.
  { apply disp_get_val. cbn [disp with_disp].
    apply getitem_insert_eq. rewrite Ld. lia. }
  reflexivity.
Qed.

(** [set_pixel] at a coordinate a draw can produce. *)
Lemma set_pixel_run clip x y a b e X Y :
  drawing clip x y a b e ->
  0 <= X -> 0 <= Y ->
  exists r e',
    set_pixel X Y e = Val r e' /\
    regs e' = regs e /\
    drawing clip x y a b e' /\
    painted (lands clip X Y) e e'.
Proof.
  intros (Hres & Hclip & Ld & Lr & Hxy & Ha & Hb) HX HY.
  assert (Hskip : clip = true -> X >= 64 \/ Y >= 32 ->
                  exists r e',
                    set_pixel X Y e = Val r e' /\
                    regs e' = regs e /\
                    drawing clip x y a b e' /\
                    painted (lands clip X Y) e e').
  { intros -> Hout. exists 1, e.
    split; [apply set_pixel_clipped; [exact Hclip|rewrite Hres; cbn; lia]|].
    split; [reflexivity|].
    split; [repeat split; try assumption; lia|].
    split; [reflexivity|]. split; [reflexivity|].
    intros px py Hpx Hpy. unfold lands.
    destruct (Z.eqb_spec X px); destruct (Z.eqb_spec Y py);
      cbn [andb flip]; try reflexivity; lia. }
  assert (Hdraw : (clip = true -> 0 <= X < 64 /\ 0 <= Y < 32) ->
                  exists r e',
                    set_pixel X Y e = Val r e' /\
                    regs e' = regs e /\
                    drawing clip x y a b e' /\
                    painted (lands clip X Y) e e').
  { intros Hin.
    destruct (set_pixel_toggles e X Y Hres Ld) as (old & Hold & Hrun).
    { rewrite Hclip. exact Hin. }
    eexists _, _. split; [exact Hrun|].
    split; [reflexivity|].
    split.
    { repeat split; cbn [resolution quirks disp regs with_disp];
        try assumption; try lia. now rewrite length_insert. }
    split; [reflexivity|]. split; [reflexivity|].
    intros px py Hpx Hpy. cbn [disp with_disp].
    assert (Hq : lands clip X Y px py = true <->
                 px + py * 64 = X mod 64 + Y mod 32 * 64).
    { unfold lands. destruct clip.
      - destruct (Hin eq_refl) as [HX' HY'].
        destruct (Z.eqb_spec X px); destruct (Z.eqb_spec Y py); cbn [andb];
          split; try discriminate; try reflexivity; intros; zmod.
      - destruct (Z.eqb_spec (X mod 64) px);
          destruct (Z.eqb_spec (Y mod 32) py); cbn [andb];
          split; try discriminate; try reflexivity; intros; zmod. }
    destruct (lands clip X Y px py) eqn:El.
    - rewrite (proj1 Hq eq_refl). cbn [flip].
      rewrite getitem_insert_eq by (rewrite Ld; zmod).
      now rewrite Hold.
    - cbn [flip]. apply getitem_insert_ne; [zmod|rewrite Ld; lia|].
      intros E. symmetry in E. apply Hq in E. discriminate. }
  destruct clip.
  - destruct (Z_lt_ge_dec X 64); [|apply Hskip; [reflexivity|lia]].
    destruct (Z_lt_ge_dec Y 32); [|apply Hskip; [reflexivity|lia]].
    apply Hdraw. intros _. lia.
  - apply Hdraw. discriminate.
Qed.

(** The test [(sprite & 0x80) > 0] reads bit 7. *)
Lemma bit7_test s : (Z.land s 0x80 >? 0) = Z.testbit s 7.
Proof.
  assert (H : Z.land s 0x80 = if Z.testbit s 7 then 0x80 else 0).
  { apply Z.bits_inj'. intros n Hn. rewrite Z.land_spec.
    change 0x80 with (2 ^ 7).
    destruct (Z.eq_dec n 7) as [->|Hne].
    - rewrite Z.pow2_bits_true by lia. rewrite andb_true_r.
      destruct (Z.testbit s 7); [now rewrite Z.pow2_bits_true by lia|].
      now rewrite Z.bits_0.
    - rewrite Z.pow2_bits_false by lia. rewrite andb_false_r.
      destruct (Z.testbit s 7); [now rewrite Z.pow2_bits_false by lia|].
      now rewrite Z.bits_0. }
  rewrite H. now destruct (Z.testbit s 7).
Qed.

(** Writing VF keeps the machine fit for the draw. *)
Lemma drawing_set_vf clip x y a b e v :
  drawing clip x y a b e ->
  drawing clip x y a b (with_regs (<[Z.to_nat 0xF := v]> (regs e)) e).
Proof.
  intros (Hres & Hclip & Ld & Lr & Hxy & Ha & Hb).
  repeat split; cbn [resolution quirks disp regs with_regs];
    try assumption; try lia.
  - now rewrite length_insert.
  - rewrite getitem_insert_ne by lia. exact Ha.
  - rewrite getitem_insert_ne by lia. exact Hb.
Qed.

(** One column of one row. *)
Lemma draw_col_run clip x y a b e row col s :
  drawing clip x y a b e ->
  0 <= col -> 0 <= row ->
  exists e',
    draw_col x y row col s e = Val (Z.land (Z.shiftl s 1) 0x00FF) e' /\
    drawing clip x y a b e' /\
    painted (fun px py =>
               Z.testbit s 7
               && lands clip (a mod 64 + col) (b mod 32 + row) px py) e e'.
Proof.
  intros D Hc Hr. unfold draw_col. rewrite bit7_test.
  destruct (Z.testbit s 7).
  - destruct D as (Hres & Hclip & Ld & Lr & Hxy & Ha & Hb).
    assert (D : drawing clip x y a b e) by (repeat split; try assumption; lia).
    rewrite bind_assoc, (bind_val _ _ _ _ _ (reg_get_val e x a Ha)).
    rewrite bind_assoc, (bind_val _ _ _ _ _ (reg_get_val e y b Hb)).
    destruct (set_pixel_run clip x y a b e (a mod 64 + col) (b mod 32 + row) D)
      as (r & e1 & Hrun & Hregs & D1 & P1); [zmod|zmod|].
    rewrite bind_assoc, (bind_val _ _ _ _ _ Hrun).
    destruct (Py.truthy r).
    + rewrite (bind_val _ _ _ _ _ (reg_set_val e1 0xF 1
                 ltac:(rewrite Hregs, Lr; lia))).
      eexists. split; [reflexivity|].
      split; [apply drawing_set_vf; exact D1|].
      exact P1.
    + rewrite bind_ret. eexists. split; [reflexivity|].
      split; [exact D1|exact P1].
  - rewrite bind_ret. exists e. split; [reflexivity|].
    split; [exact D|]. apply painted_refl.
Qed.

Lemma existsb_ext_in {A : Type} (f g : A -> bool) (l : list A) :
  (forall v, In v l -> f v = g v) -> existsb f l = existsb g l.
Proof.
  induction l as [|v l IH]; intros H; [reflexivity|].
  cbn [existsb]. rewrite (H v) by now left.
  rewrite IH; [reflexivity|]. intros u Hu. apply H. now right.
Qed.

Lemma in_range_seq (c : Z) (c0 k : nat) :
  In c (map Z.of_nat (seq c0 k)) -> Z.of_nat c0 <= c < Z.of_nat c0 + Z.of_nat k.
Proof.
  rewrite in_map_iff. intros (n & <- & Hn). apply in_seq in Hn. lia.
Qed.

(** A pixel receives at most one bit of a row, and bits of one row
    only. *)
Lemma lands_one_col clip ox Y Y' c1 c2 px py :
  0 <= c1 < 8 -> 0 <= c2 < 8 ->
  lands clip (ox + c1) Y px py = true ->
  lands clip (ox + c2) Y' px py = true -> c1 = c2.
Proof.
  unfold lands. intros H1 H2. destruct clip.
  - destruct (Z.eqb_spec (ox + c1) px); [|discriminate].
    destruct (Z.eqb_spec (ox + c2) px); [lia|discriminate].
  - destruct (Z.eqb_spec ((ox + c1) mod 64) px); [|discriminate].
    destruct (Z.eqb_spec ((ox + c2) mod 64) px); [|discriminate].
    intros _ _. zmod.
Qed.

Lemma lands_one_row clip X X' oy r1 r2 px py :
  0 <= r1 < 16 -> 0 <= r2 < 16 ->
  lands clip X (oy + r1) px py = true ->
  lands clip X' (oy + r2) px py = true -> r1 = r2.
Proof.
  unfold lands. intros H1 H2. destruct clip.
  - rewrite !andb_true_iff, !Z.eqb_eq. lia.
  - rewrite !andb_true_iff, !Z.eqb_eq. intros [_ E1] [_ E2]. zmod.
Qed.

(** The columns [c0 .. c0 + k) of one row, the local [sprite] being [s]
    when column [c0] is reached. *)
Lemma draw_cols_run clip x y a b row k : forall (c0 : nat) s e,
  drawing clip x y a b e ->
  0 <= row ->
  (c0 + k <= 8)%nat ->
  exists s' e',
    for_in_acc (map Z.of_nat (seq c0 k)) (draw_col x y row) s e = Val s' e' /\
    drawing clip x y a b e' /\
    painted (fun px py =>
               existsb (fun c =>
                          Z.testbit s (7 - (c - Z.of_nat c0))
                          && lands clip (a mod 64 + c) (b mod 32 + row) px py)
                 (map Z.of_nat (seq c0 k))) e e'.
Proof.
  induction k as [|k IH]; intros c0 s e D Hr Hk.
  - exists s, e. split; [reflexivity|]. split; [exact D|]. apply painted_refl.
  - cbn [seq map for_in_acc].
    destruct (draw_col_run clip x y a b e row (Z.of_nat c0) s D)
      as (e1 & R1 & D1 & P1); [lia|lia|].
    rewrite (bind_val _ _ _ _ _ R1).
    destruct (IH (S c0) (Z.land (Z.shiftl s 1) 0x00FF) e1 D1 Hr)
      as (s' & e2 & R2 & D2 & P2); [lia|].
    exists s', e2. split; [exact R2|]. split; [exact D2|].
    eapply painted_ext.
    + eapply painted_trans; [exact P1|exact P2|].
      intros px py Hpx Hpy H1 H2.
      apply andb_true_iff in H1 as [_ H1].
      apply existsb_exists in H2 as (c & Hc & H2).
      apply andb_true_iff in H2 as [_ H2].
      apply in_range_seq in Hc.
      pose proof (lands_one_col clip (a mod 64) _ _ (Z.of_nat c0) c px py
                    ltac:(lia) ltac:(lia) H1 H2). lia.
    + intros px py Hpx Hpy. cbn [existsb].
      rewrite Z.sub_diag, Z.sub_0_r. f_equal.
      apply existsb_ext_in. intros c Hc. apply in_range_seq in Hc.
      f_equal.
      change 0x00FF with (Z.ones 8).
      rewrite Z.land_spec, Z.ones_spec_low by lia. rewrite andb_true_r.
      rewrite Z.shiftl_spec by lia. f_equal. lia.
Qed.

(** One row of the sprite. *)
Lemma draw_row_run clip x y a b e row byte :
  drawing clip x y a b e ->
  0 <= row ->
  Py.getitem (mem e) (i_reg e + row) = Some byte ->
  exists e',
    draw_row x y 8 row e = Val tt e' /\
    drawing clip x y a b e' /\
    painted (fun px py =>
               row_covers clip (a mod 64) (b mod 32) (mem e) (i_reg e)
                 px py row) e e'.
Proof.
  intros D Hr Hbyte. unfold draw_row.
  rewrite bind_gets, (bind_val _ _ _ _ _ (mem_get_val e _ byte Hbyte)).
  destruct (draw_cols_run clip x y a b row 8 0 byte e D Hr)
    as (s' & e' & R & D' & P); [lia|].
  change (Py.range 8) with (map Z.of_nat (seq 0 8)).
  rewrite (bind_val _ _ _ _ _ R).
  exists e'. split; [reflexivity|]. split; [exact D'|].
  eapply painted_ext; [exact P|].
  intros px py Hpx Hpy. unfold row_covers. rewrite Hbyte.
  change (Py.range 8) with (map Z.of_nat (seq 0 8)).
  apply existsb_ext_in. intros c Hc. unfold sprite_bit.
  now rewrite Z.sub_0_r.
Qed.

Lemma row_covers_lands clip ox oy m i px py row :
  row_covers clip ox oy m i px py row = true ->
  exists col, 0 <= col < 8 /\
              lands clip (ox + col) (oy + row) px py = true.
Proof.
  unfold row_covers. destruct (Py.getitem m (i + row)); [|discriminate].
  change (Py.range 8) with (map Z.of_nat (seq 0 8)).
  intros H. apply existsb_exists in H as (c & Hc & H).
  apply in_range_seq in Hc. apply andb_true_iff in H as [_ H].
  exists c. split; [lia|exact H].
Qed.

(** The rows [r0 .. r0 + k) of the sprite. *)
Lemma draw_rows_run clip x y a b k : forall (r0 : nat) e,
  drawing clip x y a b e ->
  (r0 + k <= 16)%nat ->
  (forall r, Z.of_nat r0 <= r < Z.of_nat r0 + Z.of_nat k ->
     exists byte, Py.getitem (mem e) (i_reg e + r) = Some byte) ->
  exists e',
    for_in (map Z.of_nat (seq r0 k)) (draw_row x y 8) e = Val tt e' /\
    drawing clip x y a b e' /\
    painted (fun px py =>
               existsb (row_covers clip (a mod 64) (b mod 32) (mem e)
                          (i_reg e) px py)
                 (map Z.of_nat (seq r0 k))) e e'.
Proof.
  induction k as [|k IH]; intros r0 e D Hk Hbytes.
  - exists e. split; [reflexivity|]. split; [exact D|]. apply painted_refl.
  - cbn [seq map for_in].
    destruct (Hbytes (Z.of_nat r0) ltac:(lia)) as [byte Hbyte].
    destruct (draw_row_run clip x y a b e (Z.of_nat r0) byte D
                ltac:(lia) Hbyte) as (e1 & R1 & D1 & P1).
    rewrite (bind_val _ _ _ _ _ R1).
    pose proof P1 as (M1 & I1 & _).
    destruct (IH (S r0) e1 D1 ltac:(lia)) as (e2 & R2 & D2 & P2).
    { intros r Hr. rewrite M1, I1. apply Hbytes. lia. }
    rewrite M1, I1 in P2.
    exists e2. split; [exact R2|]. split; [exact D2|].
    eapply painted_trans; [exact P1|exact P2|].
    intros px py Hpx Hpy H1 H2.
    apply row_covers_lands in H1 as (c1 & Hc1 & H1).
    apply existsb_exists in H2 as (r & Hr & H2).
    apply in_range_seq in Hr.
    apply row_covers_lands in H2 as (c2 & Hc2 & H2).
    pose proof (lands_one_row clip _ _ (b mod 32) (Z.of_nat r0) r px py
                  ltac:(lia) ltac:(lia) H1 H2). lia.
Qed.

Lemma nibble_n_range w : 0 <= Z.land w 0x000F < 16.
Proof.
  change 0x000F with (Z.ones 4). rewrite Z.land_ones by lia.
  apply Z.mod_pos_bound. lia.
Qed.

(** The draw proper: VF is cleared, then the rows are drawn. *)
Lemma draw_run clip x y a b e w :
  drawing clip x y a b e ->
  length (mem e) = 4096%nat ->
  0 <= i_reg e -> i_reg e + Z.land w 0x000F <= 4096 ->
  exists e',
    draw x y w e = Val tt e' /\
    painted (covers clip (a mod 64) (b mod 32) (mem e) (i_reg e)
               (Z.land w 0x000F)) e e'.
Proof.
  intros D Lm Hi Hn. pose proof (nibble_n_range w) as Hrange.
  unfold draw.
  destruct D as (Hres & Hclip & Ld & Lr & Hxy & Ha & Hb).
  assert (D : drawing clip x y a b e) by (repeat split; try assumption; lia).
  rewrite (bind_val _ _ _ _ _ (reg_set_val e 0xF 0 ltac:(rewrite Lr; lia))).
  set (e0 := with_regs _ e).
  destruct (draw_rows_run clip x y a b (Z.to_nat (Z.land w 0x000F)) 0 e0)
    as (e' & R & _ & P).
  { apply drawing_set_vf. exact D. }
  { lia. }
  { intros r Hr. apply getitem_is_Some. cbn [mem i_reg e0 with_regs].
    rewrite Lm. lia. }
  exists e'. split; [exact R|]. exact P.
Qed.

Lemma update_timers_run e :
  exists e',
    update_timers e = Val tt e' /\
    quirks e' = quirks e /\ resolution e' = resolution e /\
    mem e' = mem e /\ regs e' = regs e /\ i_reg e' = i_reg e /\
    disp e' = disp e.
Proof.
  unfold update_timers. rewrite bind_gets.
  destruct (delay_timer e >? 0).
  - rewrite bind_modify, bind_gets. cbn [sound_timer with_delay_timer].
    destruct (sound_timer e >? 0); eexists; (split; [reflexivity|]);
      repeat split.
  - rewrite bind_ret, bind_gets.
    destruct (sound_timer e >? 0); eexists; (split; [reflexivity|]);
      repeat split.
Qed.

(** [case 0xD000] when the draw is not put off. *)
Lemma op_D_run clip x y a b e w :
  drawing clip x y a b e ->
  length (mem e) = 4096%nat ->
  0 <= i_reg e -> i_reg e + Z.land w 0x000F <= 4096 ->
  draws_now e = true ->
  exists e',
    op_D x y w e = Val FallThrough e' /\
    painted (covers clip (a mod 64) (b mod 32) (mem e) (i_reg e)
               (Z.land w 0x000F)) e e'.
Proof.
  intros D Lm Hi Hn Hnow. unfold op_D, draws_now in *.
  rewrite bind_gets.
  destruct (QUIRK_disp_wait (quirks e)) eqn:Ew.
  - rewrite bind_gets.
    destruct (QUIRK_disp_wait_faker (quirks e)) eqn:Ef.
    + destruct (update_timers_run e)
        as (e1 & R1 & Hq & Hr & Hm & Hg & Hir & Hd).
      rewrite (bind_val _ _ _ _ _ R1).
      destruct (draw_run clip x y a b e1 w) as (e' & R & P).
      { destruct D as (? & ? & ? & ? & ? & ? & ?).
        repeat split; try congruence; lia. }
      { congruence. } { congruence. } { congruence. }
      rewrite (bind_val _ _ _ _ _ R). exists e'. split; [reflexivity|].
      destruct P as (M & I & P). rewrite Hm, Hir, Hd in *.
      repeat split; assumption.
    + cbn [negb orb] in Hnow. rewrite bind_gets, Hnow, bind_modify.
      destruct (draw_run clip x y a b (with_interrupted false e) w D Lm Hi Hn)
        as (e' & R & P).
      rewrite (bind_val _ _ _ _ _ R). exists e'. split; [reflexivity|exact P].
  - destruct (draw_run clip x y a b e w D Lm Hi Hn) as (e' & R & P).
    rewrite (bind_val _ _ _ _ _ R). exists e'. split; [reflexivity|exact P].
Qed.


(** ** Drawing: clipping and the collision flag *)

Lemma flagged_trans f1 f2 e e1 e2 :
  flagged f1 e e1 -> flagged f2 e1 e2 -> flagged (f1 || f2) e e2.
Proof.
  unfold flagged. intros H1 H2. rewrite H2, H1.
  now destruct f1, f2.
Qed.

(** What [set_pixel] answers at a coordinate a draw can produce. *)
Lemma set_pixel_answer clip x y a b e X Y r e' :
  drawing clip x y a b e ->
  0 <= X -> 0 <= Y ->
  set_pixel X Y e = Val r e' ->
  Py.truthy r = clipped clip X Y || pixel_set (disp e) X Y.
Proof.
  intros (Hres & Hclip & Ld & Lr & Hxy & Ha & Hb) HX HY Hrun.
  unfold clipped.
  destruct (clip && ((X >=? 64) || (Y >=? 32))) eqn:Ec.
  - apply andb_true_iff in Ec as [-> Hout].
    rewrite set_pixel_clipped in Hrun.
    + now injection Hrun as <- _.
    + exact Hclip.
    + rewrite Hres. cbn [fst snd]. apply orb_true_iff in Hout.
      destruct (Z.geb_spec X 64); destruct (Z.geb_spec Y 32);
        destruct Hout; try discriminate; lia.
  - destruct (set_pixel_toggles e X Y Hres Ld) as (old & Hold & Hrun').
    { rewrite Hclip. intros ->. cbn [andb] in Ec.
      apply orb_false_iff in Ec as [E1 E2].
      destruct (Z.geb_spec X 64); [discriminate|].
      destruct (Z.geb_spec Y 32); [discriminate|]. lia. }
    rewrite Hrun' in Hrun. injection Hrun as <- _.
    unfold pixel_set. rewrite Hold. cbn [orb].
    unfold Py.truthy, Py.int_not. now destruct (old =? 0).
Qed.

(** VF after one column of one row. *)
Lemma draw_col_flag clip x y a b e row col s s' e' :
  drawing clip x y a b e ->
  0 <= col -> 0 <= row ->
  draw_col x y row col s e = Val s' e' ->
  flagged (Z.testbit s 7
           && (clipped clip (a mod 64 + col) (b mod 32 + row)
               || pixel_set (disp e) (a mod 64 + col) (b mod 32 + row)))
    e e'.
Proof.
  intros D Hc Hr. unfold draw_col, flagged. rewrite bit7_test.
  destruct (Z.testbit s 7); cbn [andb].
  - pose proof D as (Hres & Hclip & Ld & Lr & Hxy & Ha & Hb).
    rewrite bind_assoc, (bind_val _ _ _ _ _ (reg_get_val e x a Ha)).
    rewrite bind_assoc, (bind_val _ _ _ _ _ (reg_get_val e y b Hb)).
    destruct (set_pixel_run clip x y a b e (a mod 64 + col) (b mod 32 + row) D)
      as (r & e1 & Hrun & Hregs & D1 & P1); [zmod|zmod|].
    rewrite bind_assoc, (bind_val _ _ _ _ _ Hrun).
    rewrite <- (set_pixel_answer clip x y a b e (a mod 64 + col)
                  (b mod 32 + row) r e1 D ltac:(zmod) ltac:(zmod) Hrun).
    destruct (Py.truthy r).
    + rewrite (bind_val _ _ _ _ _ (reg_set_val e1 0xF 1
                 ltac:(rewrite Hregs, Lr; lia))).
      unfold ret. intros [= _ <-]. cbn [regs with_regs].
      apply getitem_insert_eq. rewrite Hregs, Lr. lia.
    + rewrite bind_ret. unfold ret. intros [= _ <-]. now rewrite Hregs.
  - rewrite bind_ret. unfold ret. now intros [= _ <-].
Qed.

(** A bit of another column, or of another row, lands elsewhere. *)
Lemma lands_other_col clip ox Y Y' c0 c :
  0 <= ox < 64 -> 0 <= c0 < 8 -> 0 <= c < 8 -> c <> c0 ->
  lands clip (ox + c0) Y ((ox + c) mod 64) Y' = false.
Proof.
  intros Hox Hc0 Hc Hne. unfold lands. destruct clip.
  - destruct (Z.eqb_spec (ox + c0) ((ox + c) mod 64)); [zmod|reflexivity].
  - destruct (Z.eqb_spec ((ox + c0) mod 64) ((ox + c) mod 64));
      [zmod|reflexivity].
Qed.

Lemma lands_other_row clip X X' oy r0 r :
  0 <= oy < 32 -> 0 <= r0 < 16 -> 0 <= r < 16 -> r <> r0 ->
  lands clip X (oy + r0) X' ((oy + r) mod 32) = false.
Proof.
  intros Hoy Hr0 Hr Hne. unfold lands. destruct clip.
  - destruct (Z.eqb_spec (oy + r0) ((oy + r) mod 32));
      [zmod|now rewrite andb_false_r].
  - destruct (Z.eqb_spec ((oy + r0) mod 32) ((oy + r) mod 32));
      [zmod|now rewrite andb_false_r].
Qed.

(** Painting leaves a pixel it does not select as it was. *)
Lemma pixel_set_painted h e e1 X Y :
  painted h e e1 ->
  h (X mod 64) (Y mod 32) = false ->
  pixel_set (disp e1) X Y = pixel_set (disp e) X Y.
Proof.
  intros (_ & _ & P) Hh. unfold pixel_set.
  rewrite P by zmod. now rewrite Hh.
Qed.

(** VF after the columns [c0 .. c0 + k) of one row. *)
Lemma draw_cols_flag clip x y a b row k : forall (c0 : nat) s e s' e',
  drawing clip x y a b e ->
  0 <= row ->
  (c0 + k <= 8)%nat ->
  for_in_acc (map Z.of_nat (seq c0 k)) (draw_col x y row) s e = Val s' e' ->
  flagged (existsb (fun c =>
                      Z.testbit s (7 - (c - Z.of_nat c0))
                      && (clipped clip (a mod 64 + c) (b mod 32 + row)
                          || pixel_set (disp e) (a mod 64 + c)
                               (b mod 32 + row)))
             (map Z.of_nat (seq c0 k))) e e'.
Proof.
  induction k as [|k IH]; intros c0 s e s' e' D Hr Hk Hrun.
  - cbn in Hrun. injection Hrun as _ <-. reflexivity.
  - cbn [seq map for_in_acc existsb] in *.
    destruct (draw_col_run clip x y a b e row (Z.of_nat c0) s D)
      as (e1 & R1 & D1 & P1); [lia|lia|].
    rewrite (bind_val _ _ _ _ _ R1) in Hrun.
    pose proof (draw_col_flag clip x y a b e row (Z.of_nat c0) s _ e1 D
                  ltac:(lia) Hr R1) as F1.
    pose proof (IH (S c0) _ e1 s' e' D1 Hr ltac:(lia) Hrun) as F2.
    pose proof (flagged_trans _ _ _ _ _ F1 F2) as F.
    rewrite Z.sub_diag, Z.sub_0_r.
    erewrite (existsb_ext_in _ _ (map Z.of_nat (seq (S c0) k))); [exact F|].
    intros c Hc. apply in_range_seq in Hc. cbv beta.
    f_equal.
    + change 0x00FF with (Z.ones 8).
      rewrite Z.land_spec, Z.ones_spec_low by lia. rewrite andb_true_r.
      rewrite Z.shiftl_spec by lia. f_equal. lia.
    + f_equal. symmetry. apply (pixel_set_painted _ _ _ _ _ P1).
      rewrite lands_other_col by (try zmod; lia).
      apply andb_false_r.
Qed.

(** VF after one row of the sprite. *)
Lemma draw_row_flag clip x y a b e row byte e' :
  drawing clip x y a b e ->
  0 <= row ->
  Py.getitem (mem e) (i_reg e + row) = Some byte ->
  draw_row x y 8 row e = Val tt e' ->
  flagged (row_flags clip (a mod 64) (b mod 32) (mem e) (i_reg e)
             (disp e) row) e e'.
Proof.
  intros D Hr Hbyte. unfold draw_row.
  rewrite bind_gets, (bind_val _ _ _ _ _ (mem_get_val e _ byte Hbyte)).
  change (Py.range 8) with (map Z.of_nat (seq 0 8)).
  unfold bind at 1.
  destruct (for_in_acc _ _ byte e) as [s1 e1|x1 e1] eqn:R; [|discriminate].
  unfold ret. intros [= <-].
  pose proof (draw_cols_flag clip x y a b row 8 0 byte e s1 e1 D Hr
                ltac:(lia) R) as F.
  unfold row_flags. rewrite Hbyte.
  change (Py.range 8) with (map Z.of_nat (seq 0 8)).
  erewrite existsb_ext_in; [exact F|].
  intros c Hc. unfold sprite_bit. cbv beta. now rewrite Z.sub_0_r.
Qed.

Lemma row_covers_other_row clip a b m i X r0 r :
  0 <= r0 < 16 -> 0 <= r < 16 -> r <> r0 ->
  row_covers clip (a mod 64) (b mod 32) m i (X mod 64)
    ((b mod 32 + r) mod 32) r0 = false.
Proof.
  intros Hr0 Hr Hne.
  destruct (row_covers _ _ _ _ _ _ _ r0) eqn:E; [|reflexivity].
  apply row_covers_lands in E as (c & Hc & E).
  rewrite lands_other_row in E by (try zmod; lia). discriminate.
Qed.

(** VF after the rows [r0 .. r0 + k) of the sprite. *)
Lemma draw_rows_flag clip x y a b k : forall (r0 : nat) e e',
  drawing clip x y a b e ->
  (r0 + k <= 16)%nat ->
  (forall r, Z.of_nat r0 <= r < Z.of_nat r0 + Z.of_nat k ->
     exists byte, Py.getitem (mem e) (i_reg e + r) = Some byte) ->
  for_in (map Z.of_nat (seq r0 k)) (draw_row x y 8) e = Val tt e' ->
  flagged (existsb (row_flags clip (a mod 64) (b mod 32) (mem e) (i_reg e)
                      (disp e))
             (map Z.of_nat (seq r0 k))) e e'.
Proof.
  induction k as [|k IH]; intros r0 e e' D Hk Hbytes Hrun.
  - cbn in Hrun. injection Hrun as <-. reflexivity.
  - cbn [seq map for_in existsb] in *.
    destruct (Hbytes (Z.of_nat r0) ltac:(lia)) as [byte Hbyte].
    destruct (draw_row_run clip x y a b e (Z.of_nat r0) byte D
                ltac:(lia) Hbyte) as (e1 & R1 & D1 & P1).
    rewrite (bind_val _ _ _ _ _ R1) in Hrun.
    pose proof (draw_row_flag clip x y a b e (Z.of_nat r0) byte e1 D
                  ltac:(lia) Hbyte R1) as F1.
    pose proof P1 as (M1 & I1 & _).
    assert (Hbytes1 : forall r,
              Z.of_nat (S r0) <= r < Z.of_nat (S r0) + Z.of_nat k ->
              exists byte, Py.getitem (mem e1) (i_reg e1 + r) = Some byte).
    { intros r Hr. rewrite M1, I1. apply Hbytes. lia. }
    pose proof (IH (S r0) e1 e' D1 ltac:(lia) Hbytes1 Hrun) as F2.
    rewrite M1, I1 in F2.
    pose proof (flagged_trans _ _ _ _ _ F1 F2) as F.
    erewrite (existsb_ext_in _ _ (map Z.of_nat (seq (S r0) k))); [exact F|].
    intros r Hr. apply in_range_seq in Hr. unfold row_flags.
    destruct (Py.getitem (mem e) (i_reg e + r)); [|reflexivity].
    apply existsb_ext_in. intros c Hc. f_equal. f_equal. symmetry.
    apply (pixel_set_painted _ _ _ _ _ P1).
    apply row_covers_other_row; lia.
Qed.

(** VF after the draw proper: it was cleared first. *)
Lemma draw_flag clip x y a b e w e' :
  drawing clip x y a b e ->
  length (mem e) = 4096%nat ->
  0 <= i_reg e -> i_reg e + Z.land w 0x000F <= 4096 ->
  draw x y w e = Val tt e' ->
  Py.getitem (regs e') 0xF
  = Some (if flags clip (a mod 64) (b mod 32) (mem e) (i_reg e)
               (Z.land w 0x000F) (disp e)
          then 1 else 0).
Proof.
  intros D Lm Hi Hn. pose proof (nibble_n_range w) as Hrange.
  unfold draw.
  pose proof D as (Hres & Hclip & Ld & Lr & Hxy & Ha & Hb).
  rewrite (bind_val _ _ _ _ _ (reg_set_val e 0xF 0 ltac:(rewrite Lr; lia))).
  set (e0 := with_regs _ e). intros Hrun.
  assert (D0 : drawing clip x y a b e0) by (apply drawing_set_vf; exact D).
  pose proof (draw_rows_flag clip x y a b (Z.to_nat (Z.land w 0x000F)) 0
                e0 e' D0 ltac:(lia)) as F.
  unfold flagged in F. unfold flags, Py.range.
  rewrite F; [|intros r Hr; apply getitem_is_Some;
                cbn [mem i_reg e0 with_regs]; rewrite Lm; lia|exact Hrun].
  cbn [mem i_reg disp regs e0 with_regs].
  rewrite getitem_insert_eq by (rewrite Lr; lia).
  now destruct (existsb _ _).
Qed.

(** VF after a draw instruction that draws in this step (x and y other
    than 0xF, default display): it is 1 exactly when some set bit of
    the sprite is clipped or falls on a pixel that was set. *)
Lemma collision_flag_after_draw rnd e w a b e' :
  resolution e = (64, 32) ->
  length (disp e) = 2048%nat ->
  length (regs e) = 16%nat ->
  length (mem e) = 4096%nat ->
  fetch e = Val w e ->
  Z.land w 0xF000 = 0xD000 ->
  draws_now e = true ->
  Z.shiftr (Z.land w 0x0F00) 8 <> 0xF ->
  Z.shiftr (Z.land w 0x00F0) 4 <> 0xF ->
  Py.getitem (regs e) (Z.shiftr (Z.land w 0x0F00) 8) = Some a ->
  Py.getitem (regs e) (Z.shiftr (Z.land w 0x00F0) 4) = Some b ->
  0 <= i_reg e -> i_reg e + Z.land w 0x000F <= 4096 ->
  tick rnd e = Val tt e' ->
  Py.getitem (regs e') 0xF
  = Some (if flags (QUIRK_clipping (quirks e)) (a mod 64) (b mod 32)
               (mem e) (i_reg e) (Z.land w 0x000F) (disp e)
          then 1 else 0).
Proof.
  intros Hres Ld Lr Lm Hf Hfam Hnow Hx Hy Ha Hb Hi Hn.
  pose proof (nibble_x_range w). pose proof (nibble_y_range w).
  set (x := Z.shiftr (Z.land w 0x0F00) 8) in *.
  set (y := Z.shiftr (Z.land w 0x00F0) 4) in *.
  rewrite (tick_decode _ _ _ Hf). fold x y. unfold dispatch. rewrite Hfam.
  cbv iota beta.
  set (e1 := with_pc (pc e + 2) e).
  assert (D : drawing (QUIRK_clipping (quirks e)) x y a b e1)
    by (repeat split; try assumption; try lia).
  assert (Hdraw : forall e0,
            drawing (QUIRK_clipping (quirks e)) x y a b e0 ->
            mem e0 = mem e -> i_reg e0 = i_reg e -> disp e0 = disp e ->
            forall e2, draw x y w e0 = Val tt e2 ->
            (draw x y w ;;; next) e0 = Val FallThrough e2 /\
            Py.getitem (regs e2) 0xF
            = Some (if flags (QUIRK_clipping (quirks e)) (a mod 64)
                         (b mod 32) (mem e) (i_reg e) (Z.land w 0x000F)
                         (disp e)
                    then 1 else 0)).
  { intros e0 D0 M0 I0 P0 e2 R. split; [now rewrite (bind_val _ _ _ _ _ R)|].
    rewrite <- M0, <- I0, <- P0.
    apply (draw_flag _ x y a b e0 w e2 D0); congruence. }
  unfold op_D, draws_now in *. rewrite bind_assoc, bind_gets.
  cbn [quirks interrupted e1 with_pc] in *.
  destruct (QUIRK_disp_wait (quirks e)) eqn:Ew.
  - rewrite bind_assoc, bind_gets. cbn [quirks e1 with_pc].
    destruct (QUIRK_disp_wait_faker (quirks e)) eqn:Ef.
    + destruct (update_timers_run e1)
        as (e2 & R2 & Hq & Hr & Hm & Hg & Hir & Hd).
      rewrite bind_assoc, (bind_val _ _ _ _ _ R2).
      assert (D2 : drawing (QUIRK_clipping (quirks e)) x y a b e2).
      { destruct D as (? & ? & ? & ? & ? & ? & ?).
        repeat split; try congruence; lia. }
      destruct (draw_run _ x y a b e2 w D2) as (e3 & R3 & _);
        [rewrite Hm; exact Lm|rewrite Hir; exact Hi|rewrite Hir; exact Hn|].
      destruct (Hdraw e2 D2 Hm Hir Hd e3 R3) as [Hrun HF].
      rewrite (bind_val _ _ _ _ _ Hrun).
      unfold modify. intros [= <-]. exact HF.
    + cbn [negb orb] in Hnow. rewrite bind_assoc, bind_gets.
      cbn [interrupted e1 with_pc]. rewrite Hnow.
      rewrite bind_assoc, bind_modify.
      set (e2 := with_interrupted false e1).
      destruct (draw_run _ x y a b e2 w D Lm Hi Hn) as (e3 & R3 & _).
      destruct (Hdraw e2 D eq_refl eq_refl eq_refl e3 R3) as [Hrun HF].
      rewrite (bind_val _ _ _ _ _ Hrun).
      unfold modify. intros [= <-]. exact HF.
  - destruct (draw_run _ x y a b e1 w D Lm Hi Hn) as (e3 & R3 & _).
    destruct (Hdraw e1 D eq_refl eq_refl eq_refl e3 R3) as [Hrun HF].
    rewrite (bind_val _ _ _ _ _ Hrun).
    unfold modify. intros [= <-]. exact HF.
Qed.

(** C1, evaluated where the code leaves the claim: on a blank display,
    D011 at (60, 0) with the row 0xFF sets the four pixels that fit
    and skips the four that do not; no pixel goes from set to clear,
    and VF is 1. *)
Theorem clipped_pixel_sets_vf :
  QUIRK_clipping (quirks demo_edge) = true /\
  fetch demo_edge = Val 0xD011 demo_edge /\
  disp demo_edge = repeat 0 2048 /\
  exists e',
    tick 0 demo_edge = Val tt e' /\
    disp e' = <[60%nat := 1]> (<[61%nat := 1]> (<[62%nat := 1]>
                (<[63%nat := 1]> (repeat 0 2048)))) /\
    Py.getitem (regs e') 0xF = Some 1.
Proof.
  split; [vm_compute; reflexivity|]. split; [vm_compute; reflexivity|].
  split; [vm_compute; reflexivity|].
  exists (final (tick 0 demo_edge)).
  split; [vm_compute; reflexivity|].
  split; vm_compute; reflexivity.
Qed.

(** ** Call and return at the ends of the stack *)

(** C2 (as the code has it): neither 2nnn nor 00EE raises on account of
    the stack.  With the 48-byte stack and the pointer within it, 2nnn
    returns normally with the pointer at (sp + 2) mod 48 and 00EE
    returns normally with the pointer at (sp - 2) mod 48, whether the
    stack is full, empty or in between. *)
Theorem call_and_return_wrap rnd e w :
  length (stack e) = 48%nat ->
  0 <= sp e < 48 ->
  fetch e = Val w e ->
  Z.land w 0xF000 = 0x2000 \/
  (Z.land w 0xF000 = 0x0000 /\ Z.land w 0x00FF = 0xEE) ->
  raised (tick rnd e) = None /\
  sp (final (tick rnd e))
  = if Z.land w 0xF000 =? 0x2000 then (sp e + 2) mod 48
    else (sp e - 2) mod 48.
Proof.
  intros L Hs Hf [Hc|[Hz Hr]].
  - rewrite Hc. cbn [Z.eqb Pos.eqb].
    rewrite (tick_decode _ _ _ Hf). unfold dispatch. rewrite Hc.
    cbv iota beta.
    erewrite bind_val; cycle 1.
    { apply op_2_run. exact L. }
    cbn [modify raised final sp pc with_pc with_stack with_sp
         with_kb_interrupt].
    split; [reflexivity|zmod].
  - rewrite Hz. cbn [Z.eqb].
    rewrite (tick_decode _ _ _ Hf). unfold dispatch. rewrite Hz.
    cbv iota beta.
    destruct (getitem_is_Some (stack e) (sp e)) as [hi Hhi];
      [rewrite L; lia|].
    destruct (getitem_is_Some (stack e) ((sp e - 1) mod 48)) as [lo Hlo];
      [rewrite L; zmod|].
    erewrite bind_val; cycle 1.
    { apply (op_0_return_run _ w hi lo); [exact L|exact Hr|exact Hhi|exact Hlo]. }
    cbn [modify raised final sp pc with_pc with_stack with_sp
         with_kb_interrupt].
    split; [reflexivity|zmod].
Qed.

(** The 25th nested call. *)
Lemma call_and_return_wrap_witness :
  raised (tick 0 demo_full) = None /\
  sp (final (tick 0 demo_full))
  = if Z.land 0x2264 0xF000 =? 0x2000 then (sp demo_full + 2) mod 48
    else (sp demo_full - 2) mod 48.
Proof.
  apply (call_and_return_wrap 0 demo_full 0x2264).
  - vm_compute. reflexivity.
  - assert (sp demo_full = 0) as -> by (vm_compute; reflexivity). lia.
  - vm_compute. reflexivity.
  - left. vm_compute. reflexivity.
Defined.

(** C2, the claim as stated fails at both ends.  A return with nothing
    on the stack returns normally, the pointer going from 0 to 46; a
    call with 24 return addresses on the stack returns normally, the
    pointer going from 0 to 2 and the oldest frame being written
    over. *)
Lemma stack_ends_wrap :
  (fetch demo_return = Val 0x00EE demo_return /\
   sp demo_return = 0 /\
   raised (tick 0 demo_return) = None /\
   sp (final (tick 0 demo_return)) = 46) /\
  (fetch demo_full = Val 0x2264 demo_full /\
   sp demo_full = 0 /\
   Py.getitem (stack demo_full) 1 = Some 0x02 /\
   raised (tick 0 demo_full) = None /\
   sp (final (tick 0 demo_full)) = 2 /\
   Py.getitem (stack (final (tick 0 demo_full))) 1 = Some 0x62).
Proof. repeat apply conj; vm_compute; reflexivity. Qed.

(** ** 8xy4: addition with carry *)

(** C3 (as the code has it): for 8-bit values a = Vx and b = Vy,
    executing 8xy4 leaves VF = 1 when a + b > 255 and VF = 0 otherwise,
    for every x; it leaves Vx = (a + b) mod 256 for every x other than
    0xF.  When x is 0xF the flag is written over the sum. *)
Theorem add_carry_flag_wins rnd e w a b :
  length (regs e) = 16%nat ->
  fetch e = Val w e ->
  Z.land w 0xF000 = 0x8000 ->
  Z.land w 0x000F = 0x4 ->
  Py.getitem (regs e) (Z.shiftr (Z.land w 0x0F00) 8) = Some a ->
  Py.getitem (regs e) (Z.shiftr (Z.land w 0x00F0) 4) = Some b ->
  0 <= a <= 255 -> 0 <= b <= 255 ->
  exists e',
    tick rnd e = Val tt e' /\
    Py.getitem (regs e') 0xF = Some (if a + b >? 255 then 1 else 0) /\
    (Z.shiftr (Z.land w 0x0F00) 8 <> 0xF ->
     Py.getitem (regs e') (Z.shiftr (Z.land w 0x0F00) 8)
     = Some ((a + b) mod 256)).
Proof.
  intros Hlen Hf Hfam Hlow Ha Hb Ra Rb.
  pose proof (nibble_x_range w) as Hx. pose proof (nibble_y_range w) as Hy.
  set (x := Z.shiftr (Z.land w 0x0F00) 8) in *.
  set (y := Z.shiftr (Z.land w 0x00F0) 4) in *.
  rewrite (tick_decode _ _ _ Hf). fold x y.
  unfold dispatch. rewrite Hfam. cbv iota beta.
  unfold op_8. rewrite Hlow. cbv iota beta.
  set (e1 := with_pc (pc e + 2) e).
  unfold reg_upd, bind.
  rewrite (reg_get_val e1 x a Ha), (reg_get_val e1 y b Hb).
  rewrite reg_set_val by (cbn [regs e1 with_pc]; lia).
  set (e2 := with_regs _ e1).
  assert (H2 : Py.getitem (regs e2) x = Some (a + b)).
  { apply getitem_insert_eq. cbn [regs e1 with_pc]. lia. }
  rewrite (reg_get_val e2 x _ H2).
  rewrite reg_set_val
    by (cbn [regs e2 e1 with_pc with_regs]; rewrite length_insert; lia).
  set (flag := if a + b >? 255 then 1 else 0).
  set (e3 := with_regs _ e2).
  assert (L3 : length (regs e3) = 16%nat).
  { cbn [regs e3 e2 e1 with_pc with_regs]. now rewrite !length_insert. }
  assert (L2 : length (regs e2) = 16%nat).
  { cbn [regs e2 e1 with_pc with_regs]. now rewrite !length_insert. }
  assert (HF3 : Py.getitem (regs e3) 0xF = Some flag).
  { apply (getitem_insert_eq (regs e2) 0xF). lia. }
  assert (Hflag : Z.land flag 0x00FF = flag)
    by (subst flag; now destruct (a + b >? 255)).
  destruct (Z.eq_dec x 0xF) as [E|N].
  - (* the destination is VF: the last mask applies to the flag *)
    rewrite E in *.
    rewrite (reg_get_val e3 _ _ HF3).
    rewrite reg_set_val by lia.
    cbn [next ret modify].
    eexists. split; [reflexivity|].
    cbn [regs with_kb_interrupt with_regs].
    split; [|congruence].
    rewrite Hflag. apply getitem_insert_eq. lia.
  - assert (H3 : Py.getitem (regs e3) x = Some (a + b)).
    { cbn [regs e3 with_regs]. rewrite getitem_insert_ne by lia. exact H2. }
    rewrite (reg_get_val e3 _ _ H3).
    rewrite reg_set_val by lia.
    cbn [next ret modify].
    eexists. split; [reflexivity|].
    cbn [regs with_kb_interrupt with_regs].
    split.
    + rewrite getitem_insert_ne by lia. exact HF3.
    + intros _. rewrite getitem_insert_eq by lia.
      change 0x00FF with (Z.ones 8). rewrite Z.land_ones by lia. reflexivity.
Qed.

(** 200 + 100 in V1: the sum wraps to 44 and VF is 1. *)
Lemma add_carry_flag_wins_witness :
  exists e',
    tick 0 demo_add = Val tt e' /\
    Py.getitem (regs e') 0xF = Some (if 200 + 100 >? 255 then 1 else 0) /\
    (Z.shiftr (Z.land 0x8124 0x0F00) 8 <> 0xF ->
     Py.getitem (regs e') (Z.shiftr (Z.land 0x8124 0x0F00) 8)
     = Some ((200 + 100) mod 256)).
Proof.
  apply (add_carry_flag_wins 0 demo_add 0x8124 200 100).
  - reflexivity.
  - vm_compute. reflexivity.
  - reflexivity.
  - reflexivity.
  - reflexivity.
  - reflexivity.
  - lia.
  - lia.
Defined.

(** C3, the claim as stated fails when the destination is VF: with
    VF = 1 and V0 = 1, 8F04 leaves VF = 0 (the carry), not
    (1 + 1) mod 256. *)
Lemma add_carry_vf_destination :
  fetch demo_add_vf = Val 0x8F04 demo_add_vf /\
  Py.getitem (regs demo_add_vf) 0xF = Some 1 /\
  Py.getitem (regs demo_add_vf) 0 = Some 1 /\
  exists e',
    tick 0 demo_add_vf = Val tt e' /\
    Py.getitem (regs e') 0xF = Some 0 /\
    Py.getitem (regs e') 0xF <> Some ((1 + 1) mod 256).
Proof.
  split; [vm_compute; reflexivity|].
  split; [reflexivity|]. split; [reflexivity|].
  exists (final (tick 0 demo_add_vf)).
  split; [vm_compute; reflexivity|].
  split; [vm_compute; reflexivity|].
  vm_compute. discriminate.
Qed.

(** ** The key latch *)

Lemma falls_next : falls_through next.
Proof. intros e how e'. unfold next, ret. congruence. Qed.

Lemma falls_bind {A : Type} (m : M A) (k : A -> M exit) :
  (forall a, falls_through (k a)) -> falls_through (bind m k).
Proof.
  intros H e how e'. unfold bind. destruct (m e) as [a e1|x e1]; [|discriminate].
  apply H.
Qed.

Ltac falls := repeat (apply falls_bind; intros); try apply falls_next.

Lemma op_0_falls w : falls_through (op_0 w).
Proof.
  unfold op_0. generalize (Z.land w 0x00FF). intros b.
  destruct b as [|p|p]; try (now falls).
  repeat (destruct p as [p|p|]; try (now falls)).
Qed.

Lemma op_2_falls w : falls_through (op_2 w).
Proof. unfold op_2. falls. Qed.

Lemma op_8_falls x y w : falls_through (op_8 x y w).
Proof.
  unfold op_8. generalize (Z.land w 0x000F). intros b.
  destruct b as [|p|p]; try (now falls).
  repeat (destruct p as [p|p|]; try (now falls)).
Qed.

Lemma op_E_falls x w : falls_through (op_E x w).
Proof.
  unfold op_E. generalize (Z.land w 0x00FF). intros b.
  destruct b as [|p|p]; try (now falls).
  repeat (destruct p as [p|p|]; try (now falls)).
Qed.

(** [case 0xF000] returns early only from Fx0A, and only when no key
    is latched. *)
Lemma op_F_returns x w e e' :
  op_F x w e = Val Return e' -> kb_interrupt e' = None.
Proof.
  unfold op_F. generalize (Z.land w 0x00FF). intros b.
  assert (Hfalls : forall m : M exit, falls_through m ->
            m e = Val Return e' -> kb_interrupt e' = None).
  { intros m Hm Hr. apply Hm in Hr. discriminate. }
  assert (Hwait :
    (k <- gets kb_interrupt ;;
     match k with
     | Some key => reg_set x key ;;; modify (with_kb_interrupt None) ;;; next
     | None => pc_add (-2) ;;; ret Return
     end) e = Val Return e' -> kb_interrupt e' = None).
  { rewrite bind_gets. destruct (kb_interrupt e) as [key|] eqn:Ek.
    - apply Hfalls. falls.
    - unfold pc_add. rewrite bind_assoc, bind_gets, bind_modify.
      unfold ret. intros [= <-]. exact Ek. }
  destruct b as [|p|p]; try (apply Hfalls; now falls).
  repeat (destruct p as [p|p|];
          try (apply Hfalls; now falls); try exact Hwait).
Qed.

(** [case 0xD000] returns early only when the draw waits for the
    display, and then only PC has moved. *)
Lemma op_D_returns x y w e e' :
  op_D x y w e = Val Return e' ->
  draws_now e = false /\ kb_interrupt e' = kb_interrupt e.
Proof.
  unfold op_D, draws_now. rewrite bind_gets.
  assert (Hfalls : forall m : M exit, falls_through m ->
            m e = Val Return e' ->
            negb (QUIRK_disp_wait (quirks e))
            || QUIRK_disp_wait_faker (quirks e) || interrupted e = false /\
            kb_interrupt e' = kb_interrupt e).
  { intros m Hm Hr. apply Hm in Hr. discriminate. }
  destruct (QUIRK_disp_wait (quirks e)).
  - rewrite bind_gets. destruct (QUIRK_disp_wait_faker (quirks e)).
    + apply Hfalls. falls.
    + rewrite bind_gets. destruct (interrupted e).
      * apply Hfalls. falls.
      * unfold pc_add. rewrite bind_assoc, bind_gets, bind_modify.
        unfold ret. intros [= <-]. split; reflexivity.
  - apply Hfalls. falls.
Qed.

(** The dispatcher returns early only from a waiting draw or from a
    key wait with no key latched. *)
Lemma dispatch_returns rnd x y w e e' :
  dispatch rnd x y w e = Val Return e' ->
  kb_interrupt e' = None \/
  (Z.land w 0xF000 = 0xD000 /\ draws_now e = false /\
   kb_interrupt e' = kb_interrupt e).
Proof.
  unfold dispatch.
  pose proof (op_0_falls w) as H0. pose proof (op_2_falls w) as H2.
  pose proof (op_8_falls x y w) as H8. pose proof (op_E_falls x w) as HE.
  pose proof (op_F_returns x w e e') as HF.
  pose proof (op_D_returns x y w e e') as HD.
  revert H0 H2 H8 HE HF HD.
  generalize (op_0 w) (op_2 w) (op_8 x y w) (op_E x w) (op_F x w)
    (op_D x y w).
  intros m0 m2 m8 mE mF mD H0 H2 H8 HE HF HD.
  assert (Hfalls : forall m : M exit, falls_through m ->
            forall f : Z, m e = Val Return e' ->
            kb_interrupt e' = None \/
            (f = 0xD000 /\ draws_now e = false /\
             kb_interrupt e' = kb_interrupt e)).
  { intros m Hm f Hr. apply Hm in Hr. discriminate. }
  generalize (Z.land w 0xF000). intros f.
  destruct f as [|p|p]; try (apply Hfalls; now falls).
  repeat (destruct p as [p|p|]; try (apply Hfalls; now falls)).
  - intros Hr. left. auto.
  - intros Hr. right. split; [reflexivity|]. auto.
Qed.

(** Every step that returns normally leaves the latch cleared, except
    the step of a draw that waits for the display: that one leaves the
    latch as it found it. *)
Lemma latch_cleared_unless_display_wait rnd e e' :
  tick rnd e = Val tt e' ->
  kb_interrupt e' = None \/
  ((exists w, fetch e = Val w e /\ Z.land w 0xF000 = 0xD000) /\
   draws_now e = false /\ kb_interrupt e' = kb_interrupt e).
Proof.
  unfold tick. intros H.
  destruct (fetch e) as [w e0|x0 e0] eqn:Hf;
    [|rewrite (bind_exc _ _ _ _ _ Hf) in H; discriminate].
  pose proof (fetch_pure _ _ _ Hf) as ->.
  rewrite (bind_val _ _ _ _ _ Hf) in H.
  unfold pc_add in H. rewrite bind_assoc, bind_gets, bind_modify in H.
  unfold bind in H.
  destruct (dispatch rnd _ _ w (with_pc (pc e + 2) e)) as [how e2|x2 e2] eqn:Hd;
    [|discriminate].
  destruct how.
  - left. unfold modify in H. injection H as <-. reflexivity.
  - unfold ret in H. injection H as <-.
    destruct (dispatch_returns _ _ _ _ _ _ Hd) as [Hn|(Hw & Hnow & Hk)].
    + left. exact Hn.
    + right. split; [eauto|]. split; [exact Hnow|exact Hk].
Qed.

(** C4, evaluated where the code leaves the claim: a draw instruction
    that waits for the display returns before the latch is cleared.
    With key 5 latched and D001 waiting, a step gives the same machine
    back, so the latch is still set after any number of steps. *)
Theorem latch_survives_display_wait :
  kb_interrupt demo_latch = Some 5 /\
  fetch demo_latch = Val 0xD001 demo_latch /\
  forall n : nat, ticks n 0 demo_latch = Val tt demo_latch.
Proof.
  split; [vm_compute; reflexivity|]. split; [vm_compute; reflexivity|].
  assert (H1 : tick 0 demo_latch = Val tt demo_latch)
    by (vm_compute; reflexivity).
  induction n as [|n IH]; [reflexivity|].
  cbn [ticks]. rewrite (bind_val _ _ _ _ _ H1). exact IH.
Qed.

(** ** Addresses past the end of memory *)

Lemma fetch_past_memory e :
  length (mem e) = 4096%nat ->
  4095 <= pc e ->
  fetch e = Exc IndexError e.
Proof.
  intros L Hp. unfold fetch. rewrite bind_gets.
  destruct (Z.eq_dec (pc e) 4095) as [E|N].
  - destruct (getitem_is_Some (mem e) (pc e)) as [hi Hhi]; [rewrite L; lia|].
    rewrite (bind_val _ _ _ _ _ (mem_get_val e _ hi Hhi)), bind_gets.
    now rewrite (bind_exc _ _ _ _ _ (mem_get_out e (pc e + 1)
                                      ltac:(rewrite L; lia))).
  - now rewrite (bind_exc _ _ _ _ _ (mem_get_out e (pc e)
                                      ltac:(rewrite L; lia))).
Qed.

(** The loop of Fx55 when register [i0 + k - 1] would go past the end
    of memory. *)
Lemma store_regs_past_memory k : forall (i0 : nat) e,
  length (mem e) = 4096%nat ->
  length (regs e) = 16%nat ->
  (i0 + k <= 16)%nat ->
  0 <= i_reg e ->
  i_reg e + Z.of_nat i0 <= 4096 < i_reg e + Z.of_nat i0 + Z.of_nat k ->
  exists e',
    for_in (map Z.of_nat (seq i0 k))
      (fun i => v <- reg_get i ;; a <- gets i_reg ;; mem_set (a + i) v) e
    = Exc IndexError e'.
Proof.
  induction k as [|k IH]; intros i0 e Lm Lr Hk Hi Hover; [lia|].
  cbn [seq map for_in].
  destruct (getitem_is_Some (regs e) (Z.of_nat i0)) as [v Hv];
    [rewrite Lr; lia|].
  rewrite bind_assoc, (bind_val _ _ _ _ _ (reg_get_val e _ v Hv)).
  rewrite bind_assoc, bind_gets.
  destruct (Z.eq_dec (i_reg e + Z.of_nat i0) 4096) as [E|N].
  - rewrite (bind_exc _ _ _ _ _ (mem_set_out e (i_reg e + Z.of_nat i0) v ltac:(rewrite Lm; lia))).
    eauto.
  - rewrite (bind_val _ _ _ _ _ (mem_set_val e (i_reg e + Z.of_nat i0) v ltac:(rewrite Lm; lia))).
    apply IH; cbn [mem regs i_reg with_mem];
      rewrite ?length_insert; try assumption; lia.
Qed.

(** The loop of Fx65 when register [i0 + k - 1] would come from past
    the end of memory. *)
Lemma load_regs_past_memory k : forall (i0 : nat) e,
  length (mem e) = 4096%nat ->
  length (regs e) = 16%nat ->
  (i0 + k <= 16)%nat ->
  0 <= i_reg e ->
  i_reg e + Z.of_nat i0 <= 4096 < i_reg e + Z.of_nat i0 + Z.of_nat k ->
  exists e',
    for_in (map Z.of_nat (seq i0 k))
      (fun i => a <- gets i_reg ;; v <- mem_get (a + i) ;; reg_set i v) e
    = Exc IndexError e'.
Proof.
  induction k as [|k IH]; intros i0 e Lm Lr Hk Hi Hover; [lia|].
  cbn [seq map for_in].
  rewrite bind_assoc, bind_gets.
  destruct (Z.eq_dec (i_reg e + Z.of_nat i0) 4096) as [E|N].
  - rewrite bind_assoc.
    rewrite (bind_exc _ _ _ _ _ (mem_get_out e (i_reg e + Z.of_nat i0) ltac:(rewrite Lm; lia))).
    eauto.
  - destruct (getitem_is_Some (mem e) (i_reg e + Z.of_nat i0)) as [v Hv];
      [rewrite Lm; lia|].
    rewrite bind_assoc, (bind_val _ _ _ _ _ (mem_get_val e _ v Hv)).
    rewrite (bind_val _ _ _ _ _ (reg_set_val e (Z.of_nat i0) v ltac:(rewrite Lr; lia))).
    apply IH; cbn [mem regs i_reg with_regs];
      rewrite ?length_insert; try assumption; lia.
Qed.

(** Fx33 when one of its three cells lies past the end of memory. *)
Lemma bcd_past_memory x w e :
  length (mem e) = 4096%nat ->
  length (regs e) = 16%nat ->
  0 <= x < 16 ->
  Z.land w 0x00FF = 0x33 ->
  4094 <= i_reg e ->
  exists e', op_F x w e = Exc IndexError e'.
Proof.
  intros Lm Lr Hx Hw Hi. unfold op_F. rewrite Hw. cbv iota beta.
  destruct (getitem_is_Some (regs e) x) as [v Hv]; [rewrite Lr; lia|].
  rewrite (bind_val _ _ _ _ _ (reg_get_val e x v Hv)), bind_gets.
  destruct (Z_lt_ge_dec (i_reg e) 4096) as [H0|H0]; cycle 1.
  { rewrite (bind_exc _ _ _ _ _
               (mem_set_out e (i_reg e + 0) (v / 100) ltac:(rewrite Lm; lia))).
    eauto. }
  rewrite (bind_val _ _ _ _ _
             (mem_set_val e (i_reg e + 0) (v / 100) ltac:(rewrite Lm; lia))).
  set (e1 := with_mem _ e).
  rewrite (bind_val _ _ _ _ _ (reg_get_val e1 x v Hv)), bind_gets.
  cbn [i_reg e1 with_mem].
  assert (L1 : length (mem e1) = 4096%nat)
    by (cbn [mem e1 with_mem]; now rewrite length_insert).
  destruct (Z_lt_ge_dec (i_reg e + 1) 4096) as [H1|H1]; cycle 1.
  { rewrite (bind_exc _ _ _ _ _
               (mem_set_out e1 (i_reg e + 1) (v mod 100 / 10)
                  ltac:(rewrite L1; lia))).
    eauto. }
  rewrite (bind_val _ _ _ _ _
             (mem_set_val e1 (i_reg e + 1) (v mod 100 / 10)
                ltac:(rewrite L1; lia))).
  set (e2 := with_mem _ e1).
  rewrite (bind_val _ _ _ _ _ (reg_get_val e2 x v Hv)), bind_gets.
  cbn [i_reg e2 e1 with_mem].
  assert (L2 : length (mem e2) = 4096%nat)
    by (cbn [mem e2 with_mem]; now rewrite length_insert).
  rewrite (bind_exc _ _ _ _ _
             (mem_set_out e2 (i_reg e + 2) (v mod 10) ltac:(rewrite L2; lia))).
  eauto.
Qed.

(** Fx55 and Fx65 when the last of their cells lies past the end of
    memory. *)
Lemma block_past_memory x w e :
  length (mem e) = 4096%nat ->
  length (regs e) = 16%nat ->
  0 <= x < 16 ->
  Z.land w 0x00FF = 0x55 \/ Z.land w 0x00FF = 0x65 ->
  0 <= i_reg e <= 4096 ->
  4096 <= i_reg e + x ->
  exists e', op_F x w e = Exc IndexError e'.
Proof.
  intros Lm Lr Hx Hw Hi Hover. unfold op_F.
  assert (Hr : Py.range (x + 1) = map Z.of_nat (seq 0 (Z.to_nat (x + 1))))
    by reflexivity.
  destruct Hw as [Hw|Hw]; rewrite Hw; cbv iota beta.
  - unfold store_regs. rewrite Hr.
    destruct (store_regs_past_memory (Z.to_nat (x + 1)) 0 e Lm Lr)
      as [e' R]; [lia|lia|lia|].
    rewrite (bind_exc _ _ _ _ _ R). eauto.
  - unfold load_regs. rewrite Hr.
    destruct (load_regs_past_memory (Z.to_nat (x + 1)) 0 e Lm Lr)
      as [e' R]; [lia|lia|lia|].
    rewrite (bind_exc _ _ _ _ _ R). eauto.
Qed.

(** *** Rows of a sprite: only an index can fail *)

Lemma wpi_bind {A B : Type} (m : M A) (k : A -> M B) Q e :
  wpi m (fun a e' => wpi (k a) Q e') e -> wpi (bind m k) Q e.
Proof. unfold wpi, bind. now destruct (m e). Qed.

Lemma wpi_ret {A : Type} (a : A) (Q : A -> Emulator -> Prop) e :
  Q a e -> wpi (ret a) Q e.
Proof. exact (fun H => H). Qed.

Lemma wpi_gets {A : Type} (f : Emulator -> A) (Q : A -> Emulator -> Prop) e :
  Q (f e) e -> wpi (gets f) Q e.
Proof. exact (fun H => H). Qed.

Lemma wpi_modify (g : Emulator -> Emulator) (Q : unit -> Emulator -> Prop) e :
  Q tt (g e) -> wpi (modify g) Q e.
Proof. exact (fun H => H). Qed.

Lemma wpi_lift_index {A : Type} (o : option A) (Q : A -> Emulator -> Prop) e :
  (forall a, o = Some a -> Q a e) -> wpi (lift_index o) Q e.
Proof. intros H. unfold wpi, lift_index. destruct o; [now apply H|reflexivity]. Qed.

Lemma wpi_py_mod a b (Q : Z -> Emulator -> Prop) e :
  b <> 0 -> Q (a mod b) e -> wpi (py_mod a b) Q e.
Proof.
  intros Hb H. unfold wpi, py_mod. destruct (Z.eqb_spec b 0); [contradiction|].
  exact H.
Qed.

Lemma wpi_for_in_acc {A : Type} (P : Emulator -> Prop) (l : list Z)
    (body : Z -> A -> M A) :
  (forall i a e, P e -> wpi (body i a) (fun _ e' => P e') e) ->
  forall a e, P e -> wpi (for_in_acc l body a) (fun _ e' => P e') e.
Proof.
  intros H. induction l as [|i l IH]; intros a e HP; cbn [for_in_acc].
  - exact HP.
  - apply wpi_bind. specialize (H i a e HP). unfold wpi in *.
    destruct (body i a e) as [a' e'|x e']; [now apply IH|exact H].
Qed.

Lemma wpi_weaken {A : Type} (m : M A) (P Q : A -> Emulator -> Prop) e :
  wpi m P e -> (forall a e', P a e' -> Q a e') -> wpi m Q e.
Proof. unfold wpi. destruct (m e); auto. Qed.

Ltac wpi_step :=
  match goal with
  | |- wpi (bind _ _) _ _ => apply wpi_bind
  | |- wpi (ret _) _ _ => apply wpi_ret
  | |- wpi (gets _) _ _ => apply wpi_gets
  | |- wpi (modify _) _ _ => apply wpi_modify
  | |- wpi (lift_index _) _ _ => apply wpi_lift_index; intros ? _
  | |- wpi (py_mod _ _) _ _ => apply wpi_py_mod; [tauto|]
  | |- wpi (if ?b then _ else _) _ _ => destruct b
  end; cbv beta.

(** A row of a sprite on a display with a size: it returns with the
    size as it was, or it raises IndexError. *)
Lemma draw_row_index_only x y row e :
  sized e -> wpi (draw_row x y 8 row) (fun _ e' => sized e') e.
Proof.
  intros S. unfold draw_row, mem_get. repeat wpi_step.
  eapply wpi_weaken;
    [apply (wpi_for_in_acc sized); [|exact S]|intros ? ? H; exact H].
  clear. intros col s e S.
  unfold draw_col, set_pixel, reg_get, reg_set, disp_get, disp_set.
  unfold sized in *.
  repeat wpi_step; exact S.
Qed.

(** The rows of a sprite when row [r0 + k - 1] lies past the end of
    memory, whatever the registers x and y. *)
Lemma rows_past_memory x y k : forall (r0 : nat) e,
  sized e ->
  length (mem e) = 4096%nat ->
  0 <= i_reg e ->
  i_reg e + Z.of_nat r0 <= 4096 < i_reg e + Z.of_nat r0 + Z.of_nat k ->
  raised (for_in (map Z.of_nat (seq r0 k)) (draw_row x y 8) e)
  = Some IndexError.
Proof.
  induction k as [|k IH]; intros r0 e S Lm Hi Hover; [lia|].
  cbn [seq map for_in].
  destruct (Z.eq_dec (i_reg e + Z.of_nat r0) 4096) as [E|N].
  - assert (R : draw_row x y 8 (Z.of_nat r0) e = Exc IndexError e).
    { unfold draw_row. rewrite bind_gets.
      now rewrite (bind_exc _ _ _ _ _
                     (mem_get_out e (i_reg e + Z.of_nat r0)
                        ltac:(rewrite Lm; lia))). }
    now rewrite (bind_exc _ _ _ _ _ R).
  - pose proof (draw_row_index_only x y (Z.of_nat r0) e S) as W.
    assert (Km : keeps mem (draw_row x y 8 (Z.of_nat r0))) by frame.
    assert (Ki : keeps i_reg (draw_row x y 8 (Z.of_nat r0))) by frame.
    specialize (Km e). specialize (Ki e). unfold wpi in W.
    destruct (draw_row x y 8 (Z.of_nat r0) e) as [[] e1|ex e1] eqn:R.
    + rewrite (bind_val _ _ _ _ _ R). cbn [final] in Km, Ki.
      apply IH; rewrite ?Km, ?Ki; try assumption; lia.
    + rewrite (bind_exc _ _ _ _ _ R). cbn [raised]. now rewrite W.
Qed.

Lemma reg_set_outcome i v e :
  (exists r, reg_set i v e = Val tt (with_regs r e)) \/
  reg_set i v e = Exc IndexError e.
Proof.
  unfold reg_set, bind, gets, lift_index, modify, ret, raise.
  destruct (Py.setitem (regs e) i v) as [r|]; eauto.
Qed.

(** The draw proper when the last row lies past the end of memory. *)
Lemma draw_past_memory x y w e :
  sized e ->
  length (mem e) = 4096%nat ->
  0 <= i_reg e <= 4096 ->
  4096 < i_reg e + Z.land w 0x000F ->
  raised (draw x y w e) = Some IndexError.
Proof.
  intros S Lm Hi Hover. pose proof (nibble_n_range w) as Hn.
  unfold draw.
  destruct (reg_set_outcome 0xF 0 e) as [[r R]|R].
  - rewrite (bind_val _ _ _ _ _ R).
    apply (rows_past_memory x y _ 0); cbn [mem i_reg resolution with_regs];
      try assumption; lia.
  - now rewrite (bind_exc _ _ _ _ _ R).
Qed.

Lemma raised_bind {A B : Type} (m : M A) (k : A -> M B) e x :
  raised (m e) = Some x -> raised (bind m k e) = Some x.
Proof. unfold bind. destruct (m e); [discriminate|exact (fun H => H)]. Qed.

(** Dxyn, when it draws, with the last row past the end of memory. *)
Lemma sprite_past_memory_any x y w e :
  sized e ->
  length (mem e) = 4096%nat ->
  draws_now e = true ->
  0 <= i_reg e <= 4096 ->
  4096 < i_reg e + Z.land w 0x000F ->
  raised (op_D x y w e) = Some IndexError.
Proof.
  intros S Lm Hnow Hi Hover.
  assert (Hdraw : forall e0,
            resolution e0 = resolution e -> mem e0 = mem e ->
            i_reg e0 = i_reg e ->
            raised ((draw x y w ;;; next) e0) = Some IndexError).
  { intros e0 R0 M0 I0. apply raised_bind.
    apply draw_past_memory; unfold sized; rewrite ?R0, ?M0, ?I0;
      assumption. }
  unfold op_D, draws_now in *. rewrite bind_gets.
  destruct (QUIRK_disp_wait (quirks e)) eqn:Ew.
  - rewrite bind_gets.
    destruct (QUIRK_disp_wait_faker (quirks e)) eqn:Ef.
    + destruct (update_timers_run e)
        as (e1 & R1 & Hq & Hr & Hm & Hg & Hir & Hd).
      rewrite (bind_val _ _ _ _ _ R1).
      apply Hdraw; congruence.
    + cbn [negb orb] in Hnow. rewrite bind_gets, Hnow, bind_modify.
      apply Hdraw; reflexivity.
  - apply Hdraw; reflexivity.
Qed.

(** Dxyn, when it waits for the display, touches nothing. *)
Lemma sprite_not_read_while_waiting rnd e w :
  fetch e = Val w e ->
  Z.land w 0xF000 = 0xD000 ->
  draws_now e = false ->
  tick rnd e = Val tt e.
Proof.
  intros Hf Hfam Hnow. unfold draws_now in Hnow.
  destruct (QUIRK_disp_wait (quirks e)) eqn:Ew; [|discriminate Hnow].
  destruct (QUIRK_disp_wait_faker (quirks e)) eqn:Ef; [discriminate Hnow|].
  destruct (interrupted e) eqn:Ei; [discriminate Hnow|].
  rewrite (tick_decode _ _ _ Hf). unfold dispatch. rewrite Hfam.
  cbv iota beta.
  unfold op_D.
  rewrite bind_assoc, bind_gets. cbn [quirks with_pc]. rewrite Ew.
  rewrite bind_assoc, bind_gets. cbn [quirks with_pc]. rewrite Ef.
  rewrite bind_assoc, bind_gets. cbn [interrupted with_pc]. rewrite Ei.
  cbv [pc_add bind gets modify ret]. cbn [pc with_pc].
  f_equal. apply with_pc_back.
Qed.

(** C5 (as the code has it): no address is reduced modulo 4096 before
    memory is accessed.  A read or a write at an address of 4096 or
    more raises IndexError, and so the step fails with IndexError when
    the instruction word does not lie within memory (PC >= 4095), when
    Fx33 has I + 2 past the last cell, when Fx55 or Fx65, with I in
    0..4096, has I + x past the last cell, and when a Dxyn that draws
    in this step, on a display whose width and height are not zero and
    with I in 0..4096, has a sprite row past the last cell (I + n >
    4096), whatever its x and y.  A Dxyn that waits for the display
    reads no sprite: it returns the machine as it was.  Nothing is
    accessed past the end of memory, and nothing wraps to its
    start. *)
Theorem address_past_memory_raises rnd e w :
  length (mem e) = 4096%nat ->
  length (regs e) = 16%nat ->
  (forall a, 4096 <= a ->
     mem_get a e = Exc IndexError e /\
     forall v, mem_set a v e = Exc IndexError e) /\
  (4095 <= pc e -> raised (tick rnd e) = Some IndexError) /\
  (fetch e = Val w e -> Z.land w 0xF000 = 0xF000 ->
   Z.land w 0x00FF = 0x33 -> 4094 <= i_reg e ->
   raised (tick rnd e) = Some IndexError) /\
  (fetch e = Val w e -> Z.land w 0xF000 = 0xF000 ->
   Z.land w 0x00FF = 0x55 \/ Z.land w 0x00FF = 0x65 ->
   0 <= i_reg e <= 4096 ->
   4096 <= i_reg e + Z.shiftr (Z.land w 0x0F00) 8 ->
   raised (tick rnd e) = Some IndexError) /\
  (fetch e = Val w e -> Z.land w 0xF000 = 0xD000 ->
   draws_now e = true ->
   sized e ->
   0 <= i_reg e <= 4096 ->
   4096 < i_reg e + Z.land w 0x000F ->
   raised (tick rnd e) = Some IndexError) /\
  (fetch e = Val w e -> Z.land w 0xF000 = 0xD000 ->
   draws_now e = false ->
   tick rnd e = Val tt e).
Proof.
  intros Lm Lr.
  assert (Hprim : forall a, 4096 <= a ->
            mem_get a e = Exc IndexError e /\
            forall v, mem_set a v e = Exc IndexError e).
  { intros a Ha. split; [|intros v]; [apply mem_get_out|apply mem_set_out];
      rewrite Lm; lia. }
  pose proof (nibble_x_range w) as Hx. pose proof (nibble_y_range w) as Hy.
  split; [exact Hprim|]. repeat apply conj.
  - intros Hp. unfold tick.
    now rewrite (bind_exc _ _ _ _ _ (fetch_past_memory e Lm Hp)).
  - intros Hf Hfam Hlow Hi.
    rewrite (tick_decode _ _ _ Hf). unfold dispatch. rewrite Hfam.
    cbv iota beta.
    destruct (bcd_past_memory (Z.shiftr (Z.land w 0x0F00) 8) w
                (with_pc (pc e + 2) e) Lm Lr Hx Hlow Hi) as [e' R].
    now rewrite (bind_exc _ _ _ _ _ R).
  - intros Hf Hfam Hlow Hi Hover.
    rewrite (tick_decode _ _ _ Hf). unfold dispatch. rewrite Hfam.
    cbv iota beta.
    destruct (block_past_memory (Z.shiftr (Z.land w 0x0F00) 8) w
                (with_pc (pc e + 2) e) Lm Lr Hx Hlow Hi Hover) as [e' R].
    now rewrite (bind_exc _ _ _ _ _ R).
  - intros Hf Hfam Hnow Hsz Hi Hover.
    rewrite (tick_decode _ _ _ Hf). unfold dispatch. rewrite Hfam.
    cbv iota beta. apply raised_bind.
    now apply sprite_past_memory_any.
  - intros Hf Hfam Hnow. now apply (sprite_not_read_while_waiting rnd e w).
Qed.

(** F033 with I = 0xFFF. *)
Lemma address_past_memory_raises_witness :
  (length (mem demo_bcd_edge) = 4096%nat /\
   length (regs demo_bcd_edge) = 16%nat /\
   fetch demo_bcd_edge = Val 0xF033 demo_bcd_edge /\
   4094 <= i_reg demo_bcd_edge) /\
  raised (tick 0 demo_bcd_edge) = Some IndexError.
Proof.
  assert (Lm : length (mem demo_bcd_edge) = 4096%nat)
    by (vm_compute; reflexivity).
  assert (Lr : length (regs demo_bcd_edge) = 16%nat)
    by (vm_compute; reflexivity).
  assert (Hf : fetch demo_bcd_edge = Val 0xF033 demo_bcd_edge)
    by (vm_compute; reflexivity).
  assert (Hi : 4094 <= i_reg demo_bcd_edge).
  { assert (i_reg demo_bcd_edge = 0xFFF) as -> by (vm_compute; reflexivity).
    lia. }
  split; [repeat apply conj; assumption|].
  destruct (address_past_memory_raises 0 demo_bcd_edge 0xF033 Lm Lr)
    as (_ & _ & Hbcd & _).
  apply Hbcd; [exact Hf| | |exact Hi]; vm_compute; reflexivity.
Defined.

(** C5, the claim as stated fails for F033 with V0 = 255 and
    I = 0xFFF: the first digit goes to cell 0xFFF, the store at
    address 0x1000 raises IndexError, and cells 0 and 1, where the
    addresses taken modulo 4096 would fall, keep the font bytes. *)
Lemma bcd_at_last_cell_raises :
  fetch demo_bcd_edge = Val 0xF033 demo_bcd_edge /\
  i_reg demo_bcd_edge = 0xFFF /\
  Py.getitem (regs demo_bcd_edge) 0 = Some 255 /\
  raised (tick 0 demo_bcd_edge) = Some IndexError /\
  Py.getitem (mem (final (tick 0 demo_bcd_edge))) 0xFFF = Some 2 /\
  Py.getitem (mem (final (tick 0 demo_bcd_edge))) ((0xFFF + 1) mod 4096)
  = Some 0xF0 /\
  Py.getitem (mem (final (tick 0 demo_bcd_edge))) ((0xFFF + 2) mod 4096)
  = Some 0x90.
Proof. repeat apply conj; vm_compute; reflexivity. Qed.

(** ** Loading a ROM *)

Lemma with_mem_same e : with_mem (mem e) e = e.
Proof. now destruct e. Qed.

(** The copy loop when the data fits: cells [k .. k + len) are
    replaced. *)
Lemma store_from_fits base data : forall start (k : nat) e,
  base + start = Z.of_nat k ->
  (k + length data <= length (mem e))%nat ->
  store_from base start data e
  = Val tt (with_mem (take k (mem e) ++ data
                        ++ drop (k + length data) (mem e)) e).
Proof.
  induction data as [|byte rest IH]; intros start k e Hk Hfit.
  - cbn [store_from length app]. rewrite Nat.add_0_r, take_drop.
    now rewrite with_mem_same.
  - cbn [store_from length] in *.
    rewrite (bind_val _ _ _ _ _ (mem_set_val e (base + start) byte ltac:(lia))).
    rewrite Hk, Nat2Z.id.
    rewrite (IH (start + 1) (S k)); cycle 1.
    { lia. }
    { cbn [mem with_mem]. rewrite length_insert. lia. }
    cbn [mem with_mem].
    rewrite (take_S_r _ k byte) by (apply list_lookup_insert_eq; lia).
    rewrite take_insert_ge by lia.
    rewrite drop_insert_lt by lia.
    rewrite <- app_assoc. cbn [app].
    replace (S k + length rest)%nat with (k + S (length rest))%nat by lia.
    reflexivity.
Qed.

(** The copy loop when the data does not fit: the cells up to the end
    of memory are written, then the next store raises. *)
Lemma store_from_overflows base data : forall start (k : nat) e,
  base + start = Z.of_nat k ->
  (k <= length (mem e) < k + length data)%nat ->
  store_from base start data e
  = Exc IndexError
      (with_mem (take k (mem e) ++ take (length (mem e) - k) data) e).
Proof.
  induction data as [|byte rest IH]; intros start k e Hk Hover.
  - cbn [length] in Hover. lia.
  - cbn [store_from length] in *.
    destruct (decide (k = length (mem e))) as [->|Hne].
    + rewrite (bind_exc _ _ _ _ _ (mem_set_out e (base + start) byte ltac:(lia))).
      rewrite Nat.sub_diag, take_0, app_nil_r, firstn_all.
      now rewrite with_mem_same.
    + rewrite (bind_val _ _ _ _ _ (mem_set_val e (base + start) byte ltac:(lia))).
      rewrite Hk, Nat2Z.id.
      rewrite (IH (start + 1) (S k)); cycle 1.
      { lia. }
      { cbn [mem with_mem]. rewrite length_insert. lia. }
      cbn [mem with_mem]. rewrite length_insert.
      rewrite (take_S_r _ k byte) by (apply list_lookup_insert_eq; lia).
      rewrite take_insert_ge by lia.
      replace (length (mem e) - k)%nat with (S (length (mem e) - S k)) by lia.
      rewrite <- app_assoc. reflexivity.
Qed.

(** C6 (as the code has it): loading writes the bytes in order from
    0x200 on, at most 3584 of them.  A ROM of at most 3584 bytes
    replaces cells 0x200 .. 0x200 + len - 1 and nothing else.  A longer
    ROM raises IndexError once memory is full: by then its first 3584
    bytes are in cells 0x200 .. 0xFFF, and no cell below 0x200 has
    changed. *)
Theorem load_rom_outcome data e :
  length (mem e) = 4096%nat ->
  load_rom data e
  = if (length data <=? 3584)%nat
    then Val tt (with_mem (take 512 (mem e) ++ data
                             ++ drop (512 + length data) (mem e)) e)
    else Exc IndexError (with_mem (take 512 (mem e) ++ take 3584 data) e).
Proof.
  intros L. unfold load_rom.
  destruct (Nat.leb_spec (length data) 3584) as [Hle|Hgt].
  - apply store_from_fits; [reflexivity|lia].
  - rewrite (store_from_overflows 0x200 data 0 512 e); [|reflexivity|lia].
    rewrite L. reflexivity.
Qed.

Lemma load_rom_outcome_witness :
  length (mem constructed) = 4096%nat /\
  load_rom [0x6A; 0x05; 0x7A; 0x02] constructed
  = if (length [0x6A; 0x05; 0x7A; 0x02] <=? 3584)%nat
    then Val tt (with_mem (take 512 (mem constructed)
                             ++ [0x6A; 0x05; 0x7A; 0x02]
                             ++ drop (512 + length [0x6A; 0x05; 0x7A; 0x02])
                                  (mem constructed)) constructed)
    else Exc IndexError
           (with_mem (take 512 (mem constructed)
                        ++ take 3584 [0x6A; 0x05; 0x7A; 0x02]) constructed).
Proof.
  assert (L : length (mem constructed) = 4096%nat)
    by (vm_compute; reflexivity).
  split; [exact L|].
  exact (load_rom_outcome [0x6A; 0x05; 0x7A; 0x02] constructed L).
Defined.

(** C6, the claim as stated fails on a ROM of 3585 bytes: the error is
    Python's IndexError, raised by the store past the end of memory,
    and when it is raised the first 3584 bytes of the ROM are already
    in memory, from 0x200 to 0xFFF. *)
Lemma oversized_rom_is_copied_then_fails :
  length rom_3585 = 3585%nat /\
  Py.getitem (mem constructed) 0x200 = Some 0 /\
  Py.getitem (mem constructed) 0xFFF = Some 0 /\
  raised (load_rom rom_3585 constructed) = Some IndexError /\
  Py.getitem (mem (final (load_rom rom_3585 constructed))) 0x200 = Some 1 /\
  Py.getitem (mem (final (load_rom rom_3585 constructed))) 0xFFF = Some 1.
Proof. repeat apply conj; vm_compute; reflexivity. Qed.

(** ** Words no case takes *)

(** Closes a branch of a case analysis on a numeral: either the [match]
    has reached its default, or the word is one the hypothesis
    excludes. *)
Ltac leaf :=
  let H := fresh in
  first [ intros _; reflexivity
        | intros H; vm_compute in H; discriminate H ].

Lemma op_0_unmapped w :
  negb (existsb (Z.eqb (Z.land w 0x00FF)) [0xE0; 0xEE]) = true ->
  op_0 w = next.
Proof.
  unfold op_0. generalize (Z.land w 0x00FF). intros b.
  destruct b as [|p|p]; try leaf.
  repeat (destruct p as [p|p|]; try leaf).
Qed.

Lemma op_8_unmapped x y w :
  negb (existsb (Z.eqb (Z.land w 0x000F))
          [0x0; 0x1; 0x2; 0x3; 0x4; 0x5; 0x6; 0x7; 0xE]) = true ->
  op_8 x y w = next.
Proof.
  unfold op_8. generalize (Z.land w 0x000F). intros b.
  destruct b as [|p|p]; try leaf.
  repeat (destruct p as [p|p|]; try leaf).
Qed.

Lemma op_E_unmapped x w :
  negb (existsb (Z.eqb (Z.land w 0x00FF)) [0x9E; 0xA1]) = true ->
  op_E x w = next.
Proof.
  unfold op_E. generalize (Z.land w 0x00FF). intros b.
  destruct b as [|p|p]; try leaf.
  repeat (destruct p as [p|p|]; try leaf).
Qed.

Lemma op_F_unmapped x w :
  negb (existsb (Z.eqb (Z.land w 0x00FF))
          [0x07; 0x0A; 0x15; 0x18; 0x1E; 0x29; 0x33; 0x55; 0x65]) = true ->
  op_F x w = next.
Proof.
  unfold op_F. generalize (Z.land w 0x00FF). intros b.
  destruct b as [|p|p]; try leaf.
  repeat (destruct p as [p|p|]; try leaf).
Qed.

Lemma dispatch_unmapped rnd x y w :
  unmapped w = true -> dispatch rnd x y w = next.
Proof.
  unfold unmapped, dispatch.
  pose proof (op_0_unmapped w) as H0.
  pose proof (op_8_unmapped x y w) as H8.
  pose proof (op_E_unmapped x w) as HE.
  pose proof (op_F_unmapped x w) as HF.
  revert H0 H8 HE HF.
  generalize (op_0 w) (op_8 x y w) (op_E x w) (op_F x w).
  generalize (negb (existsb (Z.eqb (Z.land w 0x00FF)) [0xE0; 0xEE])).
  generalize (negb (existsb (Z.eqb (Z.land w 0x000F))
          [0x0; 0x1; 0x2; 0x3; 0x4; 0x5; 0x6; 0x7; 0xE])).
  generalize (negb (existsb (Z.eqb (Z.land w 0x00FF)) [0x9E; 0xA1])).
  generalize (negb (existsb (Z.eqb (Z.land w 0x00FF))
          [0x07; 0x0A; 0x15; 0x18; 0x1E; 0x29; 0x33; 0x55; 0x65])).
  intros bF bE b8 b0 m0 m8 mE mF H0 H8 HE HF.
  generalize (Z.land w 0xF000). intros f.
  destruct f as [|p|p]; try (now auto); try discriminate.
  repeat (destruct p as [p|p|]; try (now auto); try discriminate).
Qed.

(** C7 (as the code has it): a word that no [case] takes is a no-op
    that nothing reports.  The step returns normally, PC has advanced
    by 2, the key latch is cleared, and registers, I, memory, stack,
    stack pointer, display, timers and keys are as before; no exception
    is raised and the machine has nothing that records the word. *)
Theorem unmapped_word_is_silent_no_op rnd e w :
  fetch e = Val w e ->
  unmapped w = true ->
  tick rnd e = Val tt (with_kb_interrupt None (with_pc (pc e + 2) e)).
Proof.
  intros Hf Hu. rewrite (tick_decode _ _ _ Hf).
  now rewrite (dispatch_unmapped _ _ _ _ Hu).
Qed.

Lemma unmapped_word_is_silent_no_op_witness :
  (fetch demo_unknown = Val 0xF0FF demo_unknown /\
   unmapped 0xF0FF = true) /\
  tick 0 demo_unknown
  = Val tt (with_kb_interrupt None (with_pc (pc demo_unknown + 2) demo_unknown)).
Proof.
  assert (Hf : fetch demo_unknown = Val 0xF0FF demo_unknown)
    by (vm_compute; reflexivity).
  assert (Hu : unmapped 0xF0FF = true) by (vm_compute; reflexivity).
  split; [split; assumption|].
  exact (unmapped_word_is_silent_no_op 0 demo_unknown 0xF0FF Hf Hu).
Defined.

(** C7, the claim as stated fails on the word F0FF: the step returns
    normally with the machine it started from, PC moved from 0x200 to
    0x202; nothing is raised and nothing is reported. *)
Lemma unknown_word_not_reported :
  fetch demo_unknown = Val 0xF0FF demo_unknown /\
  unmapped 0xF0FF = true /\
  raised (tick 0 demo_unknown) = None /\
  tick 0 demo_unknown = Val tt (with_pc 0x202 demo_unknown).
Proof. repeat apply conj; vm_compute; reflexivity. Qed.

(** A word outside the instruction set need not be unmapped: the
    dispatcher looks at the family only for 5xyN and 9xyN, so 5011 runs
    as 5010 and, V0 and V1 being equal, skips the next instruction. *)
Lemma word_5xy1_runs_as_5xy0 :
  fetch demo_5xy1 = Val 0x5011 demo_5xy1 /\
  unmapped 0x5011 = false /\
  pc demo_5xy1 = 0x200 /\
  pc (final (tick 0 demo_5xy1)) = 0x204.
Proof. repeat apply conj; vm_compute; reflexivity. Qed.
(** ** Call and return, nested *)

Lemma fetch_word e w :
  word_at (mem e) (pc e) = Some w -> fetch e = Val w e.
Proof.
  unfold word_at, fetch, mem_get, bind, gets, lift_index, ret.
  destruct (Py.getitem (mem e) (pc e)) as [hi|]; [|discriminate].
  destruct (Py.getitem (mem e) (pc e + 1)) as [lo|]; [|discriminate].
  now intros [= <-].
Qed.

Lemma ticks_snoc n : forall rnd e,
  ticks (S n) rnd e = (ticks n rnd ;;; tick rnd) e.
Proof.
  induction n as [|n IH]; intros rnd e.
  - cbn [ticks]. unfold bind, ret. now destruct (tick rnd e) as [[] e'|].
  - change (ticks (S (S n)) rnd e) with ((tick rnd ;;; ticks (S n) rnd) e).
    change (ticks (S n) rnd) with (tick rnd ;;; ticks n rnd) at 2.
    rewrite bind_assoc.
    destruct (tick rnd e) as [[] e1|x e1] eqn:E.
    + rewrite !(bind_val _ _ _ _ _ E). apply IH.
    + now rewrite !(bind_exc _ _ _ _ _ E).
Qed.

(** A step on a 2nnn word: the frame holds the address after the
    call. *)
Lemma tick_call_run rnd e w :
  length (stack e) = 48%nat ->
  0 <= sp e < 48 ->
  word_at (mem e) (pc e) = Some w ->
  Z.land w 0xF000 = 0x2000 ->
  exists e',
    tick rnd e = Val tt e' /\
    pc e' = Z.land w 0x0FFF /\
    mem e' = mem e /\
    length (stack e') = 48%nat /\
    sp e' = (sp e + 2) mod 48 /\
    Py.getitem (stack e') ((sp e + 2) mod 48) = Some (Z.shiftr (pc e + 2) 8) /\
    Py.getitem (stack e') ((sp e + 1) mod 48)
    = Some (Z.land (pc e + 2) 0x00FF) /\
    (forall j, 0 <= j < 48 -> j <> (sp e + 1) mod 48 ->
       j <> (sp e + 2) mod 48 ->
       Py.getitem (stack e') j = Py.getitem (stack e) j).
Proof.
  intros L Hs Hw Hfam. apply fetch_word in Hw.
  rewrite (tick_decode _ _ _ Hw). unfold dispatch. rewrite Hfam.
  cbv iota beta.
  rewrite (bind_val _ _ _ _ _ (op_2_run (with_pc (pc e + 2) e) w L)).
  cbn [sp pc stack with_pc].
  eexists. split; [reflexivity|].
  cbn [sp pc mem stack with_pc with_stack with_sp with_kb_interrupt].
  assert (E : ((sp e + 1) mod 48 + 1) mod 48 = (sp e + 2) mod 48) by zmod.
  rewrite E.
  split; [reflexivity|]. split; [reflexivity|].
  split; [now rewrite !length_insert|].
  split; [reflexivity|].
  split; [apply getitem_insert_eq; rewrite length_insert, L; zmod|].
  split.
  - rewrite getitem_insert_ne by (rewrite ?length_insert, ?L; zmod).
    apply getitem_insert_eq. rewrite L. zmod.
  - intros j Hj N1 N2.
    rewrite getitem_insert_ne by (rewrite ?length_insert, ?L; zmod).
    apply getitem_insert_ne; rewrite ?L; zmod.
Qed.

(** A step on 00EE: [pc] is the address the frame at [sp] holds. *)
Lemma tick_return_run rnd e r :
  length (stack e) = 48%nat ->
  0 <= sp e < 48 ->
  word_at (mem e) (pc e) = Some 0x00EE ->
  Py.getitem (stack e) (sp e) = Some (Z.shiftr r 8) ->
  Py.getitem (stack e) ((sp e - 1) mod 48) = Some (Z.land r 0x00FF) ->
  exists e',
    tick rnd e = Val tt e' /\
    pc e' = r /\ mem e' = mem e /\ stack e' = stack e /\
    sp e' = (sp e - 2) mod 48.
Proof.
  intros L Hs Hw Hhi Hlo. apply fetch_word in Hw.
  rewrite (tick_decode _ _ _ Hw). unfold dispatch.
  change (Z.land 0x00EE 0xF000) with 0. cbv iota beta.
  erewrite bind_val; cycle 1.
  { apply (op_0_return_run (with_pc (pc e + 2) e) 0x00EE
             (Z.shiftr r 8) (Z.land r 0x00FF));
      [exact L|reflexivity|exact Hhi|exact Hlo]. }
  eexists. split; [reflexivity|].
  cbn [sp pc mem stack with_pc with_sp with_kb_interrupt].
  rewrite frame_bytes.
  repeat apply conj; try reflexivity. zmod.
Qed.

(** The calls of a chain, run by [tick]: the call number [n + 1]
    returns normally at any depth and leaves its frame in the cells
    [sp + 2n + 1] and [sp + 2n + 2] modulo 48. *)
Lemma calls_run rnd ws : forall e (n : nat) w site,
  length (stack e) = 48%nat ->
  0 <= sp e < 48 ->
  calls_nested (mem e) (pc e) ws ->
  ws !! n = Some w ->
  call_sites (pc e) ws !! n = Some site ->
  exists e',
    ticks (S n) rnd e = Val tt e' /\
    pc e' = Z.land w 0x0FFF /\
    sp e' = (sp e + 2 * (Z.of_nat n + 1)) mod 48 /\
    Py.getitem (stack e') ((sp e + 2 * (Z.of_nat n + 1) - 1) mod 48)
    = Some (Z.land (site + 2) 0x00FF) /\
    Py.getitem (stack e') ((sp e + 2 * (Z.of_nat n + 1)) mod 48)
    = Some (Z.shiftr (site + 2) 8).
Proof.
  induction ws as [|w0 rest IH]; intros e n w site L Hs Hc Hw Hsite;
    [discriminate Hw|].
  cbn [calls_nested call_sites] in Hc, Hsite.
  destruct Hc as (Hw0 & Hfam & Hrest).
  destruct (tick_call_run rnd e w0 L Hs Hw0 Hfam)
    as (e1 & R1 & P1 & M1 & L1 & S1 & Hhi & Hlo & _).
  destruct n as [|n]; cbn in Hw, Hsite.
  - injection Hw as <-. injection Hsite as <-.
    exists e1. cbn [ticks]. rewrite (bind_val _ _ _ _ _ R1).
    split; [reflexivity|]. split; [exact P1|].
    change (Z.of_nat 0) with 0.
    replace (sp e + 2 * (0 + 1)) with (sp e + 2) by lia.
    replace (sp e + 2 - 1) with (sp e + 1) by lia.
    repeat apply conj; assumption.
  - destruct (IH e1 n w site L1 ltac:(rewrite S1; zmod)) as
      (e' & R & P & S' & Hl & Hh); try assumption.
    { rewrite M1, P1. exact Hrest. }
    { rewrite P1. exact Hsite. }
    exists e'. change (ticks (S (S n)) rnd e)
      with ((tick rnd ;;; ticks (S n) rnd) e).
    rewrite (bind_val _ _ _ _ _ R1).
    split; [exact R|]. split; [exact P|].
    rewrite S1 in S', Hl, Hh.
    replace ((sp e + 2 * (Z.of_nat (S n) + 1)) mod 48)
      with (((sp e + 2) mod 48 + 2 * (Z.of_nat n + 1)) mod 48) by zmod.
    replace ((sp e + 2 * (Z.of_nat (S n) + 1) - 1) mod 48)
      with (((sp e + 2) mod 48 + 2 * (Z.of_nat n + 1) - 1) mod 48) by zmod.
    repeat apply conj; assumption.
Qed.

(** The calls of a chain of at most 24, then the returns: after the
    return from call number [j + 1] the machine is at the instruction
    after that call, with the stack pointer as before the call; the
    stack cells outside the frames of the chain are untouched. *)
Lemma round_trip rnd ws : forall e,
  length (stack e) = 48%nat ->
  0 <= sp e < 48 ->
  calls_nested (mem e) (pc e) ws ->
  returns_nested (mem e) ws ->
  (length ws <= 24)%nat ->
  forall (j : nat) site,
    call_sites (pc e) ws !! j = Some site ->
    exists e',
      ticks (length ws + (length ws - j)) rnd e = Val tt e' /\
      pc e' = site + 2 /\
      sp e' = (sp e + 2 * Z.of_nat j) mod 48 /\
      mem e' = mem e /\
      length (stack e') = 48%nat /\
      (forall c, 0 <= c < 48 ->
         (forall i, 1 <= i <= 2 * Z.of_nat (length ws) ->
            c <> (sp e + i) mod 48) ->
         Py.getitem (stack e') c = Py.getitem (stack e) c).
Proof.
  induction ws as [|w rest IH]; intros e L Hs Hc Hr Hd j site Hsite;
    [discriminate Hsite|].
  cbn [calls_nested call_sites] in Hc, Hsite.
  destruct Hc as (Hw & Hfam & Hrest).
  destruct (tick_call_run rnd e w L Hs Hw Hfam)
    as (e1 & R1 & P1 & M1 & L1 & S1 & Hhi & Hlo & F1).
  assert (Hs1 : 0 <= sp e1 < 48) by (rewrite S1; zmod).
  destruct rest as [|w' rest'].
  - (* the innermost call *)
    cbn [returns_nested] in Hr.
    destruct j as [|j]; [|now destruct j]. cbn in Hsite.
    injection Hsite as <-.
    destruct (tick_return_run rnd e1 (pc e + 2) L1 Hs1)
      as (e2 & R2 & P2 & M2 & T2 & S2).
    { rewrite M1, P1. exact Hr. }
    { rewrite S1. exact Hhi. }
    { rewrite S1. replace (((sp e + 2) mod 48 - 1) mod 48)
        with ((sp e + 1) mod 48) by zmod. exact Hlo. }
    exists e2. cbn [length Nat.add Nat.sub ticks].
    rewrite (bind_val _ _ _ _ _ R1), (bind_val _ _ _ _ _ R2).
    split; [reflexivity|]. split; [exact P2|].
    split; [rewrite S2, S1; zmod|]. split; [congruence|].
    split; [congruence|].
    intros c Hc Hout. rewrite T2. apply F1; [exact Hc| |].
    + apply (Hout 1). cbn [length]. lia.
    + apply (Hout 2). cbn [length]. lia.
  - (* a call with calls inside *)
    set (rest := w' :: rest') in *.
    assert (Hr' : word_at (mem e) (Z.land w 0x0FFF + 2) = Some 0x00EE /\
                  returns_nested (mem e) rest) by exact Hr.
    destruct Hr' as (Hret & Hrets).
    assert (Hd' : (length rest <= 23)%nat) by (cbn [length] in Hd; lia).
    assert (IH1 := IH e1 L1 Hs1
                     ltac:(rewrite M1, P1; exact Hrest)
                     ltac:(rewrite M1; exact Hrets) ltac:(lia)).
    assert (Fr : forall e', 
              (forall c, 0 <= c < 48 ->
                 (forall i, 1 <= i <= 2 * Z.of_nat (length rest) ->
                    c <> (sp e1 + i) mod 48) ->
                 Py.getitem (stack e') c = Py.getitem (stack e1) c) ->
              forall c, 0 <= c < 48 ->
                (forall i, 1 <= i <= 2 * Z.of_nat (length (w :: rest)) ->
                   c <> (sp e + i) mod 48) ->
                Py.getitem (stack e') c = Py.getitem (stack e) c).
    { intros e' F c Hc Hout. cbn [length] in Hout. rewrite F.
      - apply F1; [exact Hc| |]; [apply (Hout 1)|apply (Hout 2)]; lia.
      - exact Hc.
      - intros i Hi. rewrite S1. specialize (Hout (i + 2) ltac:(lia)).
        zmod. }
    destruct j as [|j]; cbn in Hsite.
    + injection Hsite as <-.
      destruct (IH1 0%nat (pc e1)) as (e3 & R3 & P3 & S3 & M3 & L3 & F3).
      { rewrite P1. reflexivity. }
      assert (S3' : sp e3 = sp e1) by (rewrite S3; zmod).
      destruct (tick_return_run rnd e3 (pc e + 2) L3 ltac:(lia))
        as (e4 & R4 & P4 & M4 & T4 & S4).
      { rewrite M3, M1, P3, P1. exact Hret. }
      { rewrite S3', F3; [rewrite S1; exact Hhi|lia|].
        intros i Hi. zmod. }
      { rewrite S3', F3; [|zmod|intros i Hi; zmod].
        rewrite S1. replace (((sp e + 2) mod 48 - 1) mod 48)
          with ((sp e + 1) mod 48) by zmod. exact Hlo. }
      exists e4.
      replace (length (w :: rest) + (length (w :: rest) - 0))%nat
        with (S (S (length rest + (length rest - 0)))) by (cbn [length]; lia).
      rewrite ticks_snoc.
      change (ticks (S (length rest + (length rest - 0))) rnd)
        with (tick rnd ;;; ticks (length rest + (length rest - 0)) rnd).
      rewrite bind_assoc, (bind_val _ _ _ _ _ R1), (bind_val _ _ _ _ _ R3).
      split; [exact R4|]. split; [exact P4|].
      split; [rewrite S4, S3', S1; zmod|].
      split; [congruence|]. split; [congruence|].
      rewrite T4. apply Fr. exact F3.
    + destruct (IH1 j site) as (e3 & R3 & P3 & S3 & M3 & L3 & F3).
      { rewrite P1. exact Hsite. }
      exists e3.
      change (ticks (length (w :: rest) + (length (w :: rest) - S j)) rnd e)
        with ((tick rnd ;;; ticks (length rest + (length rest - j)) rnd) e).
      rewrite (bind_val _ _ _ _ _ R1).
      split; [exact R3|]. split; [exact P3|].
      split; [rewrite S3, S1; zmod|].
      split; [congruence|]. split; [exact L3|].
      apply Fr. exact F3.
Qed.

(** C8 (as the code has it): take any chain of 2nnn words in memory,
    each at the target of the one before, the first at [pc].  Run by
    [tick], every call of the chain returns normally, whatever the
    depth: call number n + 1 jumps to its target, leaves the stack
    pointer at sp + 2(n + 1) modulo 48 and stores the address of the
    instruction after it (its own address plus 2) in the stack cells
    sp + 2n + 1 and sp + 2n + 2 modulo 48, so that the call at depth
    25 takes the cells of the outermost call.  When the chain has at
    most 24 calls and each subroutine ends in 00EE, the steps that
    follow the last call return, innermost first, to the instruction
    after each call, with the stack pointer as it was before that
    call: after the last return the machine is at the instruction after
    the first call and the stack pointer is the one it started with. *)
Theorem nested_calls_return_after_call rnd e ws :
  length (stack e) = 48%nat ->
  0 <= sp e < 48 ->
  calls_nested (mem e) (pc e) ws ->
  (forall (n : nat) w site,
     ws !! n = Some w ->
     call_sites (pc e) ws !! n = Some site ->
     exists e',
       ticks (S n) rnd e = Val tt e' /\
       pc e' = Z.land w 0x0FFF /\
       sp e' = (sp e + 2 * (Z.of_nat n + 1)) mod 48 /\
       Py.getitem (stack e') ((sp e + 2 * (Z.of_nat n + 1) - 1) mod 48)
       = Some (Z.land (site + 2) 0x00FF) /\
       Py.getitem (stack e') ((sp e + 2 * (Z.of_nat n + 1)) mod 48)
       = Some (Z.shiftr (site + 2) 8)) /\
  ((length ws <= 24)%nat ->
   returns_nested (mem e) ws ->
   forall (j : nat) site,
     call_sites (pc e) ws !! j = Some site ->
     exists e',
       ticks (length ws + (length ws - j)) rnd e = Val tt e' /\
       pc e' = site + 2 /\
       sp e' = (sp e + 2 * Z.of_nat j) mod 48).
Proof.
  intros L Hs Hc. split.
  - intros n w site Hw Hsite.
    exact (calls_run rnd ws e n w site L Hs Hc Hw Hsite).
  - intros Hd Hr j site Hsite.
    destruct (round_trip rnd ws e L Hs Hc Hr Hd j site Hsite)
      as (e' & R & P & S' & _).
    exists e'. repeat apply conj; assumption.
Qed.

(** The program of 24 nested subroutines. *)
Lemma nested_calls_return_after_call_witness :
  (forall (n : nat) w site,
     words_24 !! n = Some w ->
     call_sites (pc (booted (rom_nested 24))) words_24 !! n = Some site ->
     exists e',
       ticks (S n) 0 (booted (rom_nested 24)) = Val tt e' /\
       pc e' = Z.land w 0x0FFF /\
       sp e' = (sp (booted (rom_nested 24)) + 2 * (Z.of_nat n + 1)) mod 48 /\
       Py.getitem (stack e')
         ((sp (booted (rom_nested 24)) + 2 * (Z.of_nat n + 1) - 1) mod 48)
       = Some (Z.land (site + 2) 0x00FF) /\
       Py.getitem (stack e')
         ((sp (booted (rom_nested 24)) + 2 * (Z.of_nat n + 1)) mod 48)
       = Some (Z.shiftr (site + 2) 8)) /\
  (forall (j : nat) site,
     call_sites (pc (booted (rom_nested 24))) words_24 !! j = Some site ->
     exists e',
       ticks (length words_24 + (length words_24 - j)) 0
         (booted (rom_nested 24)) = Val tt e' /\
       pc e' = site + 2 /\
       sp e' = (sp (booted (rom_nested 24)) + 2 * Z.of_nat j) mod 48).
Proof.
  assert (L : length (stack (booted (rom_nested 24))) = 48%nat)
    by (vm_compute; reflexivity).
  assert (Hs : 0 <= sp (booted (rom_nested 24)) < 48)
    by (vm_compute; split; [discriminate|reflexivity]).
  assert (Hc : calls_nested (mem (booted (rom_nested 24)))
                 (pc (booted (rom_nested 24))) words_24)
    by (vm_compute; repeat apply conj; reflexivity || exact I).
  assert (Hd : (length words_24 <= 24)%nat)
    by (apply Nat.leb_le; vm_compute; reflexivity).
  assert (Hr : returns_nested (mem (booted (rom_nested 24))) words_24)
    by (vm_compute; repeat apply conj; reflexivity).
  pose proof (nested_calls_return_after_call 0 (booted (rom_nested 24))
                words_24 L Hs Hc) as H.
  exact (conj (proj1 H) (proj2 H Hd Hr)).
Defined.

(** The program of 24 nested subroutines, run by [tick]: after the 24
    calls and the 24 returns the machine is at 0x202, the instruction
    after the first call. *)
Lemma nested_24_returns_home :
  raised (ticks 48 0 (booted (rom_nested 24))) = None /\
  pc (final (ticks 24 0 (booted (rom_nested 24)))) = 0x260 /\
  pc (final (ticks 48 0 (booted (rom_nested 24)))) = 0x202 /\
  sp (final (ticks 48 0 (booted (rom_nested 24)))) = 0.
Proof. repeat apply conj; vm_compute; reflexivity. Qed.

(** C8, the claim as stated fails at depth 25: the 25th call returns
    normally, and after 25 returns the machine is at 0x262, not at
    0x202 after the first call, whose frame the 25th call wrote over. *)
Lemma nested_25_wraps :
  raised (ticks 25 0 (booted (rom_nested 25))) = None /\
  pc (final (ticks 25 0 (booted (rom_nested 25)))) = 0x264 /\
  raised (ticks 50 0 (booted (rom_nested 25))) = None /\
  pc (final (ticks 50 0 (booted (rom_nested 25)))) = 0x262 /\
  pc (final (ticks 50 0 (booted (rom_nested 25)))) <> 0x202.
Proof.
  repeat apply conj; try (vm_compute; reflexivity).
  vm_compute. discriminate.
Qed.

(** ** The origin of a sprite *)

(** The top-left bit of a sprite lands on the wrapped origin, with or
    without clipping. *)
Lemma covers_origin clip a b m i n byte :
  Py.getitem m i = Some byte ->
  Z.testbit byte 7 = true ->
  1 <= n ->
  covers clip (a mod 64) (b mod 32) m i n (a mod 64) (b mod 32) = true.
Proof.
  intros Hbyte Hbit Hn. unfold covers, Py.range.
  destruct (Z.to_nat n) as [|k] eqn:E; [lia|].
  cbn [seq map existsb]. apply orb_true_iff. left.
  unfold row_covers. rewrite Z.add_0_r, Hbyte.
  change (Py.range 8) with (map Z.of_nat (seq 0 8)).
  cbn [seq map existsb]. apply orb_true_iff. left.
  unfold sprite_bit. cbn [Z.of_nat]. rewrite Z.sub_0_r, Hbit.
  rewrite !Z.add_0_r. unfold lands.
  destruct clip; rewrite ?Z.mod_mod by lia; now rewrite !Z.eqb_refl.
Qed.

(** C9 (as the code has it): for every draw instruction Dxyn whose x
    and y are not 0xF, the origin of the sprite is (Vx mod 64,
    Vy mod 32) whatever the clipping quirk: a pixel of the display is
    toggled exactly when a set bit of the sprite, placed from that
    origin, lands on it, clipping leaving out the bits that pass the
    right or bottom edge and no clipping wrapping them.  So a sprite
    whose top-left bit is set is drawn at the wrapped origin also when
    Vx or Vy exceeds the display size and clipping is on. *)
Theorem sprite_drawn_from_wrapped_origin rnd e w a b :
  resolution e = (64, 32) ->
  length (disp e) = 2048%nat ->
  length (regs e) = 16%nat ->
  length (mem e) = 4096%nat ->
  fetch e = Val w e ->
  Z.land w 0xF000 = 0xD000 ->
  draws_now e = true ->
  Z.shiftr (Z.land w 0x0F00) 8 <> 0xF ->
  Z.shiftr (Z.land w 0x00F0) 4 <> 0xF ->
  Py.getitem (regs e) (Z.shiftr (Z.land w 0x0F00) 8) = Some a ->
  Py.getitem (regs e) (Z.shiftr (Z.land w 0x00F0) 4) = Some b ->
  0 <= i_reg e -> i_reg e + Z.land w 0x000F <= 4096 ->
  exists e',
    tick rnd e = Val tt e' /\
    (forall px py, 0 <= px < 64 -> 0 <= py < 32 ->
       Py.getitem (disp e') (px + py * 64)
       = flip (covers (QUIRK_clipping (quirks e)) (a mod 64) (b mod 32)
                 (mem e) (i_reg e) (Z.land w 0x000F) px py)
           (Py.getitem (disp e) (px + py * 64))) /\
    (forall byte,
       Py.getitem (mem e) (i_reg e) = Some byte ->
       Z.testbit byte 7 = true -> 1 <= Z.land w 0x000F ->
       Py.getitem (disp e') (a mod 64 + b mod 32 * 64)
       = Py.int_not <$> Py.getitem (disp e) (a mod 64 + b mod 32 * 64)).
Proof.
  intros Hres Ld Lr Lm Hf Hfam Hnow Hx Hy Ha Hb Hi Hn.
  pose proof (nibble_x_range w). pose proof (nibble_y_range w).
  rewrite (tick_decode _ _ _ Hf). unfold dispatch. rewrite Hfam.
  cbv iota beta.
  destruct (op_D_run (QUIRK_clipping (quirks e))
              (Z.shiftr (Z.land w 0x0F00) 8) (Z.shiftr (Z.land w 0x00F0) 4)
              a b (with_pc (pc e + 2) e) w) as (e' & R & P); try assumption.
  { repeat split; try assumption; try lia. }
  rewrite (bind_val _ _ _ _ _ R).
  eexists. split; [reflexivity|].
  destruct P as (_ & _ & P). cbn [mem i_reg disp with_pc with_kb_interrupt] in *.
  split; [exact P|].
  intros byte Hbyte Hbit H1.
  rewrite P by zmod.
  now rewrite (covers_origin _ a b _ _ _ byte Hbyte Hbit H1).
Qed.

(** V0 = 124 and V1 = 33 with clipping on: the row 0xFF is drawn from
    (60, 1). *)
Lemma sprite_drawn_from_wrapped_origin_witness :
  exists e',
    tick 0 demo_far = Val tt e' /\
    (forall px py, 0 <= px < 64 -> 0 <= py < 32 ->
       Py.getitem (disp e') (px + py * 64)
       = flip (covers (QUIRK_clipping (quirks demo_far)) (124 mod 64)
                 (33 mod 32) (mem demo_far) (i_reg demo_far)
                 (Z.land 0xD011 0x000F) px py)
           (Py.getitem (disp demo_far) (px + py * 64))) /\
    (forall byte,
       Py.getitem (mem demo_far) (i_reg demo_far) = Some byte ->
       Z.testbit byte 7 = true -> 1 <= Z.land 0xD011 0x000F ->
       Py.getitem (disp e') (124 mod 64 + 33 mod 32 * 64)
       = Py.int_not <$> Py.getitem (disp demo_far) (124 mod 64 + 33 mod 32 * 64)).
Proof.
  apply (sprite_drawn_from_wrapped_origin 0 demo_far 0xD011 124 33).
  - vm_compute. reflexivity.
  - vm_compute. reflexivity.
  - vm_compute. reflexivity.
  - vm_compute. reflexivity.
  - vm_compute. reflexivity.
  - vm_compute. reflexivity.
  - vm_compute. reflexivity.
  - vm_compute. discriminate.
  - vm_compute. discriminate.
  - vm_compute. reflexivity.
  - vm_compute. reflexivity.
  - assert (i_reg demo_far = 0x20A) as -> by (vm_compute; reflexivity). lia.
  - assert (i_reg demo_far = 0x20A) as -> by (vm_compute; reflexivity).
    vm_compute. discriminate.
Defined.

(** The same draw, computed: with clipping on, the pixels (60..63, 1)
    are set and nothing else. *)
Lemma far_origin_is_drawn_on_screen :
  QUIRK_clipping (quirks demo_far) = true /\
  Py.getitem (regs demo_far) 0 = Some 124 /\
  Py.getitem (regs demo_far) 1 = Some 33 /\
  disp demo_far = repeat 0 2048 /\
  disp (final (tick 0 demo_far))
  = <[124%nat := 1]> (<[125%nat := 1]> (<[126%nat := 1]>
      (<[127%nat := 1]> (repeat 0 2048)))).
Proof. repeat apply conj; vm_compute; reflexivity. Qed.

(** C9, the claim as stated fails when x is 0xF: VF is cleared before
    the coordinates are read.  With VF = 70, DF11 draws the pixel of
    its sprite at column 0, not at column 70 mod 64 = 6. *)
Lemma vf_origin_is_read_after_reset :
  fetch demo_vf_origin = Val 0xDF11 demo_vf_origin /\
  Py.getitem (regs demo_vf_origin) 0xF = Some 70 /\
  Py.getitem (regs demo_vf_origin) 1 = Some 0 /\
  disp demo_vf_origin = repeat 0 2048 /\
  raised (tick 0 demo_vf_origin) = None /\
  Py.getitem (disp (final (tick 0 demo_vf_origin))) (70 mod 64 + 0 mod 32 * 64)
  = Some 0 /\
  Py.getitem (disp (final (tick 0 demo_vf_origin))) (0 + 0 * 64) = Some 1.
Proof. repeat apply conj; vm_compute; reflexivity. Qed.

(** ** Determinism of a step *)

(** Only the [case 0xC000] branch of the dispatcher looks at the random
    byte. *)
Lemma dispatch_random_free rnd1 rnd2 x y w :
  Z.land w 0xF000 <> 0xC000 ->
  dispatch rnd1 x y w = dispatch rnd2 x y w.
Proof.
  intros H. unfold dispatch.
  destruct (Z.land w 0xF000) as [|p|p]; try reflexivity.
  repeat (destruct p as [p|p|]; try reflexivity).
  now contradiction H.
Qed.

(** On one machine, a step on a word outside the family 0xC does not
    depend on the random byte. *)
Lemma tick_ignores_random rnd1 rnd2 e :
  (forall w, fetch e = Val w e -> Z.land w 0xF000 <> 0xC000) ->
  tick rnd1 e = tick rnd2 e.
Proof.
  intros H. unfold tick.
  destruct (fetch e) as [w e'|x e'] eqn:Hf.
  - pose proof (fetch_pure _ _ _ Hf) as ->.
    rewrite !(bind_val _ _ _ _ _ Hf).
    assert (Hp : pc_add 2 e = Val tt (with_pc (pc e + 2) e)) by reflexivity.
    rewrite !(bind_val _ _ _ _ _ Hp).
    unfold bind.
    now rewrite (dispatch_random_free rnd1 rnd2 _ _ w (H w eq_refl)).
  - now rewrite !(bind_exc _ _ _ _ _ Hf).
Qed.

(** A machine is its fourteen attributes. *)
Lemma emulator_ext e1 e2 :
  quirks e1 = quirks e2 ->
  resolution e1 = resolution e2 ->
  mem e1 = mem e2 ->
  regs e1 = regs e2 ->
  i_reg e1 = i_reg e2 ->
  pc e1 = pc e2 ->
  stack e1 = stack e2 ->
  sp e1 = sp e2 ->
  kb e1 = kb e2 ->
  sound_timer e1 = sound_timer e2 ->
  delay_timer e1 = delay_timer e2 ->
  kb_interrupt e1 = kb_interrupt e2 ->
  interrupted e1 = interrupted e2 ->
  disp e1 = disp e2 ->
  e1 = e2.
Proof.
  destruct e1 as [q1 r1 m1 rg1 i1 p1 st1 s1 k1 snd1 dl1 ki1 it1 d1].
  destruct e2 as [q2 r2 m2 rg2 i2 p2 st2 s2 k2 snd2 dl2 ki2 it2 d2].
  cbn [quirks resolution mem regs i_reg pc stack sp kb sound_timer
       delay_timer kb_interrupt interrupted disp].
  intros. subst. reflexivity.
Qed.

(** C10 (as the code has it): for every instruction word whose family
    is not 0xC, one step is deterministic once the display is counted in
    the state.  Two machines that agree on memory, registers, I, PC,
    stack, stack pointer, timers, key states, key latch and interrupted
    flag, and also on the display and on the configuration (quirks and
    resolution), give the same outcome of [tick] - the same successor
    state, or the same exception in the same state - whatever the
    random source would have produced in either run. *)
Theorem tick_deterministic_with_display rnd1 rnd2 e1 e2 :
  mem e1 = mem e2 ->
  regs e1 = regs e2 ->
  i_reg e1 = i_reg e2 ->
  pc e1 = pc e2 ->
  stack e1 = stack e2 ->
  sp e1 = sp e2 ->
  sound_timer e1 = sound_timer e2 ->
  delay_timer e1 = delay_timer e2 ->
  kb e1 = kb e2 ->
  kb_interrupt e1 = kb_interrupt e2 ->
  interrupted e1 = interrupted e2 ->
  disp e1 = disp e2 ->
  quirks e1 = quirks e2 ->
  resolution e1 = resolution e2 ->
  (forall w, fetch e1 = Val w e1 -> Z.land w 0xF000 <> 0xC000) ->
  tick rnd1 e1 = tick rnd2 e2.
Proof.
  intros Hm Hr Hi Hp Hst Hs Hsnd Hdl Hk Hki Hit Hd Hq Hres Hw.
  rewrite <- (emulator_ext e1 e2) by assumption.
  apply tick_ignores_random. exact Hw.
Qed.

(** Two runs of 8124 (V1 += V2), from [demo_add] and from a machine
    put together from its attributes, with different random bytes. *)
Lemma tick_deterministic_with_display_witness :
  tick 0 demo_add
  = tick 255 (with_disp (disp demo_add) (with_pc (pc demo_add) demo_add)).
Proof.
  assert (Hf : fetch demo_add = Val 0x8124 demo_add)
    by (vm_compute; reflexivity).
  apply (tick_deterministic_with_display 0 255 demo_add
           (with_disp (disp demo_add) (with_pc (pc demo_add) demo_add)));
    try (vm_compute; reflexivity).
  intros w Hw. rewrite Hf in Hw.
  assert (w = 0x8124) as -> by congruence.
  vm_compute. discriminate.
Defined.

(** The family 0xC is excluded for a reason: [Cxnn] stores the random
    byte masked with nn, so two draws give two values of V1. *)
Lemma tick_random_differs :
  Py.getitem (regs (final (tick 0 demo_random))) 1 = Some 0 /\
  Py.getitem (regs (final (tick 255 demo_random))) 1 = Some 0xAA.
Proof. split; vm_compute; reflexivity. Qed.

(** C10, the claim as stated fails: its list of the state leaves out the
    display, which Dxyn reads.  [demo_glyph] and [demo_lit] agree on
    every attribute of the list, and on the quirks and the resolution;
    they differ in the pixel (3, 4) of the display.  The word at PC is
    D015, not of the family 0xC, and one step leaves VF = 0 in the first
    machine and VF = 1 in the second. *)
Lemma display_decides_collision_flag :
  mem demo_glyph = mem demo_lit /\
  regs demo_glyph = regs demo_lit /\
  i_reg demo_glyph = i_reg demo_lit /\
  pc demo_glyph = pc demo_lit /\
  stack demo_glyph = stack demo_lit /\
  sp demo_glyph = sp demo_lit /\
  sound_timer demo_glyph = sound_timer demo_lit /\
  delay_timer demo_glyph = delay_timer demo_lit /\
  kb demo_glyph = kb demo_lit /\
  kb_interrupt demo_glyph = kb_interrupt demo_lit /\
  interrupted demo_glyph = interrupted demo_lit /\
  quirks demo_glyph = quirks demo_lit /\
  resolution demo_glyph = resolution demo_lit /\
  fetch demo_glyph = Val 0xD015 demo_glyph /\
  fetch demo_lit = Val 0xD015 demo_lit /\
  Z.land 0xD015 0xF000 <> 0xC000 /\
  Py.getitem (disp demo_glyph) 259 = Some 0 /\
  Py.getitem (disp demo_lit) 259 = Some 1 /\
  raised (tick 0 demo_glyph) = None /\
  raised (tick 0 demo_lit) = None /\
  Py.getitem (regs (final (tick 0 demo_glyph))) 0xF = Some 0 /\
  Py.getitem (regs (final (tick 0 demo_lit))) 0xF = Some 1 /\
  tick 0 demo_glyph <> tick 0 demo_lit.
Proof.
  repeat apply conj; try (vm_compute; reflexivity).
  - vm_compute. discriminate.
  - intros H.
    assert (E : Py.getitem (regs (final (tick 0 demo_glyph))) 0xF
                = Py.getitem (regs (final (tick 0 demo_lit))) 0xF)
      by (rewrite H; reflexivity).
    vm_compute in E. discriminate E.
Qed.

(** ** Arithmetic and shifts on registers *)

(** Looking an item up in a list after some writes. *)
Ltac look :=
  repeat first
    [ rewrite getitem_insert_eq by (rewrite ?length_insert; lia)
    | rewrite getitem_insert_ne by (rewrite ?length_insert; lia) ].

(** The common end of 8xy4, 8xy5 and 8xy7: the result [u] is stored,
    the flag is computed from it and stored, the result is masked. *)
Lemma alu_flag_run e x u (f : Z -> Z) :
  length (regs e) = 16%nat ->
  0 <= x < 16 ->
  exists r,
    (reg_set x u ;;;
     r <- reg_get x ;;
     reg_set 0xF (f r) ;;;
     reg_upd x (fun v => Z.land v 0x00FF) ;;; next) e
    = Val FallThrough (with_regs r e) /\
    length r = 16%nat /\
    Py.getitem r 0xF = Some (if x =? 0xF then Z.land (f u) 0x00FF else f u) /\
    (x <> 0xF -> Py.getitem r x = Some (Z.land u 0x00FF)) /\
    (forall j, 0 <= j < 16 -> j <> x -> j <> 0xF ->
       Py.getitem r j = Py.getitem (regs e) j).
Proof.
  intros L Hx.
  rewrite (bind_val _ _ _ _ _ (reg_set_val e x u ltac:(lia))).
  set (e1 := with_regs _ e).
  assert (H1 : Py.getitem (regs e1) x = Some u)
    by (apply getitem_insert_eq; lia).
  rewrite (bind_val _ _ _ _ _ (reg_get_val e1 x u H1)).
  assert (L1 : length (regs e1) = 16%nat)
    by (cbn [regs e1 with_regs]; now rewrite length_insert).
  rewrite (bind_val _ _ _ _ _ (reg_set_val e1 0xF (f u) ltac:(lia))).
  set (e2 := with_regs _ e1).
  assert (L2 : length (regs e2) = 16%nat)
    by (cbn [regs e2 with_regs]; now rewrite length_insert).
  unfold reg_upd. rewrite bind_assoc.
  destruct (Z.eqb_spec x 0xF) as [E|N].
  - assert (H2 : Py.getitem (regs e2) x = Some (f u)).
    { rewrite E. apply (getitem_insert_eq (regs e1) 0xF). lia. }
    rewrite (bind_val _ _ _ _ _ (reg_get_val e2 x _ H2)).
    rewrite (bind_val _ _ _ _ _ (reg_set_val e2 x _ ltac:(lia))).
    eexists. split; [reflexivity|]. cbn [regs e2 e1 with_regs].
    split; [now rewrite !length_insert|].
    split; [rewrite E; look; reflexivity|].
    split; [congruence|].
    intros j Hj N1 N2. now look.
  - assert (H2 : Py.getitem (regs e2) x = Some u).
    { cbn [regs e2 with_regs]. now look. }
    rewrite (bind_val _ _ _ _ _ (reg_get_val e2 x _ H2)).
    rewrite (bind_val _ _ _ _ _ (reg_set_val e2 x _ ltac:(lia))).
    eexists. split; [reflexivity|]. cbn [regs e2 e1 with_regs].
    split; [now rewrite !length_insert|].
    split; [look; reflexivity|].
    split; [intros _; look; reflexivity|].
    intros j Hj N1 N2. now look.
Qed.

Lemma mask_byte v : Z.land v 0x00FF = v mod 256.
Proof. change 0x00FF with (Z.ones 8). now rewrite Z.land_ones by lia. Qed.

(** X6: 8xy5 and 8xy7: the difference is Vx - Vy for 8xy5 and Vy - Vx for
    8xy7; VF is 1 when it is not negative (no borrow) and 0 when it
    is, Vx is the difference modulo 256 unless x is 0xF, and no other
    register changes. *)
Theorem subtract_sets_no_borrow_flag rnd e w a b :
  length (regs e) = 16%nat ->
  fetch e = Val w e ->
  Z.land w 0xF000 = 0x8000 ->
  Z.land w 0x000F = 0x5 \/ Z.land w 0x000F = 0x7 ->
  Py.getitem (regs e) (Z.shiftr (Z.land w 0x0F00) 8) = Some a ->
  Py.getitem (regs e) (Z.shiftr (Z.land w 0x00F0) 4) = Some b ->
  exists e',
    tick rnd e = Val tt e' /\
    Py.getitem (regs e') 0xF
    = Some (if (if Z.land w 0x000F =? 0x5 then a - b else b - a) <? 0
            then 0 else 1) /\
    (Z.shiftr (Z.land w 0x0F00) 8 <> 0xF ->
     Py.getitem (regs e') (Z.shiftr (Z.land w 0x0F00) 8)
     = Some ((if Z.land w 0x000F =? 0x5 then a - b else b - a) mod 256)) /\
    (forall j, 0 <= j < 16 -> j <> Z.shiftr (Z.land w 0x0F00) 8 ->
       j <> 0xF -> Py.getitem (regs e') j = Py.getitem (regs e) j).
Proof.
  intros L Hf Hfam Hlow Ha Hb.
  pose proof (nibble_x_range w) as Hx.
  set (x := Z.shiftr (Z.land w 0x0F00) 8) in *.
  set (y := Z.shiftr (Z.land w 0x00F0) 4) in *.
  rewrite (tick_decode _ _ _ Hf). fold x y.
  unfold dispatch. rewrite Hfam. cbv iota beta.
  set (e1 := with_pc (pc e + 2) e).
  pose (f := fun r : Z => if r <? 0 then 0 else 1).
  assert (Hflag : forall u, (if x =? 0xF then Z.land (f u) 0x00FF else f u)
                            = f u).
  { intros u. unfold f. destruct (x =? 0xF), (u <? 0); reflexivity. }
  unfold op_8. destruct Hlow as [Hlow|Hlow]; rewrite Hlow; cbv iota beta;
    cbn [Z.eqb Pos.eqb].
  - destruct (alu_flag_run e1 x (a - b) f L Hx)
      as (r & R & Lr & HF & HX & Hrest).
    rewrite bind_assoc, (bind_val _ _ _ _ _ (reg_get_val e1 x a Ha)).
    rewrite bind_assoc, (bind_val _ _ _ _ _ (reg_get_val e1 y b Hb)).
    unfold f in R. rewrite (bind_val _ _ _ _ _ R).
    eexists. split; [reflexivity|]. cbn [regs with_regs with_kb_interrupt].
    rewrite HF, Hflag. split; [reflexivity|].
    split; [intros N; rewrite (HX N), mask_byte; reflexivity|exact Hrest].
  - destruct (alu_flag_run e1 x (b - a) f L Hx)
      as (r & R & Lr & HF & HX & Hrest).
    rewrite bind_assoc, (bind_val _ _ _ _ _ (reg_get_val e1 y b Hb)).
    rewrite bind_assoc, (bind_val _ _ _ _ _ (reg_get_val e1 x a Ha)).
    unfold f in R. rewrite (bind_val _ _ _ _ _ R).
    eexists. split; [reflexivity|]. cbn [regs with_regs with_kb_interrupt].
    rewrite HF, Hflag. split; [reflexivity|].
    split; [intros N; rewrite (HX N), mask_byte; reflexivity|exact Hrest].
Qed.

Lemma subtract_sets_no_borrow_flag_witness :
  exists e',
    tick 0 demo_sub = Val tt e' /\
    Py.getitem (regs e') 0xF = Some 0 /\
    (0 <> 0xF -> Py.getitem (regs e') 0 = Some 254) /\
    (forall j, 0 <= j < 16 -> j <> 0 -> j <> 0xF ->
       Py.getitem (regs e') j = Py.getitem (regs demo_sub) j).
Proof.
  apply (subtract_sets_no_borrow_flag 0 demo_sub 0x8015 5 7).
  - vm_compute. reflexivity.
  - vm_compute. reflexivity.
  - vm_compute. reflexivity.
  - left. vm_compute. reflexivity.
  - vm_compute. reflexivity.
  - vm_compute. reflexivity.
Defined.

(** The common end of 8xy6 and 8xyE: [g] shifts, [h] picks the bit
    that goes to VF. *)
Lemma shift_tail_run e x s (g h : Z -> Z) :
  length (regs e) = 16%nat ->
  0 <= x < 16 ->
  Py.getitem (regs e) x = Some s ->
  exists r,
    (Rx <- reg_get x ;;
     reg_upd x g ;;;
     reg_set 0xF (h Rx) ;;;
     reg_upd x (fun v => Z.land v 0x00FF) ;;; next) e
    = Val FallThrough (with_regs r e) /\
    length r = 16%nat /\
    Py.getitem r 0xF = Some (if x =? 0xF then Z.land (h s) 0x00FF else h s) /\
    (x <> 0xF -> Py.getitem r x = Some (Z.land (g s) 0x00FF)) /\
    (forall j, 0 <= j < 16 -> j <> x -> j <> 0xF ->
       Py.getitem r j = Py.getitem (regs e) j).
Proof.
  intros L Hx Hs.
  rewrite (bind_val _ _ _ _ _ (reg_get_val e x s Hs)).
  unfold reg_upd at 1. rewrite bind_assoc.
  rewrite (bind_val _ _ _ _ _ (reg_get_val e x s Hs)).
  rewrite (bind_val _ _ _ _ _ (reg_set_val e x (g s) ltac:(lia))).
  set (e1 := with_regs _ e).
  assert (L1 : length (regs e1) = 16%nat)
    by (cbn [regs e1 with_regs]; now rewrite length_insert).
  rewrite (bind_val _ _ _ _ _ (reg_set_val e1 0xF (h s) ltac:(lia))).
  set (e2 := with_regs _ e1).
  assert (L2 : length (regs e2) = 16%nat)
    by (cbn [regs e2 with_regs]; now rewrite length_insert).
  unfold reg_upd. rewrite bind_assoc.
  destruct (Z.eqb_spec x 0xF) as [E|N].
  - assert (H2 : Py.getitem (regs e2) x = Some (h s)).
    { rewrite E. apply (getitem_insert_eq (regs e1) 0xF). lia. }
    rewrite (bind_val _ _ _ _ _ (reg_get_val e2 x _ H2)).
    rewrite (bind_val _ _ _ _ _ (reg_set_val e2 x _ ltac:(lia))).
    eexists. split; [reflexivity|]. cbn [regs e2 e1 with_regs].
    split; [now rewrite !length_insert|].
    split; [rewrite E; look; reflexivity|].
    split; [congruence|].
    intros j Hj N1 N2. now look.
  - assert (H2 : Py.getitem (regs e2) x = Some (g s)).
    { cbn [regs e2 e1 with_regs]. now look. }
    rewrite (bind_val _ _ _ _ _ (reg_get_val e2 x _ H2)).
    rewrite (bind_val _ _ _ _ _ (reg_set_val e2 x _ ltac:(lia))).
    eexists. split; [reflexivity|]. cbn [regs e2 e1 with_regs].
    split; [now rewrite !length_insert|].
    split; [look; reflexivity|].
    split; [intros _; look; reflexivity|].
    intros j Hj N1 N2. now look.
Qed.

(** [shift_source]: with the quirk off, Vy is copied to Vx first. *)
Lemma shift_source_run e x y a b :
  length (regs e) = 16%nat ->
  0 <= x < 16 ->
  Py.getitem (regs e) x = Some a ->
  Py.getitem (regs e) y = Some b ->
  exists r,
    shift_source x y e = Val tt (with_regs r e) /\
    length r = 16%nat /\
    Py.getitem r x = Some (if QUIRK_shifting (quirks e) then a else b) /\
    (forall j, 0 <= j < 16 -> j <> x -> Py.getitem r j = Py.getitem (regs e) j).
Proof.
  intros L Hx Ha Hb. unfold shift_source. rewrite bind_gets.
  destruct (QUIRK_shifting (quirks e)); cbn [negb].
  - exists (regs e). split; [now destruct e|]. auto.
  - rewrite (bind_val _ _ _ _ _ (reg_get_val e y b Hb)).
    rewrite (reg_set_val e x b ltac:(lia)).
    eexists. split; [reflexivity|].
    split; [now rewrite length_insert|].
    split; [now look|]. intros j Hj N. now look.
Qed.

(** X7: 8xy6 and 8xyE: the value shifted is Vy with the shifting quirk off
    and Vx with it on.  8xy6 leaves its low bit in VF and its half in
    Vx; 8xyE leaves its bit 7 in VF and its double modulo 256 in Vx
    (Vx unless x is 0xF).  No register other than Vx and VF changes. *)
Theorem shift_moves_bit_to_vf rnd e w a b :
  length (regs e) = 16%nat ->
  fetch e = Val w e ->
  Z.land w 0xF000 = 0x8000 ->
  Z.land w 0x000F = 0x6 \/ Z.land w 0x000F = 0xE ->
  Py.getitem (regs e) (Z.shiftr (Z.land w 0x0F00) 8) = Some a ->
  Py.getitem (regs e) (Z.shiftr (Z.land w 0x00F0) 4) = Some b ->
  0 <= (if QUIRK_shifting (quirks e) then a else b) <= 255 ->
  exists e',
    tick rnd e = Val tt e' /\
    Py.getitem (regs e') 0xF
    = Some (if Z.land w 0x000F =? 0x6
            then (if QUIRK_shifting (quirks e) then a else b) mod 2
            else (if QUIRK_shifting (quirks e) then a else b) / 128) /\
    (Z.shiftr (Z.land w 0x0F00) 8 <> 0xF ->
     Py.getitem (regs e') (Z.shiftr (Z.land w 0x0F00) 8)
     = Some (if Z.land w 0x000F =? 0x6
             then (if QUIRK_shifting (quirks e) then a else b) / 2
             else (2 * (if QUIRK_shifting (quirks e) then a else b))
                  mod 256)) /\
    (forall j, 0 <= j < 16 -> j <> Z.shiftr (Z.land w 0x0F00) 8 ->
       j <> 0xF -> Py.getitem (regs e') j = Py.getitem (regs e) j).
Proof.
  intros L Hf Hfam Hlow Ha Hb Hsrc.
  pose proof (nibble_x_range w) as Hx.
  set (x := Z.shiftr (Z.land w 0x0F00) 8) in *.
  set (y := Z.shiftr (Z.land w 0x00F0) 4) in *.
  set (src := if QUIRK_shifting (quirks e) then a else b) in *.
  rewrite (tick_decode _ _ _ Hf). fold x y.
  unfold dispatch. rewrite Hfam. cbv iota beta.
  set (e1 := with_pc (pc e + 2) e).
  destruct (shift_source_run e1 x y a b L Hx Ha Hb)
    as (r1 & R1 & L1 & H1 & F1).
  cbn [quirks e1 with_pc] in H1. fold src in H1.
  unfold op_8. destruct Hlow as [Hlow|Hlow]; rewrite Hlow; cbv iota beta;
    cbn [Z.eqb Pos.eqb].
  - destruct (shift_tail_run (with_regs r1 e1) x src
                (fun v => Z.shiftr v 1) (fun v => Z.land v 0x0001) L1 Hx H1)
      as (r & R & Lr & HF & HX & Hrest).
    rewrite bind_assoc, (bind_val _ _ _ _ _ R1).
    rewrite (bind_val _ _ _ _ _ R).
    eexists. split; [reflexivity|]. cbn [regs with_regs with_kb_interrupt].
    assert (Hbit : Z.land src 0x0001 = src mod 2).
    { change 0x0001 with (Z.ones 1). now rewrite Z.land_ones by lia. }
    split.
    { rewrite HF, Hbit. destruct (x =? 0xF); [|reflexivity].
      rewrite mask_byte. f_equal. zmod. }
    split.
    { intros N. rewrite (HX N), mask_byte, Z.shiftr_div_pow2 by lia.
      f_equal. change (2 ^ 1) with 2. zmod. }
    intros j Hj N1 N2. rewrite (Hrest j Hj N1 N2). cbn [regs with_regs].
    now apply F1.
  - destruct (shift_tail_run (with_regs r1 e1) x src
                (fun v => Z.shiftl v 1)
                (fun v => Z.shiftr (Z.land v 0x0080) 7) L1 Hx H1)
      as (r & R & Lr & HF & HX & Hrest).
    rewrite bind_assoc, (bind_val _ _ _ _ _ R1).
    rewrite (bind_val _ _ _ _ _ R).
    eexists. split; [reflexivity|]. cbn [regs with_regs with_kb_interrupt].
    assert (Hbit : Z.shiftr (Z.land src 0x0080) 7 = src / 128).
    { rewrite Z.shiftr_land. change (Z.shiftr 0x0080 7) with (Z.ones 1).
      rewrite Z.land_ones, Z.shiftr_div_pow2 by lia.
      change (2 ^ 7) with 128. change (2 ^ 1) with 2. zmod. }
    split.
    { rewrite HF, Hbit. destruct (x =? 0xF); [|reflexivity].
      rewrite mask_byte. f_equal. zmod. }
    split.
    { intros N. rewrite (HX N), mask_byte, Z.shiftl_mul_pow2 by lia.
      f_equal. change (2 ^ 1) with 2. f_equal. lia. }
    intros j Hj N1 N2. rewrite (Hrest j Hj N1 N2). cbn [regs with_regs].
    now apply F1.
Qed.

Lemma shift_moves_bit_to_vf_witness :
  exists e',
    tick 0 demo_shift = Val tt e' /\
    Py.getitem (regs e') 0xF = Some 1 /\
    (0 <> 0xF -> Py.getitem (regs e') 0 = Some 0x40) /\
    (forall j, 0 <= j < 16 -> j <> 0 -> j <> 0xF ->
       Py.getitem (regs e') j = Py.getitem (regs demo_shift) j).
Proof.
  apply (shift_moves_bit_to_vf 0 demo_shift 0x8016 5 0x81).
  - vm_compute. reflexivity.
  - vm_compute. reflexivity.
  - vm_compute. reflexivity.
  - left. vm_compute. reflexivity.
  - vm_compute. reflexivity.
  - vm_compute. reflexivity.
  - vm_compute. split; discriminate.
Defined.

(** X8: 7xnn: Vx becomes (Vx + nn) mod 256 and nothing else changes in the
    registers: no carry goes to VF. *)
Theorem add_immediate_has_no_carry rnd e w a :
  length (regs e) = 16%nat ->
  fetch e = Val w e ->
  Z.land w 0xF000 = 0x7000 ->
  Py.getitem (regs e) (Z.shiftr (Z.land w 0x0F00) 8) = Some a ->
  exists e',
    tick rnd e = Val tt e' /\
    Py.getitem (regs e') (Z.shiftr (Z.land w 0x0F00) 8)
    = Some ((a + Z.land w 0x00FF) mod 256) /\
    (forall j, 0 <= j < 16 -> j <> Z.shiftr (Z.land w 0x0F00) 8 ->
       Py.getitem (regs e') j = Py.getitem (regs e) j).
Proof.
  intros L Hf Hfam Ha.
  pose proof (nibble_x_range w) as Hx.
  set (x := Z.shiftr (Z.land w 0x0F00) 8) in *.
  rewrite (tick_decode _ _ _ Hf). fold x.
  unfold dispatch. rewrite Hfam. cbv iota beta.
  set (e1 := with_pc (pc e + 2) e).
  unfold reg_upd. rewrite !bind_assoc.
  rewrite (bind_val _ _ _ _ _ (reg_get_val e1 x a Ha)).
  rewrite (bind_val _ _ _ _ _ (reg_set_val e1 x _ ltac:(cbn; lia))).
  set (e2 := with_regs _ e1).
  assert (H2 : Py.getitem (regs e2) x = Some (a + Z.land w 0x00FF))
    by (apply getitem_insert_eq; cbn; lia).
  rewrite ?bind_assoc, (bind_val _ _ _ _ _ (reg_get_val e2 x _ H2)).
  rewrite (bind_val _ _ _ _ _
             (reg_set_val e2 x _
                ltac:(cbn [regs e2 e1 with_regs with_pc];
                      rewrite length_insert; lia))).
  eexists. split; [reflexivity|].
  cbn [regs e2 e1 with_regs with_pc with_kb_interrupt].
  split; [look; now rewrite mask_byte|].
  intros j Hj N. now look.
Qed.

Lemma add_immediate_has_no_carry_witness :
  exists e',
    tick 0 demo_add_imm = Val tt e' /\
    Py.getitem (regs e') 0 = Some 1 /\
    (forall j, 0 <= j < 16 -> j <> 0 ->
       Py.getitem (regs e') j = Py.getitem (regs demo_add_imm) j).
Proof.
  apply (add_immediate_has_no_carry 0 demo_add_imm 0x7002 255).
  - vm_compute. reflexivity.
  - vm_compute. reflexivity.
  - vm_compute. reflexivity.
  - vm_compute. reflexivity.
Defined.

(** ** What a step leaves alone *)

(** *** Fields no assignment of [tick] names *)

Section Untouched.

Context {A : Type} (f : Emulator -> A).
Hypothesis Hmem : forall v e, f (with_mem v e) = f e.
Hypothesis Hregs : forall v e, f (with_regs v e) = f e.
Hypothesis Hi : forall v e, f (with_i_reg v e) = f e.
Hypothesis Hpc : forall v e, f (with_pc v e) = f e.
Hypothesis Hstack : forall v e, f (with_stack v e) = f e.
Hypothesis Hsp : forall v e, f (with_sp v e) = f e.
Hypothesis Hsound : forall v e, f (with_sound_timer v e) = f e.
Hypothesis Hdelay : forall v e, f (with_delay_timer v e) = f e.
Hypothesis Hlatch : forall v e, f (with_kb_interrupt v e) = f e.
Hypothesis Hintr : forall v e, f (with_interrupted v e) = f e.
Hypothesis Hdisp : forall v e, f (with_disp v e) = f e.

Lemma op_0_untouched w : keeps f (op_0 w).
Proof. unfold op_0. by_cases (Z.land w 0x00FF) ltac:(frame). Qed.

Lemma op_2_untouched w : keeps f (op_2 w).
Proof. unfold op_2. frame. Qed.

Lemma op_8_untouched x y w : keeps f (op_8 x y w).
Proof. unfold op_8. by_cases (Z.land w 0x000F) ltac:(frame). Qed.

Lemma op_D_untouched x y w : keeps f (op_D x y w).
Proof. unfold op_D. frame. Qed.

Lemma op_E_untouched x w : keeps f (op_E x w).
Proof. unfold op_E. by_cases (Z.land w 0x00FF) ltac:(frame). Qed.

Lemma op_F_untouched x w : keeps f (op_F x w).
Proof. unfold op_F. by_cases (Z.land w 0x00FF) ltac:(frame). Qed.

Lemma dispatch_untouched rnd x y w : keeps f (dispatch rnd x y w).
Proof.
  unfold dispatch.
  pose proof (op_0_untouched w). pose proof (op_2_untouched w).
  pose proof (op_8_untouched x y w). pose proof (op_D_untouched x y w).
  pose proof (op_E_untouched x w). pose proof (op_F_untouched x w).
  by_cases (Z.land w 0xF000) ltac:(first [assumption | frame]).
Qed.

Lemma tick_untouched rnd : keeps f (tick rnd).
Proof.
  unfold tick. pose proof dispatch_untouched as Hd.
  apply keeps_bind; [frame|intros w].
  apply keeps_bind; [frame|intros _].
  apply keeps_bind; [apply Hd|intros how].
  destruct how; frame.
Qed.

End Untouched.

(** X4: A step never changes the quirks, the resolution or the states of
    the keys, whatever the instruction and whether it returns or
    raises. *)
Theorem tick_keeps_configuration_and_keys rnd e :
  quirks (final (tick rnd e)) = quirks e /\
  resolution (final (tick rnd e)) = resolution e /\
  kb (final (tick rnd e)) = kb e.
Proof.
  repeat apply conj; apply tick_untouched; reflexivity.
Qed.

(** *** Memory, display and stack: which instructions write them *)

(** As [by_cases], with a fact about the number carried along. *)
Ltac by_cases_with H z tac :=
  revert H; generalize z; let b := fresh "b" in intros b;
  destruct b as [|?p|?p]; try (solve [intros H; tac]);
  repeat (match goal with p : positive |- _ => destruct p as [p|p|] end;
          try (solve [intros H; tac])).

Ltac frame_or_absurd H :=
  first [ exfalso; cbn in H; discriminate H | frame ].

Lemma op_F_keeps_mem x w :
  (Z.land w 0x00FF =? 0x33) || (Z.land w 0x00FF =? 0x55) = false ->
  keeps mem (op_F x w).
Proof.
  intros H. unfold op_F.
  by_cases_with H (Z.land w 0x00FF) ltac:(frame_or_absurd H).
Qed.

Lemma dispatch_keeps_mem rnd x y w :
  writes_mem w = false -> keeps mem (dispatch rnd x y w).
Proof.
  unfold writes_mem. intros H.
  assert (F : Z.land w 0xF000 = 0xF000 -> keeps mem (op_F x w)).
  { intros E. rewrite E in H. apply op_F_keeps_mem. exact H. }
  clear H. unfold dispatch.
  by_cases_with F (Z.land w 0xF000)
    ltac:(first [ apply F; reflexivity
                | apply op_0_untouched; reflexivity
                | apply op_2_untouched; reflexivity
                | apply op_8_untouched; reflexivity
                | apply op_D_untouched; reflexivity
                | apply op_E_untouched; reflexivity
                | frame ]).
Qed.

Lemma op_0_keeps_disp w :
  (Z.land w 0x00FF =? 0xE0) = false -> keeps disp (op_0 w).
Proof.
  intros H. unfold op_0.
  by_cases_with H (Z.land w 0x00FF) ltac:(frame_or_absurd H).
Qed.

Lemma dispatch_keeps_disp rnd x y w :
  writes_disp w = false -> keeps disp (dispatch rnd x y w).
Proof.
  unfold writes_disp. intros H.
  assert (F : Z.land w 0xF000 = 0x0000 -> keeps disp (op_0 w)).
  { intros E. rewrite E in H. apply op_0_keeps_disp.
    destruct (Z.land w 0x00FF =? 0xE0); [discriminate H|reflexivity]. }
  assert (G : Z.land w 0xF000 <> 0xD000).
  { intros E. rewrite E in H. rewrite Z.eqb_refl, orb_true_r in H.
    discriminate H. }
  clear H. unfold dispatch. revert G.
  by_cases_with F (Z.land w 0xF000)
    ltac:(intros G;
          first [ apply F; reflexivity
                | exfalso; apply G; reflexivity
                | apply op_2_untouched; reflexivity
                | apply op_8_untouched; reflexivity
                | apply op_E_untouched; reflexivity
                | apply op_F_untouched; reflexivity
                | frame ]).
Qed.

Lemma dispatch_keeps_stack rnd x y w :
  writes_stack w = false -> keeps stack (dispatch rnd x y w).
Proof.
  unfold writes_stack. intros H. apply Z.eqb_neq in H.
  unfold dispatch.
  by_cases_with H (Z.land w 0xF000)
    ltac:(first [ exfalso; apply H; reflexivity
                | apply op_0_untouched; reflexivity
                | apply op_8_untouched; reflexivity
                | apply op_D_untouched; reflexivity
                | apply op_E_untouched; reflexivity
                | apply op_F_untouched; reflexivity
                | frame ]).
Qed.

Lemma tick_keeps_from_dispatch {A : Type} (f : Emulator -> A) rnd e w :
  (forall v e, f (with_pc v e) = f e) ->
  (forall v e, f (with_kb_interrupt v e) = f e) ->
  fetch e = Val w e ->
  keeps f (dispatch rnd (Z.shiftr (Z.land w 0x0F00) 8)
             (Z.shiftr (Z.land w 0x00F0) 4) w) ->
  f (final (tick rnd e)) = f e.
Proof.
  intros Hpc Hl Hf Hd. rewrite (tick_decode _ _ _ Hf).
  assert (K : keeps f
                (bind (dispatch rnd (Z.shiftr (Z.land w 0x0F00) 8)
                         (Z.shiftr (Z.land w 0x00F0) 4) w)
                   (fun how => match how with
                               | FallThrough => modify (with_kb_interrupt None)
                               | Return => ret tt
                               end))).
  { apply keeps_bind; [exact Hd|]. intros []; frame. }
  rewrite K. apply Hpc.
Qed.

(** X5: Which steps can write what: memory is written only by Fx33 and
    Fx55, the display only by 00E0 and Dxyn, the stack only by 2nnn.
    After any other instruction the array is the one before the step,
    whether the step returned or raised. *)
Theorem tick_writes_only_where_named rnd e w :
  fetch e = Val w e ->
  (writes_mem w = false -> mem (final (tick rnd e)) = mem e) /\
  (writes_disp w = false -> disp (final (tick rnd e)) = disp e) /\
  (writes_stack w = false -> stack (final (tick rnd e)) = stack e).
Proof.
  intros Hf. repeat apply conj; intros H;
    apply (tick_keeps_from_dispatch _ rnd e w); try reflexivity;
    try exact Hf.
  - now apply dispatch_keeps_mem.
  - now apply dispatch_keeps_disp.
  - now apply dispatch_keeps_stack.
Qed.

Lemma tick_writes_only_where_named_witness :
  (writes_mem 0x6005 = false ->
   mem (final (tick 0 demo_plain)) = mem demo_plain) /\
  (writes_disp 0x6005 = false ->
   disp (final (tick 0 demo_plain)) = disp demo_plain) /\
  (writes_stack 0x6005 = false ->
   stack (final (tick 0 demo_plain)) = stack demo_plain).
Proof.
  apply (tick_writes_only_where_named 0 demo_plain 0x6005).
  vm_compute. reflexivity.
Defined.

(** ** The shape of the machine is kept *)

Lemma wp_bind {A B : Type} (m : M A) (k : A -> M B) Q e :
  wp m (fun a e' => wp (k a) Q e') e -> wp (bind m k) Q e.
Proof. unfold wp, bind. now destruct (m e). Qed.

Lemma wp_ret {A : Type} (a : A) (Q : A -> Emulator -> Prop) e :
  Q a e -> wp (ret a) Q e.
Proof. exact id. Qed.

Lemma wp_raise {A : Type} x (Q : A -> Emulator -> Prop) e : wp (raise x) Q e.
Proof. exact I. Qed.

Lemma wp_gets {A : Type} (f : Emulator -> A) (Q : A -> Emulator -> Prop) e :
  Q (f e) e -> wp (gets f) Q e.
Proof. exact id. Qed.

Lemma wp_modify (g : Emulator -> Emulator) (Q : unit -> Emulator -> Prop) e :
  Q tt (g e) -> wp (modify g) Q e.
Proof. exact id. Qed.

Lemma wp_lift_index {A : Type} (o : option A) (Q : A -> Emulator -> Prop) e :
  (forall a, o = Some a -> Q a e) -> wp (lift_index o) Q e.
Proof. intros H. destruct o; [now apply H|exact I]. Qed.

Lemma wp_py_mod a b (Q : Z -> Emulator -> Prop) e :
  (b <> 0 -> Q (a mod b) e) -> wp (py_mod a b) Q e.
Proof.
  intros H. unfold py_mod. destruct (Z.eqb_spec b 0); [exact I|now apply H].
Qed.

Lemma wp_preserved {A : Type} (m : M A) (Q : A -> Emulator -> Prop) e :
  preserves m -> machine_ok e ->
  (forall a e', machine_ok e' -> Q a e') -> wp m Q e.
Proof.
  intros Hm Hok HQ. specialize (Hm e Hok). unfold wp in *.
  destruct (m e); [now apply HQ|exact I].
Qed.

(** What a successful write leaves: the same list with one item
    replaced. *)
Lemma setitem_inv l i v l' :
  Py.setitem l i v = Some l' ->
  exists k, Py.index (length l) i = Some k /\ (k < length l)%nat /\
            l' = <[k := v]> l.
Proof.
  unfold Py.setitem. destruct (Py.index (length l) i) as [k|] eqn:E;
    [|discriminate].
  intros [= <-]. exists k. split; [reflexivity|].
  split; [now apply index_lt in E|reflexivity].
Qed.

Lemma getitem_inv l i v :
  Py.getitem l i = Some v ->
  exists k, Py.index (length l) i = Some k /\ l !! k = Some v.
Proof.
  unfold Py.getitem. destruct (Py.index (length l) i) as [k|] eqn:E;
    [|discriminate].
  intros H. now exists k.
Qed.

Lemma getitem_Forall (P : Z -> Prop) l i v :
  Forall P l -> Py.getitem l i = Some v -> P v.
Proof.
  intros HF H. apply getitem_inv in H as (k & _ & Hk).
  exact (Forall_lookup_1 _ _ _ _ HF Hk).
Qed.

Lemma setitem_Forall (P : Z -> Prop) l i v l' :
  Forall P l -> P v -> Py.setitem l i v = Some l' -> Forall P l'.
Proof.
  intros HF Hv H. apply setitem_inv in H as (k & _ & _ & ->).
  now apply Forall_insert.
Qed.

(** Bounds of the values the instructions compute. *)
Lemma byte_mask v : is_byte (Z.land v 0x00FF).
Proof. unfold is_byte. rewrite mask_byte. zmod. Qed.

Lemma byte_land a b : is_byte b -> is_byte (Z.land a b).
Proof.
  intros Hb.
  assert (E : Z.land a b = Z.land (Z.land a b) 0x00FF).
  { rewrite <- Z.land_assoc. f_equal. rewrite mask_byte.
    unfold is_byte in Hb. symmetry. apply Z.mod_small. lia. }
  rewrite E. apply byte_mask.
Qed.

Lemma byte_lor a b : is_byte a -> is_byte b -> is_byte (Z.lor a b).
Proof.
  intros Ha Hb.
  assert (E : Z.lor a b = Z.land (Z.lor a b) 0x00FF).
  { rewrite Z.land_lor_distr_l, !mask_byte.
    unfold is_byte in *. now rewrite !Z.mod_small by lia. }
  rewrite E. apply byte_mask.
Qed.

Lemma byte_lxor a b : is_byte a -> is_byte b -> is_byte (Z.lxor a b).
Proof.
  intros Ha Hb.
  assert (Ea : a = Z.land a 0x00FF)
    by (rewrite mask_byte; unfold is_byte in Ha; now rewrite Z.mod_small by lia).
  assert (Eb : b = Z.land b 0x00FF)
    by (rewrite mask_byte; unfold is_byte in Hb; now rewrite Z.mod_small by lia).
  assert (E : Z.lxor (Z.land a 0x00FF) (Z.land b 0x00FF)
              = Z.land (Z.lxor (Z.land a 0x00FF) (Z.land b 0x00FF)) 0x00FF).
  { apply Z.bits_inj'. intros n Hn.
    rewrite !Z.land_spec, !Z.lxor_spec, !Z.land_spec.
    now destruct (Z.testbit a n), (Z.testbit b n), (Z.testbit 0x00FF n). }
  rewrite Ea, Eb, E. apply byte_mask.
Qed.

Lemma address_mask v : 0 <= Z.land v 0x0FFF <= 0x0FFF.
Proof.
  assert (E : Z.land v 0x0FFF = v mod 4096)
    by (change 0x0FFF with (Z.ones 12); now rewrite Z.land_ones by lia).
  rewrite E. zmod.
Qed.

Lemma byte_top_bit v : is_byte (Z.shiftr (Z.land v 0x0080) 7).
Proof.
  assert (H : is_byte (Z.land v 0x0080)) by (apply byte_land; unfold is_byte; lia).
  unfold is_byte in *. rewrite Z.shiftr_div_pow2 by lia.
  change (2 ^ 7) with 128. zmod.
Qed.

(** One step of the computation of a weakest precondition. *)
Ltac wp_step :=
  match goal with
  | |- wp (bind _ _) _ _ => apply wp_bind
  | |- wp (ret _) _ _ => apply wp_ret
  | |- wp (raise _) _ _ => apply wp_raise
  | |- wp (gets _) _ _ => apply wp_gets
  | |- wp (modify _) _ _ => apply wp_modify
  | |- wp (lift_index _) _ _ =>
      let a := fresh "a" in let H := fresh "Hitem" in
      apply wp_lift_index; intros a H
  | |- wp (py_mod _ _) _ _ =>
      let H := fresh "Hnz" in apply wp_py_mod; intros H
  | |- wp (if ?b then _ else _) _ _ =>
      let E := fresh "Eb" in destruct b eqn:E
  | |- wp (match ?o with Some _ => _ | None => _ end) _ _ =>
      let E := fresh "Eo" in destruct o eqn:E
  end; cbv beta.

Ltac wp_unfold :=
  unfold next, vf_reset, shift_source, reg_upd, pc_add;
  unfold mem_get, mem_set, reg_get, reg_set, stack_get, stack_set, kb_get,
    disp_get, disp_set.

Ltac wp_run := wp_unfold; repeat wp_step.

Ltac proj :=
  cbn [quirks resolution mem regs i_reg pc stack sp kb sound_timer
       delay_timer kb_interrupt interrupted disp
       with_mem with_regs with_i_reg with_pc with_stack with_sp with_kb
       with_sound_timer with_delay_timer with_kb_interrupt with_interrupted
       with_disp] in *.

(** Turns the hypotheses on successful writes into equations, with the
    positions written. *)
Ltac writes :=
  repeat match goal with
         | H : Py.setitem ?l ?i ?v = Some ?l' |- _ =>
             let k := fresh "k" in let Hk := fresh "Hk" in
             let Hlt := fresh "Hlt" in
             apply setitem_inv in H as (k & Hk & Hlt & ->)
         end;
  repeat match goal with
         | H : context [length (<[_ := _]> _)] |- _ =>
             rewrite length_insert in H
         end.

Ltac byte_tac :=
  first
    [ assumption
    | apply byte_mask
    | apply byte_top_bit
    | eapply getitem_Forall; [|eassumption]; eassumption
    | apply byte_lor; byte_tac
    | apply byte_lxor; byte_tac
    | apply byte_land; byte_tac
    | unfold is_byte in *;
      repeat match goal with |- context [if ?b then _ else _] => destruct b end;
      first [lia | zmod] ].

(** Every item of a list written at some positions has the property,
    when the surviving writes and the items of the list it comes from
    have it. *)
Ltac forall_tac tac :=
  apply Forall_lookup; intros ?i ?v ?Hl;
  repeat match goal with
         | H : <[_ := _]> _ !! _ = Some _ |- _ =>
             apply list_lookup_insert_Some in H as [(? & ? & ?)|(? & H)]
         end;
  subst;
  first
    [ congruence
    | match goal with
      | HF : Forall ?P ?l, H : ?l !! _ = Some ?v |- _ =>
          exact (Forall_lookup_1 _ _ _ _ HF H)
      end
    | tac ].

Ltac nonneg_tac :=
  repeat first
    [ assumption
    | lia
    | apply Z.lor_nonneg; split
    | apply Z.shiftl_nonneg
    | apply Z.shiftr_nonneg
    | apply Z.land_nonneg; right; lia
    | match goal with
      | HF : Forall (fun v => 0 <= v) ?l, H : Py.getitem ?l _ = Some ?v
        |- 0 <= ?v => exact (getitem_Forall _ _ _ _ HF H)
      end ].

(** Adds what the shape of the machine says of the items read. *)
Ltac facts :=
  repeat match goal with
         | HF : Forall is_byte ?l, H : Py.getitem ?l _ = Some ?v |- _ =>
             lazymatch goal with
             | _ : is_byte v |- _ => fail
             | _ => pose proof (getitem_Forall _ _ _ _ HF H)
             end
         end.

Lemma blank_bits res : Forall is_bit (blank_display res).
Proof.
  unfold blank_display. apply Forall_forall. intros v Hv.
  apply list_elem_of_In, repeat_spec in Hv. now left.
Qed.

Ltac ok_tac :=
  match goal with
  | Hok : machine_ok _ |- _ => destruct Hok
  end;
  proj; facts; writes;
  constructor; proj; rewrite ?length_insert;
  first
    [ assumption
    | match goal with
      | |- Forall is_bit (blank_display _) => apply blank_bits
      | |- Forall is_byte _ => forall_tac byte_tac
      | |- Forall is_bit _ =>
          forall_tac ltac:(unfold is_bit, Py.int_not;
                           repeat match goal with
                                  | |- context [if ?b then _ else _] =>
                                      destruct b
                                  end; auto)
      | |- Forall _ _ => forall_tac ltac:(cbv beta; nonneg_tac)
      | |- is_byte _ => byte_tac
      | |- forall k, _ = Some k -> _ =>
          let H := fresh in intros ? H; first [discriminate H | injection H as <-; lia | eauto]
      | |- _ =>
          first [ apply address_mask | lia | zmod | solve [nonneg_tac]
                | unfold is_byte in *; lia ]
      end ].

Lemma sp_move_preserves d : preserves (sp_move d).
Proof.
  intros e Hok. unfold sp_move. wp_run. destruct Hok. proj.
  constructor; proj; try assumption. zmod.
Qed.

Lemma update_timers_preserves : preserves update_timers.
Proof.
  intros e Hok. unfold update_timers. wp_run; ok_tac.
Qed.

Lemma advance_i_preserves x : preserves (advance_i x).
Proof.
  intros e Hok. unfold advance_i. wp_run; ok_tac.
Qed.

Lemma preserves_for_in (l : list Z) (body : Z -> M unit) :
  (forall i, preserves (body i)) -> preserves (for_in l body).
Proof.
  intros H. induction l as [|i l IH]; intros e Hok; cbn [for_in].
  - exact Hok.
  - apply wp_bind. apply (wp_preserved _ _ _ (H i) Hok).
    intros _ e' Hok'. now apply IH.
Qed.

Lemma preserves_for_in_acc {A : Type} (l : list Z) (body : Z -> A -> M A) :
  (forall i a, preserves (body i a)) ->
  forall a, preserves (for_in_acc l body a).
Proof.
  intros H. induction l as [|i l IH]; intros a e Hok; cbn [for_in_acc].
  - exact Hok.
  - apply wp_bind. apply (wp_preserved _ _ _ (H i a) Hok).
    intros a' e' Hok'. now apply IH.
Qed.

(** Uses a method already known to keep the shape of the machine. *)
Ltac wp_known lemma :=
  apply (wp_preserved _ _ _ lemma); [assumption || ok_tac|];
  let e' := fresh "e" in let H := fresh "Hok" in
  intros ? e' H; cbv beta.

Lemma set_pixel_preserves x y : preserves (set_pixel x y).
Proof.
  intros e Hok. unfold set_pixel. wp_run; try exact Hok; ok_tac.
Qed.

Lemma draw_col_preserves x y row col s : preserves (draw_col x y row col s).
Proof.
  intros e Hok. unfold draw_col. apply wp_bind.
  destruct (Z.land s 0x80 >? 0).
  - wp_run. wp_known (set_pixel_preserves (a mod 64 + col) (a0 mod 32 + row)).
    wp_run; try assumption; ok_tac.
  - wp_run. exact Hok.
Qed.

Lemma draw_row_preserves x y width row : preserves (draw_row x y width row).
Proof.
  intros e Hok. unfold draw_row. wp_run.
  apply (wp_preserved _ _ _
           (preserves_for_in_acc _ _ (draw_col_preserves x y row) a) Hok).
  intros s e' Hok'. wp_run. exact Hok'.
Qed.

Lemma draw_preserves x y w : preserves (draw x y w).
Proof.
  intros e Hok. unfold draw. wp_run.
  apply (wp_preserved _ _ _
           (preserves_for_in _ _ (draw_row_preserves x y 8))).
  - ok_tac.
  - auto.
Qed.

Lemma store_regs_preserves x : preserves (store_regs x).
Proof.
  unfold store_regs. apply preserves_for_in. intros i e Hok.
  wp_run. ok_tac.
Qed.

Lemma load_regs_preserves x : preserves (load_regs x).
Proof.
  unfold load_regs. apply preserves_for_in. intros i e Hok.
  wp_run. ok_tac.
Qed.

Ltac wp_more :=
  repeat first
    [ wp_step
    | match goal with
      | |- wp (sp_move ?d) _ _ => wp_known (sp_move_preserves d)
      | |- wp update_timers _ _ => wp_known update_timers_preserves
      | |- wp (advance_i ?x) _ _ => wp_known (advance_i_preserves x)
      | |- wp (draw ?x ?y ?w) _ _ => wp_known (draw_preserves x y w)
      | |- wp (store_regs ?x) _ _ => wp_known (store_regs_preserves x)
      | |- wp (load_regs ?x) _ _ => wp_known (load_regs_preserves x)
      end ].

Ltac keep_ok :=
  let e := fresh "e" in let Hok := fresh "Hok" in
  intros e Hok; wp_unfold; wp_more; first [assumption | ok_tac].

Lemma op_0_preserves w : preserves (op_0 w).
Proof. unfold op_0. by_cases (Z.land w 0x00FF) ltac:(keep_ok). Qed.

Lemma op_2_preserves w : preserves (op_2 w).
Proof. unfold op_2. keep_ok. Qed.

Lemma preserves_completes {A : Type} (m : M A) : preserves m -> completes m.
Proof. intros H e [Hok _]. now apply H. Qed.

Lemma wp_completed {A : Type} (m : M A) (Q : A -> Emulator -> Prop) e :
  completes m -> stepped e ->
  (forall a e', machine_ok e' -> Q a e') -> wp m Q e.
Proof.
  intros H Hok HQ. specialize (H e Hok). unfold wp in *.
  destruct (m e); auto.
Qed.

Ltac masks :=
  repeat match goal with
         | |- context [Z.land ?v 0x0FFF] =>
             lazymatch goal with
             | _ : 0 <= Z.land v 0x0FFF <= 0x0FFF |- _ => fail
             | _ => pose proof (address_mask v)
             end
         end;
  repeat match goal with
         | H : kb_interrupt ?e = Some ?k, Hok : machine_ok ?e |- _ =>
             lazymatch goal with
             | _ : 0 <= k < 16 |- _ => fail
             | _ => pose proof (ok_latch e Hok k H)
             end
         end.

Ltac finish_ok := first [assumption | masks; ok_tac].

Ltac complete_ok :=
  let e := fresh "e" in let Hok := fresh "Hok" in let Hpc := fresh "Hpc" in
  intros e [Hok Hpc]; wp_unfold; wp_more; finish_ok.

Lemma op_8_preserves x y w : preserves (op_8 x y w).
Proof. unfold op_8. by_cases (Z.land w 0x000F) ltac:(keep_ok). Qed.

Lemma op_D_completes x y w : completes (op_D x y w).
Proof. unfold op_D. complete_ok. Qed.

Lemma op_E_preserves x w : preserves (op_E x w).
Proof. unfold op_E. by_cases (Z.land w 0x00FF) ltac:(keep_ok). Qed.

Lemma op_F_completes x w : completes (op_F x w).
Proof. unfold op_F. by_cases (Z.land w 0x00FF) ltac:(complete_ok). Qed.

Lemma dispatch_completes rnd x y w : completes (dispatch rnd x y w).
Proof.
  pose proof (preserves_completes _ (op_0_preserves w)).
  pose proof (preserves_completes _ (op_2_preserves w)).
  pose proof (preserves_completes _ (op_8_preserves x y w)).
  pose proof (op_D_completes x y w).
  pose proof (preserves_completes _ (op_E_preserves x w)).
  pose proof (op_F_completes x w).
  unfold dispatch.
  by_cases (Z.land w 0xF000) ltac:(first [assumption | complete_ok]).
Qed.

Lemma tick_preserves rnd : preserves (tick rnd).
Proof.
  intros e Hok. unfold tick, fetch. wp_unfold. repeat wp_step.
  set (w := Z.lor _ _).
  apply (wp_completed _ _ _ (dispatch_completes rnd _ _ w)).
  - split; [ok_tac|proj; destruct Hok; lia].
  - intros [] e' Hok'; wp_run; finish_ok.
Qed.

Lemma bytes_checked l :
  forallb (fun v => (0 <=? v) && (v <=? 255)) l = true -> Forall is_byte l.
Proof.
  intros Hl. apply Forall_forall. intros v Hv.
  apply list_elem_of_In in Hv.
  apply (proj1 (forallb_forall _ _) Hl) in Hv. unfold is_byte. lia.
Qed.

Lemma machine_okb_sound e : machine_okb e = true -> machine_ok e.
Proof.
  unfold machine_okb. intros H.
  repeat match type of H with
         | (_ && _)%bool = true => apply andb_prop in H as [H ?]
         end.
  pose proof bytes_checked as B.
  constructor;
    try (apply Nat.eqb_eq; assumption);
    try (apply B; assumption);
    try (unfold is_byte; lia).
  - apply Forall_forall. intros v Hv. apply list_elem_of_In in Hv.
    match goal with
    | Hs : forallb _ (stack e) = true |- _ =>
        apply (proj1 (forallb_forall _ _) Hs) in Hv
    end. lia.
  - intros k Hk.
    match goal with
    | Hl : match kb_interrupt e with _ => _ end = true |- _ =>
        rewrite Hk in Hl
    end. lia.
  - apply Forall_forall. intros v Hv. apply list_elem_of_In in Hv.
    match goal with
    | Hd : forallb _ (disp e) = true |- _ =>
        apply (proj1 (forallb_forall _ _) Hd) in Hv
    end. unfold is_bit. lia.
Qed.

(** X1: A step that ends without an exception leaves a machine of the shape
    the interpreter relies on: sixteen byte-valued registers, 4096
    byte-valued memory cells, 48 stack cells, a stack pointer inside the
    stack, an index register within twelve bits, timers that are bytes and
    a display of bits. *)
Theorem tick_keeps_machine_shape rnd e e' :
  machine_ok e -> tick rnd e = Val tt e' -> machine_ok e'.
Proof.
  intros Hok H. pose proof (tick_preserves rnd e Hok) as W.
  unfold wp in W. now rewrite H in W.
Qed.

Lemma tick_keeps_machine_shape_witness :
  machine_ok demo_plain /\ machine_ok (final (tick 0 demo_plain)).
Proof.
  assert (H : machine_ok demo_plain)
    by (apply machine_okb_sound; vm_compute; reflexivity).
  split; [exact H|].
  apply (tick_keeps_machine_shape 0 demo_plain (final (tick 0 demo_plain)) H).
  vm_compute. reflexivity.
Defined.


Lemma fresh_ok q res : machine_ok (fresh q res).
Proof.
  assert (Z0 : forall (P : Z -> Prop) n, P 0 -> Forall P (repeat 0 n)).
  { intros P n H0. apply Forall_forall. intros v Hv.
    apply list_elem_of_In, repeat_spec in Hv. now subst. }
  constructor; cbn [fresh regs mem stack sp i_reg pc delay_timer sound_timer
                    kb_interrupt kb disp];
    rewrite ?repeat_length; try reflexivity; try lia;
    try (apply Z0; unfold is_byte; lia); try (unfold is_byte; lia).
  - intros k Hk. discriminate Hk.
  - apply blank_bits.
Qed.

Lemma store_from_preserves base data :
  Forall is_byte data -> forall start, preserves (store_from base start data).
Proof.
  induction 1 as [|byte rest Hb _ IH]; intros start e Hok;
    cbn [store_from].
  - exact Hok.
  - wp_unfold. wp_step. wp_step. wp_step. wp_step. wp_step.
    apply (wp_preserved _ _ _ (IH (start + 1))); [ok_tac|auto].
Qed.

Lemma sprites_bytes : Forall is_byte sprites.
Proof.
  apply bytes_checked. vm_compute. reflexivity.
Qed.

Lemma load_sprites_preserves : preserves load_sprites.
Proof. exact (store_from_preserves 0 sprites sprites_bytes 0). Qed.

Lemma load_rom_preserves rom : Forall is_byte rom -> preserves (load_rom rom).
Proof. intros H. exact (store_from_preserves 0x200 rom H 0). Qed.

Lemma wp_val {A : Type} (m : M A) (Q : A -> Emulator -> Prop) e a e' :
  wp m Q e -> m e = Val a e' -> Q a e'.
Proof. unfold wp. intros W H. rewrite H in W. exact W. Qed.

Lemma preserves_seq {A B : Type} (m : M A) (k : M B) :
  preserves m -> preserves k -> preserves (m ;;; k).
Proof.
  intros Hm Hk e Hok. apply wp_bind.
  apply (wp_preserved _ _ _ Hm Hok). intros _ e1 H1. exact (Hk e1 H1).
Qed.

Lemma boot_unfold q res rom :
  boot q res rom = (load_sprites ;;; load_rom rom) (fresh q res).
Proof. unfold boot. reflexivity. Qed.

(** X2: A machine built by [__init__] and [load_rom] from the bytes of a ROM
    file has the shape the interpreter relies on, whatever the
    configuration. *)
Theorem boot_gives_machine_shape q res rom e :
  Forall is_byte rom -> boot q res rom = Val tt e -> machine_ok e.
Proof.
  intros Hrom H. rewrite boot_unfold in H.
  exact (wp_val (load_sprites ;;; load_rom rom) (fun _ e' => machine_ok e')
           (fresh q res) tt e
           (preserves_seq load_sprites (load_rom rom)
              load_sprites_preserves (load_rom_preserves rom Hrom)
              (fresh q res) (fresh_ok q res)) H).
Qed.

Lemma boot_gives_machine_shape_witness : machine_ok (booted [0x12; 0x00]).
Proof.
  apply (boot_gives_machine_shape default_quirks (64, 32) [0x12; 0x00]
           (booted [0x12; 0x00])).
  - apply bytes_checked. vm_compute. reflexivity.
  - vm_compute. reflexivity.
Defined.

Lemma key_map_range k key : key_map k = Some key -> 0 <= key < 16.
Proof. destruct k; cbn; intros H; inversion H; lia. Qed.

Lemma handle_event_preserves ev : preserves (handle_event ev).
Proof.
  intros e Hok. destruct ev as [k|k|]; cbn [handle_event];
    try destruct (key_map k) as [key|] eqn:Hk; try exact Hok.
  - apply key_map_range in Hk. unfold key_down. wp_run.
    destruct Hok; proj; writes; constructor; proj;
      rewrite ?length_insert; try assumption.
    intros k' [= <-]. exact Hk.
  - unfold key_up. wp_run.
    destruct Hok; proj; writes; constructor; proj;
      rewrite ?length_insert; assumption.
Qed.

Lemma handle_input_preserves evs : preserves (handle_input evs).
Proof.
  induction evs as [|ev rest IH]; intros e Hok; cbn [handle_input].
  - exact Hok.
  - apply wp_bind.
    apply (wp_preserved _ _ _ (handle_event_preserves ev) Hok). auto.
Qed.

(** X3: A frame that ends without an exception leaves a machine of the right
    shape, whatever keys are pressed and released and whatever the
    random draws: the keys [handle_input] latches are among the
    sixteen, and the steps, the timers and [render] keep the shape. *)
Theorem cycle_keeps_machine_shape evs rnds e e' :
  machine_ok e -> cycle evs rnds e = Val tt e' -> machine_ok e'.
Proof.
  intros Hok H.
  assert (W : wp (cycle evs rnds) (fun _ e1 => machine_ok e1) e).
  { unfold cycle. apply wp_bind.
    apply (wp_preserved _ _ _ (handle_input_preserves evs) Hok).
    intros _ e1 H1. apply wp_bind.
    apply (wp_preserved _ _ _ (preserves_for_in _ _ tick_preserves) H1).
    intros _ e2 H2. apply wp_bind.
    apply (wp_preserved _ _ _ update_timers_preserves H2).
    intros _ e3 H3. unfold render. apply wp_modify.
    destruct H3. constructor; assumption. }
  exact (wp_val _ _ _ _ _ W H).
Qed.

Lemma cycle_keeps_machine_shape_witness :
  machine_ok (final (cycle [KEYDOWN K_q; KEYUP K_q] [0; 0] demo_plain)).
Proof.
  apply (cycle_keeps_machine_shape [KEYDOWN K_q; KEYUP K_q] [0; 0] demo_plain
           (final (cycle [KEYDOWN K_q; KEYUP K_q] [0; 0] demo_plain))).
  - apply machine_okb_sound. vm_compute. reflexivity.
  - vm_compute. reflexivity.
Defined.

(** ** Running a method to its end *)

Lemma runs_bind {A B : Type} (m : M A) (k : A -> M B) Q e :
  runs m (fun a e' => runs (k a) Q e') e -> runs (bind m k) Q e.
Proof. unfold runs, bind. now destruct (m e). Qed.

Lemma runs_ret {A : Type} (a : A) (Q : A -> Emulator -> Prop) e :
  Q a e -> runs (ret a) Q e.
Proof. exact (fun H => H). Qed.

Lemma runs_gets {A : Type} (f : Emulator -> A) (Q : A -> Emulator -> Prop) e :
  Q (f e) e -> runs (gets f) Q e.
Proof. exact (fun H => H). Qed.

Lemma runs_modify (g : Emulator -> Emulator) (Q : unit -> Emulator -> Prop) e :
  Q tt (g e) -> runs (modify g) Q e.
Proof. exact (fun H => H). Qed.

Lemma runs_lift_index {A : Type} (o : option A) a
    (Q : A -> Emulator -> Prop) e :
  o = Some a -> Q a e -> runs (lift_index o) Q e.
Proof. intros -> H. exact H. Qed.

Lemma runs_val {A : Type} (m : M A) (Q : A -> Emulator -> Prop) e :
  runs m Q e -> exists a e', m e = Val a e' /\ Q a e'.
Proof. unfold runs. destruct (m e) as [a e'|]; [eauto|tauto]. Qed.

Lemma runs_weaken {A : Type} (m : M A) (P Q : A -> Emulator -> Prop) e :
  runs m P e -> (forall a e', P a e' -> Q a e') -> runs m Q e.
Proof. unfold runs. destruct (m e); auto. Qed.

(** [tick] from the word it fetched: the body of the [case] runs on the
    machine with [pc] moved on, and the latch is cleared unless the body
    returned. *)
Lemma runs_tick rnd e w (Q : unit -> Emulator -> Prop) :
  fetch e = Val w e ->
  runs (dispatch rnd (Z.shiftr (Z.land w 0x0F00) 8)
          (Z.shiftr (Z.land w 0x00F0) 4) w)
       (fun how e' => Q tt (after how e')) (with_pc (pc e + 2) e) ->
  runs (tick rnd) Q e.
Proof.
  intros Hf H. unfold runs. rewrite (tick_decode _ _ _ Hf).
  unfold runs in H. unfold bind.
  destruct (dispatch _ _ _ _ _) as [[] e'|]; [exact H|exact H|exact H].
Qed.

Lemma tick_result rnd e (Q : unit -> Emulator -> Prop) :
  runs (tick rnd) Q e -> exists e', tick rnd e = Val tt e' /\ Q tt e'.
Proof. intros H. apply runs_val in H as ([] & e' & H1 & H2). eauto. Qed.

(** States a result of [tick] as a run. *)
Ltac by_run :=
  match goal with
  | |- exists e', tick ?rnd ?e = Val tt e' /\ @?P e' =>
      apply (tick_result rnd e (fun _ => P))
  end.

(** One step of a run; reads and writes are looked up among the facts
    at hand. *)
Ltac run_step :=
  match goal with
  | |- runs (bind _ _) _ _ => apply runs_bind
  | |- runs (ret _) _ _ => apply runs_ret
  | |- runs (gets _) _ _ => apply runs_gets
  | |- runs (modify _) _ _ => apply runs_modify
  | |- runs (lift_index (Py.getitem _ _)) _ _ =>
      eapply runs_lift_index;
      [ proj; look; first [eassumption | reflexivity] | ]
  | |- runs (lift_index (Py.setitem _ _ _)) _ _ =>
      eapply runs_lift_index;
      [ apply setitem_nonneg; proj; rewrite ?length_insert; lia | ]
  end; cbv beta.

Ltac run := wp_unfold; repeat run_step.

(** X10: Fx33 writes the three decimal digits of Vx at I, I+1 and I+2, most
    significant first, and no other cell; the registers and I stay. *)
Theorem bcd_writes_decimal_digits rnd e w a :
  machine_ok e ->
  fetch e = Val w e ->
  Z.land w 0xF000 = 0xF000 ->
  Z.land w 0x00FF = 0x33 ->
  Py.getitem (regs e) (Z.shiftr (Z.land w 0x0F00) 8) = Some a ->
  i_reg e + 2 <= 4095 ->
  exists e' h t u,
    tick rnd e = Val tt e' /\
    Py.getitem (mem e') (i_reg e) = Some h /\
    Py.getitem (mem e') (i_reg e + 1) = Some t /\
    Py.getitem (mem e') (i_reg e + 2) = Some u /\
    0 <= h <= 9 /\ 0 <= t <= 9 /\ 0 <= u <= 9 /\
    100 * h + 10 * t + u = a /\
    (forall j, 0 <= j < 4096 -> ~ i_reg e <= j <= i_reg e + 2 ->
       Py.getitem (mem e') j = Py.getitem (mem e) j) /\
    regs e' = regs e /\ i_reg e' = i_reg e /\ pc e' = pc e + 2.
Proof.
  intros Hok Hf Hfam Hlow Ha HI.
  assert (Hb : is_byte a) by exact (getitem_Forall _ _ _ _ (ok_regs e Hok) Ha).
  pose proof (ok_mem_len e Hok) as Lm. pose proof (ok_i_reg e Hok) as Hi.
  unfold is_byte in Hb.
  enough (R : runs (tick rnd)
                (fun _ e' =>
                   Py.getitem (mem e') (i_reg e) = Some (a / 100) /\
                   Py.getitem (mem e') (i_reg e + 1) = Some (a mod 100 / 10) /\
                   Py.getitem (mem e') (i_reg e + 2) = Some (a mod 10) /\
                   (forall j, 0 <= j < 4096 -> ~ i_reg e <= j <= i_reg e + 2 ->
                      Py.getitem (mem e') j = Py.getitem (mem e) j) /\
                   regs e' = regs e /\ i_reg e' = i_reg e /\
                   pc e' = pc e + 2) e).
  { apply tick_result in R as (e' & Ht & H1 & H2 & H3 & H4 & H5 & H6 & H7).
    exists e', (a / 100), (a mod 100 / 10), (a mod 10).
    repeat apply conj; try assumption; zmod. }
  apply (runs_tick _ _ _ _ Hf). unfold dispatch. rewrite Hfam. cbv iota beta.
  unfold op_F. rewrite Hlow. cbv iota beta.
  run. cbn [after]. proj. rewrite !Z.add_0_r.
  repeat apply conj; try reflexivity.
  - now look.
  - now look.
  - now look.
  - intros j Hj N. now look.
Qed.

Lemma bcd_writes_decimal_digits_witness :
  exists e' h t u,
    tick 0 demo_bcd = Val tt e' /\
    Py.getitem (mem e') 0x300 = Some h /\
    Py.getitem (mem e') 0x301 = Some t /\
    Py.getitem (mem e') 0x302 = Some u /\
    0 <= h <= 9 /\ 0 <= t <= 9 /\ 0 <= u <= 9 /\
    100 * h + 10 * t + u = 234 /\
    (forall j, 0 <= j < 4096 -> ~ 0x300 <= j <= 0x302 ->
       Py.getitem (mem e') j = Py.getitem (mem demo_bcd) j) /\
    regs e' = regs demo_bcd /\ i_reg e' = 0x300 /\ pc e' = 0x202.
Proof.
  apply (bcd_writes_decimal_digits 0 demo_bcd 0xF033 234).
  - apply machine_okb_sound. vm_compute. reflexivity.
  - vm_compute. reflexivity.
  - vm_compute. reflexivity.
  - vm_compute. reflexivity.
  - vm_compute. reflexivity.
  - vm_compute. discriminate.
Defined.

(** ** Registers to memory and back *)

Lemma with_mem_twice m1 m2 e : with_mem m2 (with_mem m1 e) = with_mem m2 e.
Proof. now destruct e. Qed.

Lemma with_regs_twice r1 r2 e : with_regs r2 (with_regs r1 e) = with_regs r2 e.
Proof. now destruct e. Qed.

Lemma with_mem_self e : with_mem (mem e) e = e.
Proof. now destruct e. Qed.

Lemma with_regs_same e : with_regs (regs e) e = e.
Proof. now destruct e. Qed.

Lemma mask_address v : Z.land v 0x0FFF = v mod 4096.
Proof. change 0x0FFF with (Z.ones 12). now rewrite Z.land_ones by lia. Qed.

(** The loop of Fx55 from register [s] on, [n] registers. *)
Lemma store_loop n : forall s e,
  length (regs e) = 16%nat -> length (mem e) = 4096%nat ->
  0 <= i_reg e -> (s + n <= 16)%nat ->
  i_reg e + Z.of_nat (s + n) <= 4096 ->
  runs (for_in (map Z.of_nat (seq s n))
          (fun i => v <- reg_get i ;; a <- gets i_reg ;; mem_set (a + i) v))
       (fun _ e' =>
          exists m', e' = with_mem m' e /\ length m' = 4096%nat /\
            forall j, 0 <= j < 4096 ->
              Py.getitem m' j =
              if (i_reg e + Z.of_nat s <=? j) && (j <? i_reg e + Z.of_nat (s + n))
              then Py.getitem (regs e) (j - i_reg e)
              else Py.getitem (mem e) j) e.
Proof.
  induction n as [|n IH]; intros s e Lr Lm Hi Hs HI; cbn [seq map for_in].
  - apply runs_ret. exists (mem e). split; [now rewrite with_mem_self|].
    split; [assumption|]. intros j Hj.
    destruct (Z.leb_spec (i_reg e + Z.of_nat s) j);
      destruct (Z.ltb_spec j (i_reg e + Z.of_nat (s + 0))); cbn [andb];
      try reflexivity; lia.
  - destruct (getitem_is_Some (regs e) (Z.of_nat s)) as [v Hv]; [lia|].
    apply runs_bind. run.
    set (m1 := <[_ := v]> (mem e)).
    eapply runs_weaken.
    + apply (IH (S s) (with_mem m1 e)); proj; unfold m1;
        rewrite ?length_insert; try assumption; lia.
    + cbv beta. intros _ e' (m' & -> & Lm' & Hm'). proj.
      exists m'. split; [apply with_mem_twice|]. split; [assumption|].
      intros j Hj. rewrite (Hm' j Hj). proj.
      destruct (Z.leb_spec (i_reg e + Z.of_nat (S s)) j);
        destruct (Z.ltb_spec j (i_reg e + Z.of_nat (S s + n)));
        destruct (Z.leb_spec (i_reg e + Z.of_nat s) j);
        destruct (Z.ltb_spec j (i_reg e + Z.of_nat (s + S n)));
        cbn [andb]; try reflexivity; try lia.
      all: unfold m1;
        first [ solve [look; reflexivity]
              | replace j with (i_reg e + Z.of_nat s) by lia; look;
                rewrite <- Hv; f_equal; lia ].
Qed.

(** The loop of Fx65 from register [s] on, [n] registers. *)
Lemma load_loop n : forall s e,
  length (regs e) = 16%nat -> length (mem e) = 4096%nat ->
  0 <= i_reg e -> (s + n <= 16)%nat ->
  i_reg e + Z.of_nat (s + n) <= 4096 ->
  runs (for_in (map Z.of_nat (seq s n))
          (fun i => a <- gets i_reg ;; v <- mem_get (a + i) ;; reg_set i v))
       (fun _ e' =>
          exists r', e' = with_regs r' e /\ length r' = 16%nat /\
            forall j, 0 <= j < 16 ->
              Py.getitem r' j =
              if (Z.of_nat s <=? j) && (j <? Z.of_nat (s + n))
              then Py.getitem (mem e) (i_reg e + j)
              else Py.getitem (regs e) j) e.
Proof.
  induction n as [|n IH]; intros s e Lr Lm Hi Hs HI; cbn [seq map for_in].
  - apply runs_ret. exists (regs e). split; [now rewrite with_regs_same|].
    split; [assumption|]. intros j Hj.
    destruct (Z.leb_spec (Z.of_nat s) j);
      destruct (Z.ltb_spec j (Z.of_nat (s + 0))); cbn [andb];
      try reflexivity; lia.
  - destruct (getitem_is_Some (mem e) (i_reg e + Z.of_nat s)) as [v Hv]; [lia|].
    apply runs_bind. run.
    set (r1 := <[_ := v]> (regs e)).
    eapply runs_weaken.
    + apply (IH (S s) (with_regs r1 e)); proj; unfold r1;
        rewrite ?length_insert; try assumption; lia.
    + cbv beta. intros _ e' (r' & -> & Lr' & Hr'). proj.
      exists r'. split; [apply with_regs_twice|]. split; [assumption|].
      intros j Hj. rewrite (Hr' j Hj). proj.
      destruct (Z.leb_spec (Z.of_nat (S s)) j);
        destruct (Z.ltb_spec j (Z.of_nat (S s + n)));
        destruct (Z.leb_spec (Z.of_nat s) j);
        destruct (Z.ltb_spec j (Z.of_nat (s + S n)));
        cbn [andb]; try reflexivity; try lia.
      all: unfold r1;
        first [ solve [look; reflexivity]
              | replace j with (Z.of_nat s) by lia; look; now rewrite <- Hv ].
Qed.

(** X11: Fx55 copies V0..Vx to the cells I..I+x and writes no other cell; the
    registers stay; I moves past the block, within twelve bits, when
    [QUIRK_memory] is set and stays otherwise. *)
Theorem store_copies_registers_to_memory rnd e w :
  machine_ok e ->
  fetch e = Val w e ->
  Z.land w 0xF000 = 0xF000 ->
  Z.land w 0x00FF = 0x55 ->
  i_reg e + Z.shiftr (Z.land w 0x0F00) 8 <= 4095 ->
  exists e',
    tick rnd e = Val tt e' /\
    (forall j, 0 <= j <= Z.shiftr (Z.land w 0x0F00) 8 ->
       Py.getitem (mem e') (i_reg e + j) = Py.getitem (regs e) j) /\
    (forall a, 0 <= a < 4096 ->
       ~ i_reg e <= a <= i_reg e + Z.shiftr (Z.land w 0x0F00) 8 ->
       Py.getitem (mem e') a = Py.getitem (mem e) a) /\
    regs e' = regs e /\
    i_reg e' =
      (if QUIRK_memory (quirks e)
       then (i_reg e + Z.shiftr (Z.land w 0x0F00) 8 + 1) mod 4096
       else i_reg e).
Proof.
  intros Hok Hf Hfam Hlow HI.
  pose proof (nibble_x_range w) as Hx.
  set (x := Z.shiftr (Z.land w 0x0F00) 8) in *.
  pose proof (ok_mem_len e Hok) as Lm. pose proof (ok_regs_len e Hok) as Lr.
  pose proof (ok_i_reg e Hok) as Hi.
  by_run.
  apply (runs_tick _ _ _ _ Hf). fold x. unfold dispatch. rewrite Hfam.
  cbv iota beta. unfold op_F. rewrite Hlow. cbv iota beta.
  apply runs_bind. unfold store_regs, Py.range.
  eapply runs_weaken.
  { apply (store_loop (Z.to_nat (x + 1)) 0 (with_pc (pc e + 2) e)); proj;
      try assumption; lia. }
  cbv beta. intros _ e1 (m' & -> & Lm' & Hm'). proj.
  unfold advance_i. run.
  assert (A : forall j, 0 <= j <= x ->
                Py.getitem m' (i_reg e + j) = Py.getitem (regs e) j).
  { intros j Hj. rewrite Hm' by lia.
    destruct (Z.leb_spec (i_reg e + Z.of_nat 0) (i_reg e + j)); [|lia].
    destruct (Z.ltb_spec (i_reg e + j) (i_reg e + Z.of_nat (0 + Z.to_nat (x + 1))));
      [|lia].
    cbn [andb]. f_equal. lia. }
  assert (B : forall a, 0 <= a < 4096 -> ~ i_reg e <= a <= i_reg e + x ->
                Py.getitem m' a = Py.getitem (mem e) a).
  { intros a Ha N. rewrite Hm' by lia.
    destruct (Z.leb_spec (i_reg e + Z.of_nat 0) a);
      destruct (Z.ltb_spec a (i_reg e + Z.of_nat (0 + Z.to_nat (x + 1))));
      cbn [andb]; try reflexivity; lia. }
  proj. destruct (QUIRK_memory (quirks e)); run; cbn [after]; proj;
    repeat apply conj; try assumption; try reflexivity.
  rewrite mask_address. f_equal. lia.
Qed.

Lemma store_copies_registers_to_memory_witness :
  exists e',
    tick 0 demo_store = Val tt e' /\
    (forall j, 0 <= j <= 1 ->
       Py.getitem (mem e') (0x300 + j) = Py.getitem (regs demo_store) j) /\
    (forall a, 0 <= a < 4096 -> ~ 0x300 <= a <= 0x300 + 1 ->
       Py.getitem (mem e') a = Py.getitem (mem demo_store) a) /\
    regs e' = regs demo_store /\
    i_reg e' = 0x302.
Proof.
  apply (store_copies_registers_to_memory 0 demo_store 0xF155).
  - apply machine_okb_sound. vm_compute. reflexivity.
  - vm_compute. reflexivity.
  - vm_compute. reflexivity.
  - vm_compute. reflexivity.
  - vm_compute. discriminate.
Defined.

(** X12: Fx65 copies the cells I..I+x to V0..Vx and changes no other
    register; memory stays; I moves as for Fx55. *)
Theorem load_copies_memory_to_registers rnd e w :
  machine_ok e ->
  fetch e = Val w e ->
  Z.land w 0xF000 = 0xF000 ->
  Z.land w 0x00FF = 0x65 ->
  i_reg e + Z.shiftr (Z.land w 0x0F00) 8 <= 4095 ->
  exists e',
    tick rnd e = Val tt e' /\
    (forall j, 0 <= j <= Z.shiftr (Z.land w 0x0F00) 8 ->
       Py.getitem (regs e') j = Py.getitem (mem e) (i_reg e + j)) /\
    (forall j, Z.shiftr (Z.land w 0x0F00) 8 < j < 16 ->
       Py.getitem (regs e') j = Py.getitem (regs e) j) /\
    mem e' = mem e /\
    i_reg e' =
      (if QUIRK_memory (quirks e)
       then (i_reg e + Z.shiftr (Z.land w 0x0F00) 8 + 1) mod 4096
       else i_reg e).
Proof.
  intros Hok Hf Hfam Hlow HI.
  pose proof (nibble_x_range w) as Hx.
  set (x := Z.shiftr (Z.land w 0x0F00) 8) in *.
  pose proof (ok_mem_len e Hok) as Lm. pose proof (ok_regs_len e Hok) as Lr.
  pose proof (ok_i_reg e Hok) as Hi.
  by_run.
  apply (runs_tick _ _ _ _ Hf). fold x. unfold dispatch. rewrite Hfam.
  cbv iota beta. unfold op_F. rewrite Hlow. cbv iota beta.
  apply runs_bind. unfold load_regs, Py.range.
  eapply runs_weaken.
  { apply (load_loop (Z.to_nat (x + 1)) 0 (with_pc (pc e + 2) e)); proj;
      try assumption; lia. }
  cbv beta. intros _ e1 (r' & -> & Lr' & Hr'). proj.
  unfold advance_i. run.
  assert (A : forall j, 0 <= j <= x ->
                Py.getitem r' j = Py.getitem (mem e) (i_reg e + j)).
  { intros j Hj. rewrite Hr' by lia.
    destruct (Z.leb_spec (Z.of_nat 0) j); [|lia].
    destruct (Z.ltb_spec j (Z.of_nat (0 + Z.to_nat (x + 1)))); [|lia].
    reflexivity. }
  assert (B : forall j, x < j < 16 -> Py.getitem r' j = Py.getitem (regs e) j).
  { intros j Hj. rewrite Hr' by lia.
    destruct (Z.leb_spec (Z.of_nat 0) j);
      destruct (Z.ltb_spec j (Z.of_nat (0 + Z.to_nat (x + 1))));
      cbn [andb]; try reflexivity; lia. }
  proj. destruct (QUIRK_memory (quirks e)); run; cbn [after]; proj;
    repeat apply conj; try assumption; try reflexivity.
  rewrite mask_address. f_equal. lia.
Qed.

Lemma load_copies_memory_to_registers_witness :
  exists e',
    tick 0 demo_load = Val tt e' /\
    (forall j, 0 <= j <= 1 ->
       Py.getitem (regs e') j = Py.getitem (mem demo_load) (0x202 + j)) /\
    (forall j, 1 < j < 16 ->
       Py.getitem (regs e') j = Py.getitem (regs demo_load) j) /\
    mem e' = mem demo_load /\
    i_reg e' = 0x204.
Proof.
  apply (load_copies_memory_to_registers 0 demo_load 0xF165).
  - apply machine_okb_sound. vm_compute. reflexivity.
  - vm_compute. reflexivity.
  - vm_compute. reflexivity.
  - vm_compute. reflexivity.
  - vm_compute. discriminate.
Defined.

(** ** Waiting, skipping and running off the end *)

Lemma ticks_fixed rnd e n : tick rnd e = Val tt e -> ticks n rnd e = Val tt e.
Proof.
  intros H. induction n as [|n IH]; [reflexivity|].
  cbn [ticks]. now rewrite (bind_val _ _ _ _ _ H).
Qed.

Lemma tick_equals rnd e e0 :
  runs (tick rnd) (fun _ e' => e' = e0) e -> tick rnd e = Val tt e0.
Proof. intros H. apply tick_result in H as (e' & H & ->). exact H. Qed.

(** X14: With the display wait armed and no frame rendered since the last
    draw, a Dxyn stalls: any number of steps leave the machine exactly
    as it is, the program counter still at the Dxyn. *)
Theorem display_wait_stalls_until_render rnd e w n :
  fetch e = Val w e ->
  Z.land w 0xF000 = 0xD000 ->
  QUIRK_disp_wait (quirks e) = true ->
  QUIRK_disp_wait_faker (quirks e) = false ->
  interrupted e = false ->
  ticks n rnd e = Val tt e.
Proof.
  intros Hf Hfam Hw Hk Hi. apply ticks_fixed, tick_equals.
  apply (runs_tick _ _ _ _ Hf). unfold dispatch. rewrite Hfam.
  cbv iota beta. unfold op_D.
  run. proj. rewrite Hw. run. proj. rewrite Hk. run. proj. rewrite Hi.
  run. cbn [after]. proj. apply with_pc_back.
Qed.

Lemma display_wait_stalls_until_render_witness :
  ticks 3 0 demo_draw_wait = Val tt demo_draw_wait.
Proof.
  apply (display_wait_stalls_until_render 0 demo_draw_wait 0xD001 3).
  - vm_compute. reflexivity.
  - vm_compute. reflexivity.
  - vm_compute. reflexivity.
  - vm_compute. reflexivity.
  - vm_compute. reflexivity.
Defined.

(** X15: Fx0A with no key latched stalls: any number of steps leave the
    machine exactly as it is, the program counter still at the Fx0A. *)
Theorem key_wait_stalls_without_key rnd e w n :
  fetch e = Val w e ->
  Z.land w 0xF000 = 0xF000 ->
  Z.land w 0x00FF = 0x0A ->
  kb_interrupt e = None ->
  ticks n rnd e = Val tt e.
Proof.
  intros Hf Hfam Hlow Hk. apply ticks_fixed, tick_equals.
  apply (runs_tick _ _ _ _ Hf). unfold dispatch. rewrite Hfam.
  cbv iota beta. unfold op_F. rewrite Hlow. cbv iota beta.
  run. proj. rewrite Hk. run. cbn [after]. proj. apply with_pc_back.
Qed.

Lemma key_wait_stalls_without_key_witness :
  ticks 3 0 demo_key_wait = Val tt demo_key_wait.
Proof.
  apply (key_wait_stalls_without_key 0 demo_key_wait 0xF00A 3).
  - vm_compute. reflexivity.
  - vm_compute. reflexivity.
  - vm_compute. reflexivity.
  - vm_compute. reflexivity.
Defined.

(** X16: Fx0A with a key latched stores the key in Vx, clears the latch and
    goes on to the next instruction; no other register changes. *)
Theorem key_wait_takes_latched_key rnd e w k :
  length (regs e) = 16%nat ->
  fetch e = Val w e ->
  Z.land w 0xF000 = 0xF000 ->
  Z.land w 0x00FF = 0x0A ->
  kb_interrupt e = Some k ->
  exists e',
    tick rnd e = Val tt e' /\
    Py.getitem (regs e') (Z.shiftr (Z.land w 0x0F00) 8) = Some k /\
    (forall j, 0 <= j < 16 -> j <> Z.shiftr (Z.land w 0x0F00) 8 ->
       Py.getitem (regs e') j = Py.getitem (regs e) j) /\
    kb_interrupt e' = None /\
    pc e' = pc e + 2.
Proof.
  intros Lr Hf Hfam Hlow Hk.
  pose proof (nibble_x_range w) as Hx.
  set (x := Z.shiftr (Z.land w 0x0F00) 8) in *.
  by_run. apply (runs_tick _ _ _ _ Hf). fold x. unfold dispatch.
  rewrite Hfam. cbv iota beta. unfold op_F. rewrite Hlow. cbv iota beta.
  run. proj. rewrite Hk. run. cbn [after]. proj.
  repeat apply conj; try reflexivity.
  - now look.
  - intros j Hj N. now look.
Qed.

Lemma key_wait_takes_latched_key_witness :
  exists e',
    tick 0 demo_key_taken = Val tt e' /\
    Py.getitem (regs e') 3 = Some 7 /\
    (forall j, 0 <= j < 16 -> j <> 3 ->
       Py.getitem (regs e') j = Py.getitem (regs demo_key_taken) j) /\
    kb_interrupt e' = None /\
    pc e' = 0x202.
Proof.
  apply (key_wait_takes_latched_key 0 demo_key_taken 0xF30A 7).
  - vm_compute. reflexivity.
  - vm_compute. reflexivity.
  - vm_compute. reflexivity.
  - vm_compute. reflexivity.
  - vm_compute. reflexivity.
Defined.

(** X17: ExA1 and Ex9E look up the key numbered Vx: a value of Vx past the
    sixteen keys raises IndexError after the program counter has moved
    on; otherwise exactly one of the two instructions skips. *)
Theorem key_skip_indexes_keys_by_vx rnd e w a :
  length (kb e) = 16%nat ->
  fetch e = Val w e ->
  Z.land w 0xF000 = 0xE000 ->
  Z.land w 0x00FF = 0x9E \/ Z.land w 0x00FF = 0xA1 ->
  Py.getitem (regs e) (Z.shiftr (Z.land w 0x0F00) 8) = Some a ->
  (16 <= a -> tick rnd e = Exc IndexError (with_pc (pc e + 2) e)) /\
  (forall k, 0 <= a < 16 -> Py.getitem (kb e) a = Some k ->
     exists e',
       tick rnd e = Val tt e' /\
       pc e' = pc e + (if xorb (Z.land w 0x00FF =? 0xA1) (Py.truthy k)
                       then 4 else 2) /\
       regs e' = regs e /\ kb e' = kb e).
Proof.
  intros Lk Hf Hfam Hlow Ha.
  set (x := Z.shiftr (Z.land w 0x0F00) 8) in *.
  split.
  - intros Hbig. rewrite (tick_decode _ _ _ Hf). fold x. apply bind_exc.
    unfold dispatch. rewrite Hfam. cbv iota beta. unfold op_E.
    assert (G : Py.getitem (kb (with_pc (pc e + 2) e)) a = None)
      by (apply getitem_out; cbn [kb with_pc]; lia).
    destruct Hlow as [-> | ->]; cbv iota beta;
      rewrite (bind_val _ _ _ _ _ (reg_get_val (with_pc (pc e + 2) e) x a Ha));
      apply bind_exc; unfold kb_get; rewrite bind_gets;
      unfold lift_index; now rewrite G.
  - intros k Hr Hk. by_run. apply (runs_tick _ _ _ _ Hf). fold x.
    unfold dispatch. rewrite Hfam. cbv iota beta. unfold op_E.
    destruct Hlow as [-> | ->]; cbv iota beta; run;
      destruct (Py.truthy k); cbn [negb xorb Z.eqb Pos.eqb]; run;
      cbn [after]; proj; repeat apply conj; try reflexivity; lia.
Qed.

Lemma key_skip_indexes_keys_by_vx_witness :
  (16 <= 5 ->
   tick 0 demo_key_skip = Exc IndexError (with_pc 0x202 demo_key_skip)) /\
  (forall k, 0 <= 5 < 16 -> Py.getitem (kb demo_key_skip) 5 = Some k ->
     exists e',
       tick 0 demo_key_skip = Val tt e' /\
       pc e' = 0x200 + (if xorb false (Py.truthy k) then 4 else 2) /\
       regs e' = regs demo_key_skip /\ kb e' = kb demo_key_skip).
Proof.
  apply (key_skip_indexes_keys_by_vx 0 demo_key_skip 0xE09E 5).
  - vm_compute. reflexivity.
  - vm_compute. reflexivity.
  - vm_compute. reflexivity.
  - left. vm_compute. reflexivity.
  - vm_compute. reflexivity.
Defined.

(** ** Timers *)

Lemma update_timers_once e :
  0 <= delay_timer e -> 0 <= sound_timer e ->
  exists e',
    update_timers e = Val tt e' /\
    delay_timer e' = Z.max 0 (delay_timer e - 1) /\
    sound_timer e' = Z.max 0 (sound_timer e - 1) /\
    with_sound_timer (sound_timer e) (with_delay_timer (delay_timer e) e') = e.
Proof.
  intros Hd Hs. destruct e as [q r m rg i p st s k snd dl ki it d].
  cbn [delay_timer sound_timer] in *.
  unfold update_timers, bind, gets, modify, ret.
  cbn [delay_timer sound_timer with_delay_timer with_sound_timer].
  destruct (dl >? 0) eqn:E1;
    cbn [delay_timer sound_timer with_delay_timer with_sound_timer];
    destruct (snd >? 0) eqn:E2;
    cbn [delay_timer sound_timer with_delay_timer with_sound_timer];
    rewrite Z.gtb_ltb in E1, E2;
    first [apply Z.ltb_lt in E1 | apply Z.ltb_ge in E1];
    first [apply Z.ltb_lt in E2 | apply Z.ltb_ge in E2];
    eexists; (split; [reflexivity|]);
    cbn [delay_timer sound_timer with_delay_timer with_sound_timer];
    repeat apply conj; try reflexivity; lia.
Qed.

Lemma timers_collapse s d s1 d1 e :
  with_sound_timer s
    (with_delay_timer d (with_sound_timer s1 (with_delay_timer d1 e)))
  = with_sound_timer s (with_delay_timer d e).
Proof. now destruct e. Qed.

(** X18: Called once for each item of [l], that is n times,
    [update_timers] counts both timers down by n,
    stops each at zero, and changes nothing else. *)
Theorem timers_count_down_to_zero (l : list Z) e :
  0 <= delay_timer e -> 0 <= sound_timer e ->
  exists e',
    for_in l (fun _ => update_timers) e = Val tt e' /\
    delay_timer e' = Z.max 0 (delay_timer e - Z.of_nat (length l)) /\
    sound_timer e' = Z.max 0 (sound_timer e - Z.of_nat (length l)) /\
    with_sound_timer (sound_timer e) (with_delay_timer (delay_timer e) e') = e.
Proof.
  revert e. induction l as [|i l IH]; intros e Hd Hs; cbn [for_in length].
  - exists e. split; [reflexivity|].
    destruct e as [q r m rg i p st s k snd dl ki it d].
    cbn [delay_timer sound_timer with_delay_timer with_sound_timer] in *.
    repeat apply conj; try reflexivity; lia.
  - destruct (update_timers_once e Hd Hs) as (e1 & R1 & D1 & S1 & E1).
    rewrite (bind_val _ _ _ _ _ R1).
    destruct (IH e1) as (e2 & R2 & D2 & S2 & E2); [lia|lia|].
    exists e2. split; [exact R2|].
    split; [lia|]. split; [lia|].
    assert (X : with_sound_timer (sound_timer e)
                  (with_delay_timer (delay_timer e) e1)
                = with_sound_timer (sound_timer e)
                    (with_delay_timer (delay_timer e) e2)).
    { rewrite <- E2. apply timers_collapse. }
    rewrite <- X. exact E1.
Qed.

Lemma timers_count_down_to_zero_witness :
  exists e',
    for_in [0; 1; 2; 3; 4] (fun _ => update_timers) demo_timers = Val tt e' /\
    delay_timer e' = 0 /\
    sound_timer e' = 0 /\
    with_sound_timer 1 (with_delay_timer 3 e') = demo_timers.
Proof.
  apply (timers_count_down_to_zero [0; 1; 2; 3; 4] demo_timers).
  - vm_compute. discriminate.
  - vm_compute. discriminate.
Defined.

(** ** The machine a run starts from *)

(** Looking up a list of which a stretch was replaced. *)
Lemma splice_lookup (m data : list Z) (k i : nat) :
  (k + length data <= length m)%nat ->
  (take k m ++ data ++ drop (k + length data) m) !! i
  = if (i <? k)%nat then m !! i
    else if (i <? k + length data)%nat then data !! (i - k)%nat
         else m !! i.
Proof.
  intros H.
  destruct (Nat.ltb_spec i k) as [H1|H1].
  - rewrite lookup_app_l by (rewrite length_take; lia).
    now apply lookup_take_lt.
  - rewrite lookup_app_r by (rewrite length_take; lia).
    rewrite length_take, Nat.min_l by lia.
    destruct (Nat.ltb_spec i (k + length data)) as [H2|H2].
    + now rewrite lookup_app_l by lia.
    + rewrite lookup_app_r by lia. rewrite lookup_drop. f_equal. lia.
Qed.

Lemma splice_length (m data : list Z) (k : nat) :
  (k + length data <= length m)%nat ->
  length (take k m ++ data ++ drop (k + length data) m) = length m.
Proof.
  intros H. rewrite !length_app, length_take, length_drop. lia.
Qed.

Lemma lookup_repeat (a : Z) (n i : nat) :
  (i < n)%nat -> repeat a n !! i = Some a.
Proof.
  revert i. induction n as [|n IH]; intros i H; [lia|].
  destruct i as [|i]; [reflexivity|]. cbn. apply IH. lia.
Qed.

(** [load_sprites] then [load_rom] on any machine with 4096 cells: the
    font is in cells 0..79, the ROM from 0x200 on, and every other cell
    is as it was. *)
Lemma load_layout e0 rom :
  length (mem e0) = 4096%nat ->
  (length rom <= 3584)%nat ->
  exists m,
    (load_sprites ;;; load_rom rom) e0 = Val tt (with_mem m e0) /\
    length m = 4096%nat /\
    (forall i, (i < 80)%nat -> m !! i = sprites !! i) /\
    (forall i, (i < length rom)%nat -> m !! (512 + i)%nat = rom !! i) /\
    (forall i, (80 <= i < 512)%nat \/ (512 + length rom <= i)%nat ->
       m !! i = mem e0 !! i).
Proof.
  intros L Hrom.
  assert (Ls : length sprites = 80%nat) by reflexivity.
  unfold load_sprites, load_rom.
  rewrite (bind_val _ _ _ _ _
             (store_from_fits 0 sprites 0 0 e0 eq_refl ltac:(lia))).
  set (m1 := take 0 (mem e0) ++ sprites ++ drop (0 + length sprites) (mem e0)).
  assert (L1 : length m1 = 4096%nat)
    by (unfold m1; rewrite splice_length; lia).
  rewrite (store_from_fits 0x200 rom 0 512 (with_mem m1 e0) eq_refl);
    [|cbn [mem with_mem]; lia].
  cbn [mem with_mem]. rewrite with_mem_twice.
  eexists. split; [reflexivity|].
  split; [rewrite splice_length; lia|].
  assert (X : forall i, m1 !! i = if (i <? 80)%nat then sprites !! i
                                  else mem e0 !! i).
  { intros i. unfold m1. rewrite splice_lookup by lia. rewrite Ls.
    destruct (Nat.ltb_spec i 0); [lia|]. cbn [Nat.add].
    destruct (Nat.ltb_spec i 80); [|reflexivity]. f_equal. lia. }
  repeat apply conj.
  - intros i Hi. rewrite splice_lookup by lia.
    destruct (Nat.ltb_spec i 512); [|lia]. rewrite X.
    destruct (Nat.ltb_spec i 80); [reflexivity|lia].
  - intros i Hi. rewrite splice_lookup by lia.
    destruct (Nat.ltb_spec (512 + i) 512); [lia|].
    destruct (Nat.ltb_spec (512 + i) (512 + length rom)); [|lia].
    f_equal. lia.
  - intros i Hi. rewrite splice_lookup by lia.
    destruct (Nat.ltb_spec i 512);
      [|destruct (Nat.ltb_spec i (512 + length rom)); [lia|]];
      rewrite X; destruct (Nat.ltb_spec i 80); try reflexivity; lia.
Qed.

(** X19: A ROM of at most 3584 bytes boots: the program counter is 0x200,
    every register, the stack pointer, I and both timers are zero, no
    key is latched, the font is in cells 0..79 and is not touched by the
    ROM, the ROM is in the cells from 0x200 on, and every other cell is
    zero. *)
Theorem boot_lays_out_font_and_rom q res rom :
  (length rom <= 3584)%nat ->
  exists e,
    boot q res rom = Val tt e /\
    pc e = 0x200 /\ sp e = 0 /\ i_reg e = 0 /\
    delay_timer e = 0 /\ sound_timer e = 0 /\ kb_interrupt e = None /\
    regs e = repeat 0 16 /\
    (forall i, 0 <= i < 80 -> Py.getitem (mem e) i = Py.getitem sprites i) /\
    (forall i, 0 <= i < Z.of_nat (length rom) ->
       Py.getitem (mem e) (0x200 + i) = Py.getitem rom i) /\
    (forall i, 80 <= i < 0x200 \/ 0x200 + Z.of_nat (length rom) <= i < 4096 ->
       Py.getitem (mem e) i = Some 0).
Proof.
  intros Hrom. rewrite boot_unfold.
  destruct (load_layout (fresh q res) rom) as (m & R & Lm & F & P & Z0);
    [cbn [fresh mem]; apply repeat_length|exact Hrom|].
  exists (with_mem m (fresh q res)). split; [exact R|].
  cbn [fresh with_mem pc sp i_reg delay_timer sound_timer kb_interrupt regs
       mem] in *.
  repeat apply conj; try reflexivity.
  - intros i Hi. rewrite !getitem_nonneg by (rewrite ?Lm; cbn; lia).
    apply F. lia.
  - intros i Hi. rewrite !getitem_nonneg by lia.
    rewrite <- (P (Z.to_nat i)) by lia. f_equal. lia.
  - intros i Hi. rewrite getitem_nonneg by lia.
    rewrite Z0 by lia. apply lookup_repeat. lia.
Qed.

Lemma boot_lays_out_font_and_rom_witness :
  exists e,
    boot default_quirks (64, 32) [0x12; 0x00] = Val tt e /\
    pc e = 0x200 /\ sp e = 0 /\ i_reg e = 0 /\
    delay_timer e = 0 /\ sound_timer e = 0 /\ kb_interrupt e = None /\
    regs e = repeat 0 16 /\
    (forall i, 0 <= i < 80 -> Py.getitem (mem e) i = Py.getitem sprites i) /\
    (forall i, 0 <= i < 2 ->
       Py.getitem (mem e) (0x200 + i) = Py.getitem [0x12; 0x00] i) /\
    (forall i, 80 <= i < 0x200 \/ 0x200 + 2 <= i < 4096 ->
       Py.getitem (mem e) i = Some 0).
Proof.
  apply (boot_lays_out_font_and_rom default_quirks (64, 32) [0x12; 0x00]).
  cbn [length]. lia.
Defined.

(** ** The index register, the logic instructions, the keys *)

(** X13: Fx1E adds Vx to I within twelve bits and Fx29 sets I to five times
    Vx, the cell of the glyph when Vx is a digit; neither touches a
    register, VF included, or memory. *)
Theorem index_updates_leave_registers rnd e w a :
  machine_ok e ->
  fetch e = Val w e ->
  Z.land w 0xF000 = 0xF000 ->
  Z.land w 0x00FF = 0x1E \/ Z.land w 0x00FF = 0x29 ->
  Py.getitem (regs e) (Z.shiftr (Z.land w 0x0F00) 8) = Some a ->
  exists e',
    tick rnd e = Val tt e' /\
    i_reg e' = (if Z.land w 0x00FF =? 0x1E
                then (i_reg e + a) mod 4096 else 5 * a) /\
    regs e' = regs e /\ mem e' = mem e /\ pc e' = pc e + 2.
Proof.
  intros Hok Hf Hfam Hlow Ha.
  assert (Hb : is_byte a) by exact (getitem_Forall _ _ _ _ (ok_regs e Hok) Ha).
  unfold is_byte in Hb.
  by_run. apply (runs_tick _ _ _ _ Hf). unfold dispatch. rewrite Hfam.
  cbv iota beta. unfold op_F.
  destruct Hlow as [-> | ->]; cbv iota beta; run; cbn [after Z.eqb Pos.eqb];
    proj; repeat apply conj; try reflexivity; rewrite mask_address.
  - reflexivity.
  - rewrite Z.mod_small by lia. lia.
Qed.

Lemma index_updates_leave_registers_witness :
  exists e',
    tick 0 demo_index = Val tt e' /\
    i_reg e' = 50 /\
    regs e' = regs demo_index /\ mem e' = mem demo_index /\ pc e' = 0x202.
Proof.
  apply (index_updates_leave_registers 0 demo_index 0xF029 0x0A).
  - apply machine_okb_sound. vm_compute. reflexivity.
  - vm_compute. reflexivity.
  - vm_compute. reflexivity.
  - right. vm_compute. reflexivity.
  - vm_compute. reflexivity.
Defined.

(** X9: 8xy1, 8xy2 and 8xy3 store Vx OR, AND, XOR Vy in Vx; with
    [QUIRK_vF_reset] VF is then set to zero, so that with x = 0xF the
    result is lost. No other register changes. *)
Theorem logic_ops_reset_vf rnd e w a b :
  length (regs e) = 16%nat ->
  fetch e = Val w e ->
  Z.land w 0xF000 = 0x8000 ->
  Z.land w 0x000F = 1 \/ Z.land w 0x000F = 2 \/ Z.land w 0x000F = 3 ->
  Py.getitem (regs e) (Z.shiftr (Z.land w 0x0F00) 8) = Some a ->
  Py.getitem (regs e) (Z.shiftr (Z.land w 0x00F0) 4) = Some b ->
  exists e',
    tick rnd e = Val tt e' /\
    (forall r,
       r = (if Z.land w 0x000F =? 1 then Z.lor a b
            else if Z.land w 0x000F =? 2 then Z.land a b
                 else Z.lxor a b) ->
       Py.getitem (regs e') 0xF
       = (if QUIRK_vF_reset (quirks e) then Some 0
          else if Z.shiftr (Z.land w 0x0F00) 8 =? 0xF then Some r
               else Py.getitem (regs e) 0xF) /\
       (Z.shiftr (Z.land w 0x0F00) 8 <> 0xF ->
        Py.getitem (regs e') (Z.shiftr (Z.land w 0x0F00) 8) = Some r)) /\
    (forall j, 0 <= j < 16 -> j <> Z.shiftr (Z.land w 0x0F00) 8 ->
       j <> 0xF -> Py.getitem (regs e') j = Py.getitem (regs e) j).
Proof.
  intros Lr Hf Hfam Hlow Ha Hb.
  pose proof (nibble_x_range w) as Hx. pose proof (nibble_y_range w) as Hy.
  set (x := Z.shiftr (Z.land w 0x0F00) 8) in *.
  set (y := Z.shiftr (Z.land w 0x00F0) 4) in *.
  by_run. apply (runs_tick _ _ _ _ Hf). fold x y. unfold dispatch.
  rewrite Hfam. cbv iota beta. unfold op_8.
  destruct Hlow as [-> | [-> | ->]]; cbv iota beta; run; proj;
    destruct (QUIRK_vF_reset (quirks e)); run; cbn [after Z.eqb Pos.eqb];
    proj;
    (split; [intros r ->; split; [|intros N; now look]
            |intros j Hj N1 N2; now look]);
    destruct (Z.eqb_spec x 0xF) as [E|N]; try rewrite E; now look.
Qed.

Lemma logic_ops_reset_vf_witness :
  exists e',
    tick 0 demo_logic = Val tt e' /\
    (forall r, r = Z.lor 0x0C 0x0A ->
       Py.getitem (regs e') 0xF = Some 0 /\
       (0xF <> 0xF -> Py.getitem (regs e') 0xF = Some r)) /\
    (forall j, 0 <= j < 16 -> j <> 0xF -> j <> 0xF ->
       Py.getitem (regs e') j = Py.getitem (regs demo_logic) j).
Proof.
  apply (logic_ops_reset_vf 0 demo_logic 0x8F11 0x0C 0x0A).
  - vm_compute. reflexivity.
  - vm_compute. reflexivity.
  - vm_compute. reflexivity.
  - left. vm_compute. reflexivity.
  - vm_compute. reflexivity.
  - vm_compute. reflexivity.
Defined.

(** X20: Every key of the hexadecimal keypad has exactly one key of the
    keyboard in [key_map]. *)
Theorem key_map_covers_keypad_once key :
  0 <= key < 16 ->
  exists k, key_map k = Some key /\
            forall k', key_map k' = Some key -> k' = k.
Proof.
  intros H.
  assert (C : key = 0 \/ key = 1 \/ key = 2 \/ key = 3 \/ key = 4 \/ key = 5
              \/ key = 6 \/ key = 7 \/ key = 8 \/ key = 9 \/ key = 10
              \/ key = 11 \/ key = 12 \/ key = 13 \/ key = 14 \/ key = 15)
    by lia.
  repeat (destruct C as [->|C]); try subst key.
  all: match goal with
       | |- exists k, key_map k = Some ?v /\ _ =>
           first
             [ exists K_1; split; [reflexivity|]
             | exists K_2; split; [reflexivity|]
             | exists K_3; split; [reflexivity|]
             | exists K_4; split; [reflexivity|]
             | exists K_q; split; [reflexivity|]
             | exists K_w; split; [reflexivity|]
             | exists K_e; split; [reflexivity|]
             | exists K_r; split; [reflexivity|]
             | exists K_a; split; [reflexivity|]
             | exists K_s; split; [reflexivity|]
             | exists K_d; split; [reflexivity|]
             | exists K_f; split; [reflexivity|]
             | exists K_z; split; [reflexivity|]
             | exists K_x; split; [reflexivity|]
             | exists K_c; split; [reflexivity|]
             | exists K_v; split; [reflexivity|] ]
       end;
    intros k'; destruct k'; cbn [key_map]; intros E;
    first [reflexivity | discriminate E].
Qed.

Lemma key_map_covers_keypad_once_witness :
  exists k, key_map k = Some 0xC /\
            forall k', key_map k' = Some 0xC -> k' = k.
Proof.
  apply (key_map_covers_keypad_once 0xC). lia.
Defined.

(** ** Drawing a sprite twice *)

(** The draw proper, with what it leaves for a second draw. *)
Lemma draw_run_again clip x y a b e w :
  drawing clip x y a b e ->
  length (mem e) = 4096%nat ->
  0 <= i_reg e -> i_reg e + Z.land w 0x000F <= 4096 ->
  exists e',
    draw x y w e = Val tt e' /\
    drawing clip x y a b e' /\
    painted (covers clip (a mod 64) (b mod 32) (mem e) (i_reg e)
               (Z.land w 0x000F)) e e'.
Proof.
  intros D Lm Hi Hn. pose proof (nibble_n_range w) as Hrange.
  unfold draw.
  destruct D as (Hres & Hclip & Ld & Lr & Hxy & Ha & Hb).
  assert (D : drawing clip x y a b e) by (repeat split; try assumption; lia).
  rewrite (bind_val _ _ _ _ _ (reg_set_val e 0xF 0 ltac:(rewrite Lr; lia))).
  set (e0 := with_regs _ e).
  destruct (draw_rows_run clip x y a b (Z.to_nat (Z.land w 0x000F)) 0 e0)
    as (e' & R & D' & P).
  { apply drawing_set_vf. exact D. }
  { lia. }
  { intros r Hr. apply getitem_is_Some. cbn [mem i_reg e0 with_regs].
    rewrite Lm. lia. }
  exists e'. split; [exact R|]. split; [exact D'|exact P].
Qed.

Lemma int_not_twice v : is_bit v -> Py.int_not (Py.int_not v) = v.
Proof. intros [-> | ->]; reflexivity. Qed.

(** X21: Drawing the same sprite twice at the same place puts the display
    back as it was, pixel for pixel, with or without clipping: each
    pixel the sprite covers is toggled twice. Memory is as before. *)
Theorem draw_twice_restores_display clip x y a b e w :
  drawing clip x y a b e ->
  length (mem e) = 4096%nat ->
  0 <= i_reg e -> i_reg e + Z.land w 0x000F <= 4096 ->
  Forall is_bit (disp e) ->
  exists e2,
    (draw x y w ;;; draw x y w) e = Val tt e2 /\
    disp e2 = disp e /\ mem e2 = mem e.
Proof.
  intros D Lm Hi Hn Hbits.
  destruct (draw_run_again clip x y a b e w D Lm Hi Hn)
    as (e1 & R1 & D1 & (M1 & I1 & P1)).
  destruct (draw_run_again clip x y a b e1 w D1)
    as (e2 & R2 & D2 & (M2 & I2 & P2)); [congruence|lia|lia|].
  exists e2. rewrite (bind_val _ _ _ _ _ R1). split; [exact R2|].
  split; [|congruence].
  destruct D as (_ & _ & Ld & _). destruct D2 as (_ & _ & Ld2 & _).
  apply list_eq. intros i.
  destruct (Nat.lt_ge_cases i 2048) as [Hlt|Hge].
  - specialize (P1 (Z.of_nat i mod 64) (Z.of_nat i / 64)
                  ltac:(zmod) ltac:(zmod)).
    specialize (P2 (Z.of_nat i mod 64) (Z.of_nat i / 64)
                  ltac:(zmod) ltac:(zmod)).
    replace (Z.of_nat i mod 64 + Z.of_nat i / 64 * 64) with (Z.of_nat i)
      in P1, P2 by zmod.
    rewrite M1, I1 in P2. rewrite P1 in P2.
    rewrite !getitem_nonneg in P2 by lia. rewrite Nat2Z.id in P2.
    rewrite P2.
    destruct (disp e !! i) as [v|] eqn:Ev;
      destruct (covers _ _ _ _ _ _ _ _); cbn; try reflexivity.
    f_equal. apply int_not_twice.
    exact (Forall_lookup_1 _ _ _ _ Hbits Ev).
  - rewrite !lookup_ge_None_2 by lia. reflexivity.
Qed.

Lemma draw_twice_restores_display_witness :
  exists e2,
    (draw 0 1 0xD015 ;;; draw 0 1 0xD015) demo_glyph = Val tt e2 /\
    disp e2 = disp demo_glyph /\ mem e2 = mem demo_glyph.
Proof.
  apply (draw_twice_restores_display true 0 1 3 4 demo_glyph 0xD015).
  - repeat apply conj; try (vm_compute; reflexivity); lia.
  - vm_compute. reflexivity.
  - vm_compute. discriminate.
  - vm_compute. discriminate.
  - apply (ok_disp demo_glyph). apply machine_okb_sound.
    vm_compute. reflexivity.
Defined.

(** ** The memory and stack views *)

Lemma low_bit_of_shift byte j :
  0 <= j -> Z.land (Z.shiftr byte j) 1 = Z.b2z (Z.testbit byte j).
Proof.
  intros Hj. change 1 with (Z.ones 1). rewrite Z.land_ones by lia.
  change (2 ^ 1) with 2. rewrite <- Z.bit0_mod, Z.shiftr_spec by lia.
  reflexivity.
Qed.

(** The inner loop of [stack_to_surf] from bit [s] on, [n] bits. *)
Lemma put_bits_spec byte i n : forall (s : nat) copy,
  0 <= i -> (s + n <= 8)%nat -> i * 8 + 8 <= Z.of_nat (length copy) ->
  exists c,
    put_bits byte i (map Z.of_nat (seq s n)) copy = Some c /\
    length c = length copy /\
    forall k, 0 <= k < Z.of_nat (length copy) ->
      Py.getitem c k =
      if (i * 8 + Z.of_nat s <=? k) && (k <? i * 8 + Z.of_nat (s + n))
      then Some (Z.b2z (Z.testbit byte (k - i * 8)))
      else Py.getitem copy k.
Proof.
  induction n as [|n IH]; intros s copy Hi Hs Hlen; cbn [seq map put_bits].
  - exists copy. split; [reflexivity|]. split; [reflexivity|].
    intros k Hk.
    destruct (Z.leb_spec (i * 8 + Z.of_nat s) k);
      destruct (Z.ltb_spec k (i * 8 + Z.of_nat (s + 0))); cbn [andb];
      try reflexivity; lia.
  - rewrite setitem_nonneg by lia.
    set (c1 := <[_ := _]> copy).
    destruct (IH (S s) c1) as (c & R & Lc & Hc);
      [lia|lia|unfold c1; rewrite length_insert; lia|].
    exists c. split; [exact R|].
    unfold c1 in Lc. rewrite length_insert in Lc. split; [exact Lc|].
    intros k Hk. rewrite Hc by (unfold c1; rewrite length_insert; lia).
    destruct (Z.leb_spec (i * 8 + Z.of_nat (S s)) k);
      destruct (Z.ltb_spec k (i * 8 + Z.of_nat (S s + n)));
      destruct (Z.leb_spec (i * 8 + Z.of_nat s) k);
      destruct (Z.ltb_spec k (i * 8 + Z.of_nat (s + S n)));
      cbn [andb]; try reflexivity; try lia.
    all: unfold c1;
      first [ solve [look; reflexivity]
            | replace k with (i * 8 + Z.of_nat s) by lia; look;
              rewrite low_bit_of_shift by lia; do 3 f_equal; lia ].
Qed.

(** The outer loop of [stack_to_surf] from cell number [i] on. *)
Lemma put_bytes_spec st : forall i copy,
  0 <= i -> (i + Z.of_nat (length st)) * 8 <= Z.of_nat (length copy) ->
  exists c,
    put_bytes i st copy = Some c /\
    length c = length copy /\
    (forall (a : nat) byte j, st !! a = Some byte -> 0 <= j < 8 ->
       Py.getitem c ((i + Z.of_nat a) * 8 + j)
       = Some (Z.b2z (Z.testbit byte j))) /\
    (forall k, 0 <= k < Z.of_nat (length copy) ->
       ~ i * 8 <= k < (i + Z.of_nat (length st)) * 8 ->
       Py.getitem c k = Py.getitem copy k).
Proof.
  induction st as [|byte rest IH]; intros i copy Hi Hlen;
    cbn [put_bytes length] in *.
  - exists copy. split; [reflexivity|]. split; [reflexivity|].
    split; [intros a byte j H; discriminate H|reflexivity].
  - destruct (put_bits_spec byte i 8 0 copy) as (c1 & R1 & L1 & H1);
      [lia|lia|lia|].
    unfold Py.range. change (Z.to_nat 8) with 8%nat. rewrite R1.
    destruct (IH (i + 1) c1) as (c & R & Lc & Hin & Hout); [lia|lia|].
    exists c. split; [exact R|]. split; [congruence|].
    split.
    + intros a b j Ha Hj. destruct a as [|a]; cbn in Ha.
      * injection Ha as ->. rewrite Hout by lia. rewrite H1 by lia.
        destruct (Z.leb_spec (i * 8 + Z.of_nat 0) ((i + Z.of_nat 0) * 8 + j));
          [|lia].
        destruct (Z.ltb_spec ((i + Z.of_nat 0) * 8 + j)
                    (i * 8 + Z.of_nat (0 + 8))); [|lia].
        cbn [andb]. do 3 f_equal. lia.
      * rewrite <- (Hin a b j Ha Hj). f_equal. lia.
    + intros k Hk N. rewrite Hout by lia. rewrite H1 by lia.
      destruct (Z.leb_spec (i * 8 + Z.of_nat 0) k);
        destruct (Z.ltb_spec k (i * 8 + Z.of_nat (0 + 8)));
        cbn [andb]; try reflexivity; lia.
Qed.

Lemma stack_dump_fits st :
  Z.of_nat (length st) * 8 <= 128 * stack_dump_height st.
Proof.
  unfold stack_dump_height.
  destruct (Z.eqb_spec ((Z.of_nat (length st) * 8) mod 128) 0); zmod.
Qed.

(** X22: [stack_to_surf] never fails. Its buffer has 128 pixels for each row
    of the picture; pixel 8i + j is bit j of stack cell i, the least
    significant bit first and the bits above the eighth left out; the
    pixels after the last cell are zero. *)
Theorem stack_view_is_lsb_first st :
  exists buf,
    stack_to_surf st = Some buf /\
    Z.of_nat (length buf) = 128 * stack_dump_height st /\
    (forall (a : nat) byte j, st !! a = Some byte -> 0 <= j < 8 ->
       Py.getitem buf (Z.of_nat a * 8 + j)
       = Some (Z.b2z (Z.testbit byte j))) /\
    (forall k, Z.of_nat (length st) * 8 <= k < Z.of_nat (length buf) ->
       Py.getitem buf k = Some 0).
Proof.
  pose proof (stack_dump_fits st) as Hfit. unfold stack_to_surf.
  set (n := Z.to_nat (128 * stack_dump_height st)).
  destruct (put_bytes_spec st 0 (repeat 0 n)) as (c & R & Lc & Hin & Hout);
    [lia|rewrite repeat_length; lia|].
  rewrite repeat_length in *.
  exists c. split; [exact R|]. split; [lia|]. split.
  - intros a b j Ha Hj. rewrite <- (Hin a b j Ha Hj). f_equal.
  - intros k Hk. rewrite Hout by lia.
    rewrite getitem_nonneg by (rewrite repeat_length; lia).
    apply lookup_repeat. lia.
Qed.

Lemma byte_pixels_bits byte :
  is_byte byte -> byte_pixels byte = Some (msb_first byte).
Proof.
  intros H.
  assert (C : forallb (fun v => bool_decide (byte_pixels v = Some (msb_first v)))
                (Py.range 256) = true) by (vm_compute; reflexivity).
  assert (I : In byte (Py.range 256)).
  { unfold Py.range. apply in_map_iff. exists (Z.to_nat byte).
    unfold is_byte in H. split; [lia|]. apply in_seq. lia. }
  apply (proj1 (forallb_forall _ _) C) in I.
  now apply bool_decide_eq_true in I.
Qed.

Lemma msb_first_lookup byte (j : nat) :
  (j < 8)%nat ->
  msb_first byte !! j = Some (Z.b2z (Z.testbit byte (7 - Z.of_nat j))).
Proof.
  intros H. unfold msb_first, Py.range. rewrite list_lookup_fmap.
  change (Z.to_nat 8) with 8%nat.
  do 8 (destruct j as [|j]; [reflexivity|]). lia.
Qed.

(** X23: When every cell holds a byte, [mem_to_surf] yields eight pixels for
    each cell, 128 by 256 of them for the 4096 cells of a machine, and
    pixel 8a + j is bit 7 - j of cell a: the most significant bit
    first, the opposite of the stack view. *)
Theorem memory_view_is_msb_first m :
  Forall is_byte m ->
  exists buf,
    mem_to_surf m = Some buf /\
    length buf = (8 * length m)%nat /\
    forall (a j : nat) byte, m !! a = Some byte -> (j < 8)%nat ->
      buf !! (8 * a + j)%nat
      = Some (Z.b2z (Z.testbit byte (7 - Z.of_nat j))).
Proof.
  induction 1 as [|byte rest Hb _ (buf & R & L & P)]; cbn [mem_to_surf].
  - exists []. split; [reflexivity|]. split; [reflexivity|].
    intros a j b Ha. discriminate Ha.
  - rewrite (byte_pixels_bits byte Hb), R.
    exists (msb_first byte ++ buf). split; [reflexivity|].
    assert (L8 : length (msb_first byte) = 8%nat) by reflexivity.
    split; [rewrite length_app, L8, L; cbn [length]; lia|].
    intros a j b Ha Hj. destruct a as [|a]; cbn in Ha.
    + injection Ha as ->. rewrite lookup_app_l by lia.
      replace (8 * 0 + j)%nat with j by lia. now apply msb_first_lookup.
    + rewrite lookup_app_r by lia. rewrite L8.
      replace (8 * S a + j - 8)%nat with (8 * a + j)%nat by lia.
      now apply P.
Qed.

Lemma memory_view_is_msb_first_witness :
  exists buf,
    mem_to_surf [0x80; 0x01] = Some buf /\
    length buf = 16%nat /\
    forall (a j : nat) byte, [0x80; 0x01] !! a = Some byte -> (j < 8)%nat ->
      buf !! (8 * a + j)%nat
      = Some (Z.b2z (Z.testbit byte (7 - Z.of_nat j))).
Proof.
  apply (memory_view_is_msb_first [0x80; 0x01]).
  apply bytes_checked. vm_compute. reflexivity.
Defined.

(** ** Skips, the frame's draw, the key latch *)

(** X24: 3xnn, 4xnn, 5xy0 and 9xy0 compare Vx with nn (3, 4) or with Vy
    (5, 9); the step moves the program counter by 4 when the values are
    equal (3, 5), respectively different (4, 9), and by 2 otherwise,
    clears the key latch and changes nothing else. *)
Theorem conditional_skips_move_pc_only rnd e w a b :
  fetch e = Val w e ->
  Z.land w 0xF000 = 0x3000 \/ Z.land w 0xF000 = 0x4000 \/
  Z.land w 0xF000 = 0x5000 \/ Z.land w 0xF000 = 0x9000 ->
  Py.getitem (regs e) (Z.shiftr (Z.land w 0x0F00) 8) = Some a ->
  Py.getitem (regs e) (Z.shiftr (Z.land w 0x00F0) 4) = Some b ->
  exists e',
    tick rnd e = Val tt e' /\
    pc e' = pc e +
      (if xorb ((Z.land w 0xF000 =? 0x4000) || (Z.land w 0xF000 =? 0x9000))
               (a =? (if (Z.land w 0xF000 =? 0x3000)
                         || (Z.land w 0xF000 =? 0x4000)
                      then Z.land w 0x00FF else b))
       then 4 else 2) /\
    kb_interrupt e' = None /\
    with_kb_interrupt (kb_interrupt e) (with_pc (pc e) e') = e.
Proof.
  intros Hf Hfam Ha Hb. by_run. apply (runs_tick _ _ _ _ Hf).
  unfold dispatch.
  destruct Hfam as [-> | [-> | [-> | ->]]]; cbv iota beta;
    cbn [Z.eqb Pos.eqb orb xorb]; run;
    match goal with
    | |- context [a =? ?v] => destruct (a =? v)
    end; cbn [negb xorb]; run; cbn [after]; proj;
    repeat apply conj; try reflexivity; try lia;
    clear; destruct e as [q r m rg i p st s k snd dl ki it d]; reflexivity.
Qed.

Lemma conditional_skips_move_pc_only_witness :
  exists e',
    tick 0 demo_skip = Val tt e' /\
    pc e' = 0x200 + 4 /\
    kb_interrupt e' = None /\
    with_kb_interrupt (kb_interrupt demo_skip) (with_pc (pc demo_skip) e')
    = demo_skip.
Proof.
  apply (conditional_skips_move_pc_only 0 demo_skip 0x4007 5 5).
  - vm_compute. reflexivity.
  - right. left. vm_compute. reflexivity.
  - vm_compute. reflexivity.
  - vm_compute. reflexivity.
Defined.


(** X25: With the display wait on (and not faked), the Dxyn that finds
    a frame rendered uses it up: after the step [interrupted] is False,
    whether the draw returned or raised, so that the next Dxyn waits. *)
Theorem draw_uses_up_the_frame rnd e w :
  fetch e = Val w e ->
  Z.land w 0xF000 = 0xD000 ->
  QUIRK_disp_wait (quirks e) = true ->
  QUIRK_disp_wait_faker (quirks e) = false ->
  interrupted e = true ->
  interrupted (final (tick rnd e)) = false.
Proof.
  intros Hf Hfam Hw Hk Hi.
  rewrite (tick_decode _ _ _ Hf). unfold dispatch. rewrite Hfam.
  cbv iota beta. unfold op_D.
  set (x := Z.shiftr (Z.land w 0x0F00) 8).
  set (y := Z.shiftr (Z.land w 0x00F0) 4).
  set (e1 := with_pc (pc e + 2) e).
  rewrite ?bind_assoc. rewrite bind_gets. cbv beta.
  replace (QUIRK_disp_wait (quirks e1)) with true by (symmetry; exact Hw).
  rewrite ?bind_assoc. rewrite bind_gets. cbv beta.
  replace (QUIRK_disp_wait_faker (quirks e1)) with false
    by (symmetry; exact Hk).
  rewrite ?bind_assoc. rewrite bind_gets. cbv beta.
  replace (interrupted e1) with true by (symmetry; exact Hi).
  rewrite ?bind_assoc. rewrite bind_modify. cbv beta.
  match goal with
  | |- interrupted (final (?m ?s)) = false =>
      assert (K : keeps interrupted m) by frame;
      rewrite (K s)
  end.
  reflexivity.
Qed.

Lemma draw_uses_up_the_frame_witness :
  interrupted demo_glyph = true /\
  interrupted (final (tick 0 demo_glyph)) = false.
Proof.
  split; [vm_compute; reflexivity|].
  apply (draw_uses_up_the_frame 0 demo_glyph 0xD015).
  - vm_compute. reflexivity.
  - vm_compute. reflexivity.
  - vm_compute. reflexivity.
  - vm_compute. reflexivity.
  - vm_compute. reflexivity.
Defined.

Lemma handle_event_runs ev e :
  length (kb e) = 16%nat ->
  exists e',
    handle_event ev e = Val tt e' /\ length (kb e') = 16%nat /\
    kb_interrupt e' =
      match ev with
      | KEYDOWN k =>
          match key_map k with
          | Some key => Some key
          | None => kb_interrupt e
          end
      | _ => kb_interrupt e
      end.
Proof.
  intros L. destruct ev as [k|k|]; cbn [handle_event];
    try destruct (key_map k) as [key|] eqn:Hk;
    try (exists e; repeat apply conj; reflexivity || assumption).
  - apply key_map_range in Hk.
    unfold key_down. rewrite bind_gets.
    unfold lift_index. rewrite setitem_nonneg by lia.
    eexists. split; [reflexivity|]. cbn [kb kb_interrupt with_kb
      with_kb_interrupt]. rewrite length_insert. split; [exact L|reflexivity].
  - apply key_map_range in Hk.
    unfold key_up. rewrite bind_gets.
    unfold lift_index. rewrite setitem_nonneg by lia.
    eexists. split; [reflexivity|]. cbn [kb kb_interrupt with_kb].
    rewrite length_insert. split; [exact L|reflexivity].
Qed.

Lemma handle_input_app evs1 evs2 e :
  handle_input (evs1 ++ evs2) e
  = (handle_input evs1 ;;; handle_input evs2) e.
Proof.
  revert e. induction evs1 as [|ev evs1 IH]; intros e; cbn [app handle_input].
  - reflexivity.
  - rewrite bind_assoc.
    destruct (handle_event ev e) as [[] e1|x e1] eqn:E.
    + rewrite !(bind_val _ _ _ _ _ E). apply IH.
    + now rewrite !(bind_exc _ _ _ _ _ E).
Qed.

Lemma handle_input_runs evs : forall e,
  length (kb e) = 16%nat ->
  exists e', handle_input evs e = Val tt e' /\ length (kb e') = 16%nat.
Proof.
  induction evs as [|ev evs IH]; intros e L; cbn [handle_input].
  - exists e. split; [reflexivity|exact L].
  - destruct (handle_event_runs ev e L) as (e1 & R1 & L1 & _).
    rewrite (bind_val _ _ _ _ _ R1). now apply IH.
Qed.

Lemma handle_input_no_press evs : forall e,
  length (kb e) = 16%nat ->
  Forall (fun ev => match ev with
                    | KEYDOWN k => key_map k = None
                    | _ => True
                    end) evs ->
  exists e', handle_input evs e = Val tt e' /\
             kb_interrupt e' = kb_interrupt e.
Proof.
  induction evs as [|ev evs IH]; intros e L H; cbn [handle_input].
  - exists e. split; reflexivity.
  - destruct (handle_event_runs ev e L) as (e1 & R1 & L1 & K1).
    rewrite (bind_val _ _ _ _ _ R1).
    apply Forall_cons in H as [Hev H].
    destruct (IH e1 L1 H) as (e' & R & K). exists e'. split; [exact R|].
    rewrite K, K1. destruct ev as [k| |]; try reflexivity.
    now rewrite Hev.
Qed.

(** X26: [handle_input] returns on every sequence of events, and the key
    it leaves latched is that of the last KEYDOWN of a key of
    [key_map], whatever is released, resized or pressed outside
    [key_map] after it: a release does not clear the latch. *)
Theorem latch_holds_last_key_pressed evs k key rest e :
  length (kb e) = 16%nat ->
  key_map k = Some key ->
  Forall (fun ev => match ev with
                    | KEYDOWN k' => key_map k' = None
                    | _ => True
                    end) rest ->
  exists e',
    handle_input (evs ++ KEYDOWN k :: rest) e = Val tt e' /\
    kb_interrupt e' = Some key.
Proof.
  intros L Hk Hrest. rewrite handle_input_app.
  destruct (handle_input_runs evs e L) as (e1 & R1 & L1).
  rewrite (bind_val _ _ _ _ _ R1). cbn [handle_input].
  destruct (handle_event_runs (KEYDOWN k) e1 L1) as (e2 & R2 & L2 & K2).
  rewrite (bind_val _ _ _ _ _ R2). rewrite Hk in K2.
  destruct (handle_input_no_press rest e2 L2 Hrest) as (e' & R & K).
  exists e'. split; [exact R|]. now rewrite K.
Qed.

Lemma latch_holds_last_key_pressed_witness :
  exists e',
    handle_input ([KEYDOWN K_1]
                  ++ KEYDOWN K_q :: [KEYUP K_q; VIDEORESIZE; KEYDOWN K_other])
      demo_plain = Val tt e' /\
    kb_interrupt e' = Some 4.
Proof.
  apply (latch_holds_last_key_pressed [KEYDOWN K_1] K_q 4
           [KEYUP K_q; VIDEORESIZE; KEYDOWN K_other] demo_plain).
  - vm_compute. reflexivity.
  - reflexivity.
  - repeat constructor.
Defined.
